(** * Serum DEX client: slab layout, order book and pool schema

    A shallow embedding of the order-book client
    ([src/market.ts], [src/market.js], the slab layout) and of the pool
    request schema ([packages/pool/src/schema.ts]).

    Conventions.
    - A [bn.js] big integer is a [Z]; the operations that assert
      (division by zero, conversion of more than 53 bits) return [option].
    - A JavaScript [number] is an IEEE 754 binary64 value, with the
      arithmetic of the Standard Library's specification of binary
      floating point ([SpecFloat], 53 bits, round to nearest, ties to
      even).  [Math.round] is the rounding of ECMAScript (nearest integer,
      ties towards plus infinity).
    - A thrown exception is [None]. *)

From Stdlib Require Import ZArith QArith Qround Lia Lqa List String Sorted.
From Stdlib Require Import Floats.SpecFloat.
From coqutil Require Import Word.LittleEndianList Byte.
From stdpp Require Import base option list.
Import ListNotations.
Local Open Scope Z_scope.

(** ** JavaScript numbers *)

Module Number.

(** A number is a signed zero, an infinity, NaN, or the finite value
    [(-1)^s * m * 2^e]. *)
Definition t : Type := spec_float.

(** binary64: 53 bits of mantissa, exponents below 1024. *)
Definition prec : Z := 53.
Definition emax : Z := 1024.

(** [x + y], [x * y] and [x / y]: the exact result rounded to the nearest
    number, ties to even. *)
Definition add (x y : t) : t := SFadd prec emax x y.
Definition mul (x y : t) : t := SFmul prec emax x y.
Definition div (x y : t) : t := SFdiv prec emax x y.

(** The number nearest to the integer [z]: [z] itself up to [2^53]. *)
Definition ofZ (z : Z) : t := binary_normalize prec emax z 0 false.

(** What a decimal literal [digits * 10^-scale] denotes, the number
    nearest to it ([literal 15 2] is [0.15]), for [digits] and [10^scale]
    of at most 53 bits. *)
Definition literal (digits scale : Z) : t := div (ofZ digits) (ofZ (10 ^ scale)).

Definition isFinite (x : t) : bool :=
  match x with
  | S754_zero _ | S754_finite _ _ _ => true
  | _ => false
  end.

(** The rational a finite number is; 0 for the others. *)
Definition value (x : t) : Q :=
  match x with
  | S754_finite s m e =>
      if 0 <=? e then inject_Z (cond_Zopp s (Zpos m) * 2 ^ e)
      else Qmake (cond_Zopp s (Zpos m)) (2 ^ Z.to_pos (- e))
  | _ => 0%Q
  end.

(** The integer part of a finite number, towards zero. *)
Definition trunc (x : t) : Z :=
  match x with
  | S754_finite s m e =>
      cond_Zopp s (if 0 <=? e then Zpos m * 2 ^ e else Zpos m / 2 ^ (- e))
  | _ => 0
  end.

End Number.

(** ** bn.js *)

Module BN.

(** [a.mul(b)]. *)
Definition mul (a b : Z) : Z := a * b.

(** [a.div(b)]: truncated division; [assert(!num.isZero())]. *)
Definition div (a b : Z) : option Z :=
  if b =? 0 then None else Some (Z.quot a b).

(** [a.umod(b)]: the remainder made non-negative. *)
Definition umod (a b : Z) : option Z :=
  if b =? 0 then None else Some (a mod Z.abs b).

(** [a.gcd(b)]. *)
Definition gcd (a b : Z) : Z := Z.gcd a b.

(** [new BN(10).pow(new BN(e))]. *)
Definition pow (a e : Z) : Z := a ^ e.

(** [a.ushrn(bits)] on a non-negative number. *)
Definition ushrn (a bits : Z) : Z := Z.shiftr a bits.

(** [a.eq(b)]. *)
Definition eq (a b : Z) : bool := a =? b.

(** [a.toNumber()]: asserts that the magnitude fits in 53 bits. *)
Definition toNumber (a : Z) : option Number.t :=
  if Z.abs a <? 2 ^ 53 then Some (Number.ofZ a) else None.

(** [new BN(n)] for a number [n]: the constructor passes [n || 0] on, so
    NaN and the zeros give 0; [_initNumber] asserts [|n| < 2^53], which
    an infinity fails as well, and keeps the integer part. *)
Definition ofNumber (n : Number.t) : option Z :=
  match n with
  | S754_nan | S754_zero _ => Some 0
  | S754_infinity _ => None
  | S754_finite _ _ _ =>
      let z := Number.trunc n in
      if Z.abs z <? 2 ^ 53 then Some z else None
  end.

End BN.

(** ** JavaScript [Math] *)

Module Math.

(** [Math.round(x)]: NaN, the infinities and the zeros are returned as
    they are, and so is a finite [x] with a non-negative exponent, which
    is an integer; any other [x] gives [floor(x + 1/2)], with the sign of
    [x] if that is zero. *)
Definition round (x : Number.t) : Number.t :=
  match x with
  | S754_finite s m e =>
      if 0 <=? e then x
      else let r := Qfloor (Number.value x + (1 # 2)) in
           if r =? 0 then S754_zero s else Number.ofZ r
  | _ => x
  end.

(** [Math.pow(10, e)] for a non-negative integral exponent: the number
    nearest to [10^e], which is [10^e] itself up to [e = 22]. *)
Definition pow10 (e : Z) : Number.t := Number.ofZ (10 ^ e).

End Math.

(** ** buffer-layout *)

Set Warnings "-register-all".

Module BufferLayout.

(** What [decode] returns: a number, a [BN], a [Buffer], an object with
    its members in the order they are set, or an array. *)
Inductive Value :=
| VNumber (n : Z)
| VBN (n : Z)
| VBuffer (bytes : list byte)
| VObject (members : list (string * Value))
| VArray (elements : list Value).

(** The layouts the slab is built of.  [Zeros], [BNLayout] and
    [PublicKeyLayout] are the layouts of [./layout]; the count of a
    [Sequence] is a number or an [OffsetLayout], a layout read at a
    relative offset; a [Union] has its discriminator, its default layout
    and the registry of its variants.  The property of a layout is kept
    beside it, see [Field]. *)
Inductive Layout :=
| UInt (span : nat)
| Blob (span : nat)
| Zeros (span : nat)
| BNLayout (span : nat)
| PublicKeyLayout
| Structure (fields : list (option string * Layout))
| Sequence (elementLayout : Layout) (count : nat + Layout * Z)
| Union (discr : option string * Layout) (defaultLayout : Layout)
        (registry : list (Z * (string * Layout))).

Definition Field : Type := option string * Layout.

(** [b.slice(start, end)]. *)
Definition slice (b : list byte) (start end_ : Z) : list byte :=
  let len := Z.of_nat (length b) in
  let rel x := if x <? 0 then Z.max (len + x) 0 else Z.min x len in
  firstn (Z.to_nat (rel end_ - rel start)) (skipn (Z.to_nat (rel start)) b).

(** [b.readUIntLE(offset, byteLength)]: throws a RangeError outside the
    buffer. *)
Definition readUIntLE (b : list byte) (offset : Z) (byteLength : nat) : option Z :=
  if (0 <=? offset) && (offset + Z.of_nat byteLength <=? Z.of_nat (length b))
  then Some (le_combine (firstn byteLength (skipn (Z.to_nat offset) b)))
  else None.

Fixpoint sumSpans (spans : list (option nat)) : option nat :=
  match spans with
  | [] => Some 0%nat
  | s :: spans' => a ← s; b ← sumSpans spans'; Some (a + b)%nat
  end.

(** [layout.span], [None] for the [-1] of a layout whose span depends on
    the data. *)
Fixpoint span (l : Layout) : option nat :=
  match l with
  | UInt n | Blob n | Zeros n | BNLayout n => Some n
  | PublicKeyLayout => Some 32%nat
  | Structure fields => sumSpans (map (fun '(_, fl) => span fl) fields)
  | Sequence el count =>
      match count, span el with
      | inl n, Some (S k) => Some (n * S k)%nat
      | _, _ => None
      end
  | Union (_, discr) defaultLayout _ =>
      a ← span discr; b ← span defaultLayout; Some (a + b)%nat
  end.

(** The count of a sequence (and the discriminator of a union): a
    number, or an unsigned integer read at an offset relative to the
    sequence. *)
Definition decodeCount (count : nat + Layout * Z) (b : list byte) (offset : Z)
  : option Z :=
  match count with
  | inl n => Some (Z.of_nat n)
  | inr (UInt n, rel) => readUIntLE b (offset + rel) n
  | inr _ => None
  end.

Fixpoint spanFields (spans : list (Z -> option Z)) (offset : Z) : option Z :=
  match spans with
  | [] => Some 0
  | sp :: spans' =>
      fsp ← sp offset; rest ← spanFields spans' (offset + fsp); Some (fsp + rest)
  end.

Fixpoint spanElements (sp : Z -> option Z) (n : nat) (offset : Z) : option Z :=
  match n with
  | O => Some 0
  | S n' => a ← sp offset; rest ← spanElements sp n' (offset + a); Some (a + rest)
  end.

(** [layout.getSpan(b, offset)]. *)
Fixpoint getSpan (l : Layout) (b : list byte) (offset : Z) : option Z :=
  match span l with
  | Some n => Some (Z.of_nat n)
  | None =>
      match l with
      | Structure fields =>
          spanFields (map (fun '(_, fl) => getSpan fl b) fields) offset
      | Sequence el count =>
          count ← decodeCount count b offset;
          match span el with
          | Some (S k) => Some (count * Z.of_nat (S k))
          | _ => spanElements (getSpan el b) (Z.to_nat count) offset
          end
      | _ => None
      end
  end.

(** [Structure.decode]: a field without property is skipped, the offset
    advances by the span of every field. *)
Fixpoint decodeFields
    (fields : list (option string * (Z -> option Value) * (Z -> option Z)))
    (offset : Z) : option (list (string * Value)) :=
  match fields with
  | [] => Some []
  | (property, dec, sp) :: fields' =>
      match property with
      | Some p =>
          v ← dec offset;
          fsp ← sp offset;
          rest ← decodeFields fields' (offset + fsp);
          Some ((p, v) :: rest)
      | None =>
          fsp ← sp offset;
          decodeFields fields' (offset + fsp)
      end
  end.

(** [Sequence.decode]: [count] elements, one after the other. *)
Fixpoint decodeElements (dec : Z -> option Value) (sp : Z -> option Z)
    (n : nat) (offset : Z) : option (list Value) :=
  match n with
  | O => Some []
  | S n' =>
      v ← dec offset;
      a ← sp offset;
      rest ← decodeElements dec sp n' (offset + a);
      Some (v :: rest)
  end.

Fixpoint findVariant {A} (registry : list (Z * A)) (variant : Z) : option A :=
  match registry with
  | [] => None
  | (v, a) :: registry' => if v =? variant then Some a else findVariant registry' variant
  end.

(** Modelled from the spec: [./layout] is not among the sources; its
    [u64] and [u128] are fixed-width integers, [span] consecutive bytes
    read little-endian into a [BN], failing if fewer than [span] bytes
    remain. *)
Definition decodeBN (b : list byte) (offset : Z) (span : nat) : option Value :=
  VBN <$> readUIntLE b offset span.

(** Modelled from the spec: [./layout] is not among the sources; its
    [publicKeyLayout] is a 32-byte identifier, an opaque byte copy that
    fails on truncated input. *)
Definition decodePublicKey (b : list byte) (offset : Z) : option Value :=
  if (0 <=? offset) && (offset + 32 <=? Z.of_nat (length b))
  then Some (VBuffer (slice b offset (offset + 32)))
  else None.

(** Modelled from the spec: [./layout] is not among the sources; its
    [zeros(n)] is a reserved spacer of [n] bytes, read like a blob. *)
Definition decodeZeros (b : list byte) (offset : Z) (span : nat) : option Value :=
  Some (VBuffer (slice b offset (offset + Z.of_nat span))).

(** [layout.decode(b, offset)]. *)
Fixpoint decode (l : Layout) (b : list byte) (offset : Z) : option Value :=
  match l with
  | UInt n => VNumber <$> readUIntLE b offset n
  | Blob n => Some (VBuffer (slice b offset (offset + Z.of_nat n)))
  | Zeros n => decodeZeros b offset n
  | BNLayout n => decodeBN b offset n
  | PublicKeyLayout => decodePublicKey b offset
  | Structure fields =>
      VObject <$>
        decodeFields (map (fun '(p, fl) => (p, decode fl b, getSpan fl b)) fields) offset
  | Sequence el count =>
      count ← decodeCount count b offset;
      VArray <$> decodeElements (decode el b) (getSpan el b) (Z.to_nat count) offset
  | Union (dprop, discr) defaultLayout registry =>
      d ← decodeCount (inr (discr, 0)) b offset;
      dspan ← span discr;
      match findVariant (map (fun '(v, (p, vl)) => (v, (p, decode vl b))) registry) d with
      | Some (p, dec) =>
          v ← dec (offset + Z.of_nat dspan);
          Some (VObject [(p, v)])
      | None =>
          content ← decode defaultLayout b (offset + Z.of_nat dspan);
          Some (VObject [(default "variant"%string dprop, VNumber d);
                         ("content"%string, content)])
      end
  end.

(** The constructors of buffer-layout, as the sources call them. *)
Definition u8 (property : string) : Field := (Some property, UInt 1).
Definition u16 (property : string) : Field := (Some property, UInt 2).
Definition u32 (property : string) : Field := (Some property, UInt 4).
Definition blob (n : nat) : Field := (None, Blob n).
Definition struct (fields : list Field) : Layout := Structure fields.
Definition seq (elementLayout : Layout) (count : nat + Layout * Z)
    (property : string) : Field :=
  (Some property, Sequence elementLayout count).
Definition offset (layout : Layout) (rel : Z) : nat + Layout * Z :=
  inr (layout, rel).
Definition union (discr : Field) (defaultLayout : Layout) : Layout :=
  Union discr defaultLayout [].

(** [union.addVariant(variant, layout, property)]. *)
Definition addVariant (u : Layout) (variant : Z) (layout : Layout)
    (property : string) : Layout :=
  match u with
  | Union discr defaultLayout registry =>
      Union discr defaultLayout (registry ++ [(variant, (property, layout))])
  | _ => u
  end.

Definition fieldsOf (l : Layout) : list Field :=
  match l with
  | Structure fields => fields
  | _ => []
  end.

(** [structure.layoutFor(property)]. *)
Definition layoutFor (l : Layout) (property : string) : option Layout :=
  snd <$> List.find (fun fd : Field =>
                       match fst fd with
                       | Some p => String.eqb p property
                       | None => false
                       end) (fieldsOf l).

(** [structure.offsetOf(property)]. *)
Fixpoint offsetOfFields (fields : list Field) (property : string) (acc : Z)
  : option Z :=
  match fields with
  | [] => None
  | (p, fl) :: fields' =>
      if match p with Some p' => String.eqb p' property | None => false end
      then Some acc
      else offsetOfFields fields' property
             (match span fl with
              | Some n => if 0 <=? acc then acc + Z.of_nat n else acc
              | None => -1
              end)
  end.

Definition offsetOf (l : Layout) (property : string) : option Z :=
  offsetOfFields (fieldsOf l) property 0.

(** Modelled from the spec: the constructors of [./layout], which is not
    among the sources: a zero spacer of [n] bytes (no property), the 64-bit
    and 128-bit integers, the 32-byte public key. *)
Definition zeros (n : nat) : Field := (None, Zeros n).
Definition u64 (property : string) : Field := (Some property, BNLayout 8).
Definition u128 (property : string) : Field := (Some property, BNLayout 16).
Definition publicKeyLayout (property : string) : Field :=
  (Some property, PublicKeyLayout).

(** [object[property]]. *)
Fixpoint member (property : string) (members : list (string * Value))
  : option Value :=
  match members with
  | [] => None
  | (p, v) :: members' =>
      if String.eqb p property then Some v else member property members'
  end.

End BufferLayout.

(** ** The slab layout *)

Module SlabLayout.
Import BufferLayout.
Local Open Scope string_scope.

Definition SLAB_HEADER_LAYOUT : Field :=
  (Some "header",
   struct [
     u32 "bumpIndex";
     zeros 4; (* Consider slabs with more than 2^32 nodes to be invalid *)
     u32 "freeListLen";
     zeros 4;
     u32 "freeListHead";
     u32 "root";
     u32 "leafCount";
     zeros 4
   ]).

Definition SLAB_NODE_LAYOUT : Field :=
  (Some "node",
   let l0 := union (u32 "tag") (Blob 60) in
   let l1 := addVariant l0 0 (struct []) "uninitialized" in
   let l2 := addVariant l1 1
               (struct [u32 "prefixLen"; u128 "key"; seq (UInt 4) (inl 2%nat) "children"])
               "innerNode" in
   let l3 := addVariant l2 2
               (struct [u8 "ownerSlot"; blob 3; u128 "key";
                        publicKeyLayout "owner"; u64 "quantity"])
               "leafNode" in
   let l4 := addVariant l3 3 (struct [u32 "next"]) "freeNode" in
   addVariant l4 4 (struct []) "lastFreeNode").

Definition SLAB_LAYOUT : Layout :=
  struct [
    SLAB_HEADER_LAYOUT;
    seq (snd SLAB_NODE_LAYOUT)
        (offset
           (default (Blob 0) (layoutFor (snd SLAB_HEADER_LAYOUT) "bumpIndex"))
           (default 0 (offsetOf (snd SLAB_HEADER_LAYOUT) "bumpIndex")
            - Z.of_nat (default 0%nat (span (snd SLAB_HEADER_LAYOUT)))))
        "nodes"
  ].

(** The number of decoded nodes of a decoded slab. *)
Definition nodeCount (slab : option Value) : option nat :=
  match slab with
  | Some (VObject members) =>
      match member "nodes" members with
      | Some (VArray nodes) => Some (length nodes)
      | _ => None
      end
  | _ => None
  end.

Definition isU32 (fd : Field) : bool :=
  match fd with
  | (Some _, UInt 4) => true
  | _ => false
  end.

Definition isSpacer (fd : Field) : bool :=
  match fd with
  | (None, Zeros 4) => true
  | _ => false
  end.

(** The 32 bytes of a slab header. *)
Definition headerBytes (bumpIndex freeListLen freeListHead root leafCount : Z)
  : list byte :=
  le_split 4 bumpIndex ++ repeat Byte.x00 4
  ++ le_split 4 freeListLen ++ repeat Byte.x00 4
  ++ le_split 4 freeListHead ++ le_split 4 root
  ++ le_split 4 leafCount ++ repeat Byte.x00 4.

(** The 64 bytes of a leaf node with an all-zero owner. *)
Definition leafBytes (ownerSlot key quantity : Z) : list byte :=
  le_split 4 2 ++ le_split 1 ownerSlot ++ repeat Byte.x00 3
  ++ le_split 16 key ++ repeat Byte.x00 32 ++ le_split 8 quantity.

(** Two slabs with room for two nodes: an empty one, and one with a single
    resting order (price 100, size 2) and one unused node. *)
Definition emptySlab : list byte :=
  headerBytes 0 0 0 0 0 ++ repeat Byte.x00 128.

Definition oneLeafSlab : list byte :=
  headerBytes 1 0 0 0 1
  ++ leafBytes 0 (Z.lor (Z.shiftl 100 64) 0) 2 ++ repeat Byte.x00 64.

End SlabLayout.

(** ** Account flags ([accountFlagsLayout]): seven named booleans. *)

Module AccountFlags.

Record t := {
  initialized : bool;
  market : bool;
  openOrders : bool;
  requestQueue : bool;
  eventQueue : bool;
  bids : bool;
  asks : bool
}.

End AccountFlags.

(** ** [divideBnToNumber(numerator, denominator)] ([src/market.ts]) *)

Definition divideBnToNumber (numerator denominator : Z) : option Number.t :=
  q ← BN.div numerator denominator;
  quotient ← BN.toNumber q;
  rem ← BN.umod numerator denominator;
  let gcd := BN.gcd rem denominator in
  a ← BN.div rem gcd;
  a' ← BN.toNumber a;
  b ← BN.div denominator gcd;
  b' ← BN.toNumber b;
  Some (Number.add quotient (Number.div a' b')).

(** [getPriceFromKey(key)]. *)
Definition getPriceFromKey (key : Z) : Z := BN.ushrn key 64.

(** ** class [Market] ([src/market.ts]) *)

Module Market.

(** The fields of a decoded [MARKET_STATE_LAYOUT] record that the
    constructor and the lot conversions read. *)
Record decoded_t := {
  accountFlags : AccountFlags.t;
  baseLotSize : Z;
  quoteLotSize : Z
}.

Record t := {
  _decoded : decoded_t;
  _baseSplTokenDecimals : Z;
  _quoteSplTokenDecimals : Z
}.

(** [new Market(decoded, baseMintDecimals, quoteMintDecimals)]. *)
Definition new (decoded : decoded_t) (baseMintDecimals quoteMintDecimals : Z)
  : option t :=
  if negb (AccountFlags.initialized (accountFlags decoded))
     || negb (AccountFlags.market (accountFlags decoded))
  then None
  else Some {| _decoded := decoded;
               _baseSplTokenDecimals := baseMintDecimals;
               _quoteSplTokenDecimals := quoteMintDecimals |}.

Definition _baseSplTokenMultiplier (m : t) : Z :=
  BN.pow 10 (_baseSplTokenDecimals m).

Definition _quoteSplTokenMultiplier (m : t) : Z :=
  BN.pow 10 (_quoteSplTokenDecimals m).

Definition priceLotsToNumber (m : t) (price : Z) : option Number.t :=
  divideBnToNumber
    (BN.mul (BN.mul price (quoteLotSize (_decoded m))) (_baseSplTokenMultiplier m))
    (BN.mul (baseLotSize (_decoded m)) (_quoteSplTokenMultiplier m)).

Definition priceNumberToLots (m : t) (price : Number.t) : option Z :=
  baseLot ← BN.toNumber (baseLotSize (_decoded m));
  quoteLot ← BN.toNumber (quoteLotSize (_decoded m));
  BN.ofNumber
    (Math.round
       (Number.div
          (Number.mul (Number.mul price (Math.pow10 (_quoteSplTokenDecimals m)))
                      baseLot)
          (Number.mul (Math.pow10 (_baseSplTokenDecimals m)) quoteLot))).

Definition baseSizeLotsToNumber (m : t) (size : Z) : option Number.t :=
  divideBnToNumber
    (BN.mul size (baseLotSize (_decoded m)))
    (_baseSplTokenMultiplier m).

Definition baseSizeNumberToLots (m : t) (size : Number.t) : option Z :=
  native ← BN.ofNumber
             (Math.round (Number.mul size (Math.pow10 (_baseSplTokenDecimals m))));
  (* rounds down to the nearest lot size *)
  BN.div native (baseLotSize (_decoded m)).

Definition quoteSizeLotsToNumber (m : t) (size : Z) : option Number.t :=
  divideBnToNumber
    (BN.mul size (quoteLotSize (_decoded m)))
    (_quoteSplTokenMultiplier m).

Definition quoteSizeNumberToLots (m : t) (size : Number.t) : option Z :=
  native ← BN.ofNumber
             (Math.round (Number.mul size (Math.pow10 (_quoteSplTokenDecimals m))));
  (* rounds down to the nearest lot size *)
  BN.div native (quoteLotSize (_decoded m)).

End Market.

(** A market account with the given lot sizes and decimals. *)
Definition mkMarket (baseLot quoteLot baseDecimals quoteDecimals : Z) : Market.t :=
  {| Market._decoded :=
       {| Market.accountFlags :=
            {| AccountFlags.initialized := true; AccountFlags.market := true;
               AccountFlags.openOrders := false; AccountFlags.requestQueue := false;
               AccountFlags.eventQueue := false; AccountFlags.bids := false;
               AccountFlags.asks := false |};
          Market.baseLotSize := baseLot; Market.quoteLotSize := quoteLot |};
     Market._baseSplTokenDecimals := baseDecimals;
     Market._quoteSplTokenDecimals := quoteDecimals |}.

(** ** class [Slab] *)

Module Slab.

(** A decoded node of [SLAB_NODE_LAYOUT]; [other] is a node whose tag is
    none of the five registered variants.  Node indices are [nat]. *)
Inductive node :=
| uninitialized
| innerNode (prefixLen : Z) (key : Z) (children : nat * nat)
| leafNode (ownerSlot : Z) (key : Z) (owner : list byte) (quantity : Z)
| freeNode (next : nat)
| lastFreeNode
| other (tag : Z) (content : list byte).

Record header_t := {
  bumpIndex : nat;
  freeListLen : nat;
  freeListHead : nat;
  root : nat;
  leafCount : nat
}.

Record t := { header : header_t; nodes : list node }.

(** What the consumer of the generator [items] observes: leaves are
    handed over one at a time, as handles (indices) into [nodes]; the
    generator ends normally or throws. *)
Inductive items_t :=
| done
| yield (handle : nat) (rest : items_t)
| CorruptTree.

(** Modelled from the spec: [slab.ts] (class [Slab], its traversal
    [items]) is not among the sources.  The spec has a depth-first walk
    from [root] that visits the 0-branch before the 1-branch of an inner
    node when ascending and the reverse when descending, that fails
    (CorruptTree) on revisiting a node, on an index outside the node
    array and on more leaves than [leafCount], and that yields nothing
    when [leafCount] is 0.  [stack] holds the indices still to visit,
    [visited] the indices seen, [budget] the leaves still allowed.  Every
    step visits a new index inside the array, so [length nodes] steps
    are all there can be. *)
Fixpoint walk (fuel : nat) (nodes : list node) (descending : bool)
    (stack visited : list nat) (budget : nat) : items_t :=
  match stack with
  | [] => done
  | index :: stack' =>
      match fuel with
      | O => CorruptTree
      | S fuel' =>
          if existsb (Nat.eqb index) visited then CorruptTree
          else
            match nodes !! index with
            | None => CorruptTree
            | Some (leafNode _ _ _ _) =>
                match budget with
                | O => CorruptTree
                | S budget' =>
                    yield index
                      (walk fuel' nodes descending stack' (index :: visited) budget')
                end
            | Some (innerNode _ _ (c0, c1)) =>
                walk fuel' nodes descending
                  ((if descending then [c1; c0] else [c0; c1]) ++ stack')
                  (index :: visited) budget
            | Some _ =>
                walk fuel' nodes descending stack' (index :: visited) budget
            end
      end
  end.

(** Modelled from the spec: [items(descending)], see [walk]. *)
Definition items (s : t) (descending : bool) : items_t :=
  if (leafCount (header s) =? 0)%nat then done
  else walk (length (nodes s)) (nodes s) descending
            [root (header s)] [] (leafCount (header s)).

(** A traversal that yields the handles [hs] and ends normally. *)
Fixpoint yields (hs : list nat) : items_t :=
  match hs with
  | [] => done
  | h :: hs' => yield h (yields hs')
  end.

(** [(priceLots, sizeLots)] of the leaf behind a handle. *)
Definition lots (nodes : list node) (h : nat) : Z * Z :=
  match nodes !! h with
  | Some (leafNode _ key _ quantity) => (getPriceFromKey key, quantity)
  | _ => (0, 0)
  end.

Definition isLeaf (nodes : list node) (h : nat) : Prop :=
  exists ownerSlot key owner quantity,
    nodes !! h = Some (leafNode ownerSlot key owner quantity).

End Slab.

(** ** class [Orderbook] ([src/market.ts]) *)

(** One row of [getL2]: [[price, size, priceLots, sizeLots]]. *)
Definition L2Level : Type := Number.t * Number.t * Z * Z.

Module Orderbook.

Record t := { market : Market.t; isBids : bool; slab : Slab.t }.

(** [new Orderbook(market, accountFlags, slab)]. *)
Definition new (market : Market.t) (accountFlags : AccountFlags.t) (slab : Slab.t)
  : option t :=
  if negb (AccountFlags.initialized accountFlags)
     || negb (xorb (AccountFlags.bids accountFlags) (AccountFlags.asks accountFlags))
  then None
  else Some {| market := market;
               isBids := AccountFlags.bids accountFlags;
               slab := slab |}.

(** [Orderbook.decode(market, buffer)], over the decoder of
    [ORDERBOOK_LAYOUT]. *)
Definition decode
    (ORDERBOOK_LAYOUT_decode : list byte -> option (AccountFlags.t * Slab.t))
    (market : Market.t) (buffer : list byte) : option t :=
  '(accountFlags, slab) ← ORDERBOOK_LAYOUT_decode buffer;
  new market accountFlags slab.

(** The [quantity] of a leaf is a [BN] object that [getL2] puts into
    [levels] as it is and then updates in place with [iadd]: an entry of
    [levels] is the price and the handle of the leaf that owns the
    quantity object, and the node array is the store. *)
Definition quantityOf (nodes : list Slab.node) (h : nat) : Z :=
  snd (Slab.lots nodes h).

(** [quantity_r.iadd(q)]. *)
Definition iadd (nodes : list Slab.node) (r : nat) (q : Z) : list Slab.node :=
  match nodes !! r with
  | Some (Slab.leafNode ownerSlot key owner quantity) =>
      <[r := Slab.leafNode ownerSlot key owner (quantity + q)]> nodes
  | _ => nodes
  end.

(** The [for ... of this.slab.items(descending)] loop of [getL2]. *)
Fixpoint getL2_loop (depth : Z) (it : Slab.items_t) (nodes : list Slab.node)
    (levels : list (Z * nat)) : option (list Slab.node * list (Z * nat)) :=
  match it with
  | Slab.done => Some (nodes, levels)
  | Slab.CorruptTree => None
  | Slab.yield h rest =>
      match nodes !! h with
      | Some (Slab.leafNode _ key _ quantity) =>
          let price := getPriceFromKey key in
          match last levels with
          | Some (p, r) =>
              if BN.eq p price
              then getL2_loop depth rest (iadd nodes r quantity) levels
              else if Z.of_nat (length levels) =? depth
              then Some (nodes, levels)
              else getL2_loop depth rest nodes (levels ++ [(price, h)])
          | None =>
              if Z.of_nat (length levels) =? depth
              then Some (nodes, levels)
              else getL2_loop depth rest nodes (levels ++ [(price, h)])
          end
      | _ => None
      end
  end.

(** [levels.map(([priceLots, sizeLots]) => [...])]. *)
Definition toL2 (m : Market.t) (priceLots sizeLots : Z) : option L2Level :=
  price ← Market.priceLotsToNumber m priceLots;
  size ← Market.baseSizeLotsToNumber m sizeLots;
  Some (price, size, priceLots, sizeLots).

(** [getL2(depth)]: the rows, and the order book with the quantities as
    the call leaves them. *)
Definition getL2 (ob : t) (depth : Z) : option (list L2Level * t) :=
  let descending := isBids ob in
  '(nodes', levels) ←
    getL2_loop depth (Slab.items (slab ob) descending) (Slab.nodes (slab ob)) [];
  result ← mapM (λ '(priceLots, r), toL2 (market ob) priceLots (quantityOf nodes' r))
                levels;
  Some (result,
        {| market := market ob; isBids := isBids ob;
           slab := {| Slab.header := Slab.header (slab ob); Slab.nodes := nodes' |} |}).

End Orderbook.

(** ** class [Orderbook] of [src/market.js] *)

Module MarketJs.

(** [a.equals(b)] on [BN] objects: bn.js has [eq], [eqn] and [cmp] and no
    method [equals]; the call throws a TypeError. *)
Definition BN_equals (a b : Z) : option bool := None.

(** [this.market.baseLotSize]: class [Market] has no member of that name
    (the lot size is [this._decoded.baseLotSize]); the read gives
    [undefined]. *)
Definition market_baseLotSize (m : Market.t) : option Z := None.

(** [a.mul(num)] where [num] may be [undefined]: reading [num.length]
    throws a TypeError. *)
Definition BN_mul (a : Z) (num : option Z) : option Z :=
  b ← num; Some (BN.mul a b).

Fixpoint getL2_loop (depth : Z) (it : Slab.items_t) (nodes : list Slab.node)
    (levels : list (Z * nat)) : option (list Slab.node * list (Z * nat)) :=
  match it with
  | Slab.done => Some (nodes, levels)
  | Slab.CorruptTree => None
  | Slab.yield h rest =>
      match nodes !! h with
      | Some (Slab.leafNode _ key _ quantity) =>
          let price := getPriceFromKey key in
          match last levels with
          | Some (p, r) =>
              same ← BN_equals p price;
              if same : bool
              then getL2_loop depth rest (Orderbook.iadd nodes r quantity) levels
              else if Z.of_nat (length levels) =? depth
              then Some (nodes, levels)
              else getL2_loop depth rest nodes (levels ++ [(price, h)])
          | None =>
              if Z.of_nat (length levels) =? depth
              then Some (nodes, levels)
              else getL2_loop depth rest nodes (levels ++ [(price, h)])
          end
      | _ => None
      end
  end.

Definition toL2 (m : Market.t) (priceLots sizeLots : Z) : option L2Level :=
  price ← Market.priceLotsToNumber m priceLots;
  scaled ← BN_mul sizeLots (market_baseLotSize m);
  size ← Market.baseSizeLotsToNumber m scaled;
  Some (price, size, priceLots, sizeLots).

Definition getL2 (ob : Orderbook.t) (depth : Z) : option (list L2Level * Orderbook.t) :=
  let descending := Orderbook.isBids ob in
  '(nodes', levels) ←
    getL2_loop depth (Slab.items (Orderbook.slab ob) descending)
               (Slab.nodes (Orderbook.slab ob)) [];
  result ← mapM (λ '(priceLots, r),
                   toL2 (Orderbook.market ob) priceLots (Orderbook.quantityOf nodes' r))
                levels;
  Some (result,
        {| Orderbook.market := Orderbook.market ob;
           Orderbook.isBids := Orderbook.isBids ob;
           Orderbook.slab := {| Slab.header := Slab.header (Orderbook.slab ob);
                                Slab.nodes := nodes' |} |}).

End MarketJs.

(** ** Price levels: what [getL2] is to compute *)

(** Merging runs of consecutive equal prices: [(p, q)] is the run being
    built; it grows while the next leaf has the same price. *)
Fixpoint runs_from (p q : Z) (ls : list (Z * Z)) : list (Z * Z) :=
  match ls with
  | [] => [(p, q)]
  | (p', q') :: rest =>
      if p' =? p then runs_from p (q + q') rest
      else (p, q) :: runs_from p' q' rest
  end.

Definition priceLevels (ls : list (Z * Z)) : list (Z * Z) :=
  match ls with
  | [] => []
  | (p, q) :: rest => runs_from p q rest
  end.

(** ** Sample order books *)

Definition key_of (price seq : Z) : Z := Z.lor (Z.shiftl price 64) seq.

Definition sampleOwner : list byte := repeat Byte.x00 32.

(** Two leaves at price 100 (sizes 2 and 3) under one inner node. *)
Definition slab_100_100 : Slab.t :=
  {| Slab.header := {| Slab.bumpIndex := 3; Slab.freeListLen := 0;
                       Slab.freeListHead := 0; Slab.root := 0; Slab.leafCount := 2 |};
     Slab.nodes := [ Slab.innerNode 127 (key_of 100 0) (1%nat, 2%nat);
                     Slab.leafNode 0 (key_of 100 0) sampleOwner 2;
                     Slab.leafNode 1 (key_of 100 1) sampleOwner 3 ] |}.

(** Leaves at prices 3, 5 and 5: the keys of the spec's ordering example. *)
Definition slab_3_5_5 : Slab.t :=
  {| Slab.header := {| Slab.bumpIndex := 5; Slab.freeListLen := 0;
                       Slab.freeListHead := 0; Slab.root := 0; Slab.leafCount := 3 |};
     Slab.nodes := [ Slab.innerNode 61 (key_of 3 1) (1%nat, 2%nat);
                     Slab.leafNode 0 (key_of 3 1) sampleOwner 7;
                     Slab.innerNode 126 (key_of 5 1) (3%nat, 4%nat);
                     Slab.leafNode 1 (key_of 5 1) sampleOwner 2;
                     Slab.leafNode 2 (key_of 5 2) sampleOwner 3 ] |}.

(** A single leaf at price 100, size 2. *)
Definition slab_100 : Slab.t :=
  {| Slab.header := {| Slab.bumpIndex := 1; Slab.freeListLen := 0;
                       Slab.freeListHead := 0; Slab.root := 0; Slab.leafCount := 1 |};
     Slab.nodes := [ Slab.leafNode 0 (key_of 100 0) sampleOwner 2 ] |}.

(** An empty slab: no leaves, no nodes in use. *)
Definition slab_empty : Slab.t :=
  {| Slab.header := {| Slab.bumpIndex := 0; Slab.freeListLen := 0;
                       Slab.freeListHead := 0; Slab.root := 0; Slab.leafCount := 0 |};
     Slab.nodes := [] |}.

Definition book (isBids : bool) (s : Slab.t) : Orderbook.t :=
  {| Orderbook.market := mkMarket 1 1 0 0; Orderbook.isBids := isBids;
     Orderbook.slab := s |}.

(** ** The borsh layouts of the pool package *)

Module Borsh.

(** A layout of values of type [A]: [encode] gives the bytes written (or
    throws), [decode] reads a value from the front of the bytes at the
    offset and gives what follows it. *)
Record Layout (A : Type) := mkLayout {
  encode : A -> option (list byte);
  decode : list byte -> option (A * list byte)
}.

Arguments mkLayout {A} _ _.
Arguments encode {A} _ _.
Arguments decode {A} _ _.

(** An unsigned little-endian integer of [span] bytes, as buffer-layout's
    [UInt]: a value outside the range and a read past the end throw. *)
Definition uint (span : nat) : Layout Z :=
  mkLayout
    (fun v =>
       if (0 <=? v) && (v <? 2 ^ (8 * Z.of_nat span))
       then Some (le_split span v) else None)
    (fun bs =>
       if (span <=? length bs)%nat
       then Some (le_combine (firstn span bs), skipn span bs) else None).

(** Modelled from the spec: [./borsh] ([i64], [u64], [vec], [rustEnum],
    [tagged]) is not among the sources.  The spec has the fixed-width
    integers little-endian, the signed one in two's complement: decode
    interprets [span] consecutive bytes and fails if fewer remain, encode
    writes them back, the low [span] bytes of the value. *)
Definition unsigned (span : nat) : Layout Z :=
  mkLayout
    (fun v => Some (le_split span (v mod 2 ^ (8 * Z.of_nat span))))
    (decode (uint span)).

Definition int (span : nat) : Layout Z :=
  mkLayout
    (fun v => Some (le_split span (v mod 2 ^ (8 * Z.of_nat span))))
    (fun bs =>
       '(u, rest) ← decode (uint span) bs;
       Some (if u <? 2 ^ (8 * Z.of_nat span - 1) then u
             else u - 2 ^ (8 * Z.of_nat span), rest)).

(** buffer-layout's [u8] and [u16]. *)
Definition u8 : Layout Z := uint 1.
Definition u16 : Layout Z := uint 2.

(** Modelled from the spec: [u64] and [i64] of [./borsh], 64-bit integers
    little-endian, [i64] in two's complement. *)
Definition u64 : Layout Z := unsigned 8.
Definition i64 : Layout Z := int 8.

(** Two fields of a [struct], one after the other. *)
Definition pair {A B : Type} (la : Layout A) (lb : Layout B) : Layout (A * B) :=
  mkLayout
    (fun '(a, b) => x ← encode la a; y ← encode lb b; Some (x ++ y))
    (fun bs =>
       '(a, r1) ← decode la bs;
       '(b, r2) ← decode lb r1;
       Some ((a, b), r2)).

(** A layout seen through a change of representation. *)
Definition imap {A B : Type} (f : A -> B) (g : B -> A) (l : Layout A) : Layout B :=
  mkLayout
    (fun b => encode l (g b))
    (fun bs => '(a, rest) ← decode l bs; Some (f a, rest)).

Fixpoint encodeAll {A : Type} (el : Layout A) (vs : list A) : option (list byte) :=
  match vs with
  | [] => Some []
  | v :: vs' => x ← encode el v; y ← encodeAll el vs'; Some (x ++ y)
  end.

Fixpoint decodeN {A : Type} (el : Layout A) (n : nat) (bs : list byte)
  : option (list A * list byte) :=
  match n with
  | O => Some ([], bs)
  | S n' =>
      '(v, r1) ← decode el bs;
      '(vs, r2) ← decodeN el n' r1;
      Some (v :: vs, r2)
  end.

(** Modelled from the spec: a length-prefixed vector, a length field of
    [lengthSpan] bytes (the spec leaves the width to the call site)
    followed by that many elements; decode fails if the buffer ends before
    the declared count is satisfied. *)
Definition vec {A : Type} (lengthSpan : nat) (el : Layout A) : Layout (list A) :=
  mkLayout
    (fun vs =>
       n ← encode (uint lengthSpan) (Z.of_nat (length vs));
       body ← encodeAll el vs;
       Some (n ++ body))
    (fun bs =>
       '(n, rest) ← decode (uint lengthSpan) bs;
       decodeN el (Z.to_nat n) rest).

Inductive Enum3 (A B C : Type) :=
| variant0 (a : A)
| variant1 (b : B)
| variant2 (c : C).

Arguments variant0 {A B C} _.
Arguments variant1 {A B C} _.
Arguments variant2 {A B C} _.

(** Modelled from the spec: a tagged union of three variants, a 1-byte
    discriminant assigned by declaration order, then the payload of that
    variant; decode fails on a discriminant that is not a variant. *)
Definition rustEnum {A B C : Type} (la : Layout A) (lb : Layout B) (lc : Layout C)
  : Layout (Enum3 A B C) :=
  mkLayout
    (fun v =>
       match v with
       | variant0 a => d ← encode u8 0; x ← encode la a; Some (d ++ x)
       | variant1 b => d ← encode u8 1; x ← encode lb b; Some (d ++ x)
       | variant2 c => d ← encode u8 2; x ← encode lc c; Some (d ++ x)
       end)
    (fun bs =>
       '(d, rest) ← decode u8 bs;
       if d =? 0 then '(a, r) ← decode la rest; Some (variant0 a, r)
       else if d =? 1 then '(b, r) ← decode lb rest; Some (variant1 b, r)
       else if d =? 2 then '(c, r) ← decode lc rest; Some (variant2 c, r)
       else None).

(** Modelled from the spec: a tagged record, an 8-byte little-endian magic
    before the payload; decode fails, without decoding the payload, if the
    magic is not the expected one. *)
Definition tagged {A : Type} (tag : Z) (l : Layout A) : Layout A :=
  mkLayout
    (fun v => t ← encode u64 tag; x ← encode l v; Some (t ++ x))
    (fun bs =>
       '(t, rest) ← decode u64 bs;
       if t =? tag then decode l rest else None).

End Borsh.

(** ** The pool schema ([packages/pool/src/schema.ts]) *)

Module Pool.

Record InitializePoolRequest := {
  vaultSignerNonce : Z;
  assetsLength : Z;
  customStateLength : Z
}.

Record Basket := { quantities : list Z }.

Inductive PoolAction :=
| create (amount : Z)
| redeem (amount : Z)
| swap (basket : Basket).

Inductive PoolRequest :=
| initialize (request : InitializePoolRequest)
| getBasket (action : PoolAction)
| transact (action : PoolAction).

Definition POOL_STATE_TAG : Z := 0x16a7874c7fb2301b.

Definition POOL_REQUEST_TAG : Z := 0x220a6cbdcd1cc4cf.

Section Layouts.

(** The width of the length field of [vec]. *)
Variable lengthSpan : nat.

Definition Basket_layout : Borsh.Layout Basket :=
  Borsh.imap Build_Basket quantities (Borsh.vec lengthSpan Borsh.i64).

Definition PoolAction_layout : Borsh.Layout PoolAction :=
  Borsh.imap
    (fun v => match v with
              | Borsh.variant0 a => create a
              | Borsh.variant1 a => redeem a
              | Borsh.variant2 b => swap b
              end)
    (fun a => match a with
              | create a => Borsh.variant0 a
              | redeem a => Borsh.variant1 a
              | swap b => Borsh.variant2 b
              end)
    (Borsh.rustEnum Borsh.u64 Borsh.u64 Basket_layout).

Definition InitializePoolRequest_layout : Borsh.Layout InitializePoolRequest :=
  Borsh.imap
    (fun '(n, (a, c)) =>
       {| vaultSignerNonce := n; assetsLength := a; customStateLength := c |})
    (fun r => (vaultSignerNonce r, (assetsLength r, customStateLength r)))
    (Borsh.pair Borsh.u8 (Borsh.pair Borsh.u8 Borsh.u16)).

Definition PoolRequest_layout : Borsh.Layout PoolRequest :=
  Borsh.tagged POOL_REQUEST_TAG
    (Borsh.imap
       (fun v => match v with
                 | Borsh.variant0 r => initialize r
                 | Borsh.variant1 a => getBasket a
                 | Borsh.variant2 a => transact a
                 end)
       (fun r => match r with
                 | initialize r => Borsh.variant0 r
                 | getBasket a => Borsh.variant1 a
                 | transact a => Borsh.variant2 a
                 end)
       (Borsh.rustEnum InitializePoolRequest_layout PoolAction_layout PoolAction_layout)).

(** [encodePoolRequest(poolRequest)]: the request is encoded into a buffer
    of 1000 bytes, a write past its end throws. *)
Definition encodePoolRequest (poolRequest : PoolRequest) : option (list byte) :=
  bytes ← Borsh.encode PoolRequest_layout poolRequest;
  if (length bytes <=? 1000)%nat then Some bytes else None.

(** [decodePoolRequest(data)]. *)
Definition decodePoolRequest (data : list byte) : option PoolRequest :=
  fst <$> Borsh.decode PoolRequest_layout data.

End Layouts.

(** [tag.toBuffer('le')] of an 8-byte tag. *)
Definition toBuffer_le (tag : Z) : list byte := le_split 8 tag.

(** [a.equals(b)] on buffers. *)
Fixpoint Buffer_equals (a b : list byte) : bool :=
  match a, b with
  | [], [] => true
  | x :: a', y :: b' => Byte.eqb x y && Buffer_equals a' b'
  | _, _ => false
  end.

(** [isPoolState(data)]. *)
Definition isPoolState (data : list byte) : bool :=
  Buffer_equals (BufferLayout.slice data 0 8) (toBuffer_le POOL_REQUEST_TAG).

(** The test against [POOL_STATE_TAG], the magic of the [PoolState]
    layout. *)
Definition hasPoolStateTag (data : list byte) : bool :=
  Buffer_equals (BufferLayout.slice data 0 8) (toBuffer_le POOL_STATE_TAG).

(** The values a [PoolRequest] layout can write. *)
Definition validBasket (lengthSpan : nat) (b : Basket) : Prop :=
  Z.of_nat (length (quantities b)) < 2 ^ (8 * Z.of_nat lengthSpan) /\
  Forall (fun q => - 2 ^ 63 <= q < 2 ^ 63) (quantities b).

Definition validAction (lengthSpan : nat) (a : PoolAction) : Prop :=
  match a with
  | create v | redeem v => 0 <= v < 2 ^ 64
  | swap b => validBasket lengthSpan b
  end.

Definition validInitialize (r : InitializePoolRequest) : Prop :=
  0 <= vaultSignerNonce r < 2 ^ 8 /\
  0 <= assetsLength r < 2 ^ 8 /\
  0 <= customStateLength r < 2 ^ 16.

Definition validRequest (lengthSpan : nat) (r : PoolRequest) : Prop :=
  match r with
  | initialize i => validInitialize i
  | getBasket a | transact a => validAction lengthSpan a
  end.

End Pool.

(** ** The tree in a slab

    The invariants the spec states of a slab, for the statements about the
    order of the traversal: the nodes reachable from [root] form a tree of
    inner nodes and leaves ([represents]), no node is reachable by more
    than one path ([NoDup] of [indices]), the keys below the 0-branch of an
    inner node are smaller than the keys below its 1-branch ([ordered]),
    and [leafCount] is the number of leaves. *)

(** A tree of leaves and inner nodes, by their indices in the node array. *)
Inductive tree :=
| TLeaf (index : nat)
| TInner (index : nat) (branch0 branch1 : tree).

Definition troot (t : tree) : nat :=
  match t with
  | TLeaf h => h
  | TInner h _ _ => h
  end.

(** The indices of all nodes of the tree. *)
Fixpoint indices (t : tree) : list nat :=
  match t with
  | TLeaf h => [h]
  | TInner h t0 t1 => h :: indices t0 ++ indices t1
  end.

(** The leaves from the 0-branch to the 1-branch, or the reverse. *)
Fixpoint inorder (descending : bool) (t : tree) : list nat :=
  match t with
  | TLeaf h => [h]
  | TInner _ t0 t1 =>
      if descending then inorder descending t1 ++ inorder descending t0
      else inorder descending t0 ++ inorder descending t1
  end.

Fixpoint represents (nodes : list Slab.node) (t : tree) : Prop :=
  match t with
  | TLeaf h => Slab.isLeaf nodes h
  | TInner h t0 t1 =>
      (exists prefixLen key,
          nodes !! h = Some (Slab.innerNode prefixLen key (troot t0, troot t1))) /\
      represents nodes t0 /\ represents nodes t1
  end.

Definition keyOf (nodes : list Slab.node) (h : nat) : Z :=
  match nodes !! h with
  | Some (Slab.leafNode _ key _ _) => key
  | _ => 0
  end.

Fixpoint ordered (nodes : list Slab.node) (t : tree) : Prop :=
  match t with
  | TLeaf _ => True
  | TInner _ t0 t1 =>
      (forall a b, In a (inorder false t0) -> In b (inorder false t1) ->
                   keyOf nodes a < keyOf nodes b) /\
      ordered nodes t0 /\ ordered nodes t1
  end.

Definition wellFormed (s : Slab.t) (t : tree) : Prop :=
  troot t = Slab.root (Slab.header s) /\
  represents (Slab.nodes s) t /\
  NoDup (indices t) /\
  ordered (Slab.nodes s) t /\
  Slab.leafCount (Slab.header s) = length (inorder false t).

(** The indices [walk] has seen once it is through the tree. *)
Fixpoint visitedAfter (descending : bool) (t : tree) (visited : list nat) : list nat :=
  match t with
  | TLeaf h => h :: visited
  | TInner h t0 t1 =>
      if descending
      then visitedAfter descending t0 (visitedAfter descending t1 (h :: visited))
      else visitedAfter descending t1 (visitedAfter descending t0 (h :: visited))
  end.

(** The handles [hs], then the traversal [it]. *)
Definition prepend (hs : list nat) (it : Slab.items_t) : Slab.items_t :=
  fold_right Slab.yield it hs.

(** The tree of [slab_3_5_5]. *)
Definition tree_3_5_5 : tree :=
  TInner 0 (TLeaf 1) (TInner 2 (TLeaf 3) (TLeaf 4)).

(** What [oneLeafSlab] decodes to. *)
Definition oneLeafSlab_decoded : BufferLayout.Value :=
  BufferLayout.VObject
    [("header"%string,
      BufferLayout.VObject
        [("bumpIndex"%string, BufferLayout.VNumber 1);
         ("freeListLen"%string, BufferLayout.VNumber 0);
         ("freeListHead"%string, BufferLayout.VNumber 0);
         ("root"%string, BufferLayout.VNumber 0);
         ("leafCount"%string, BufferLayout.VNumber 1)]);
     ("nodes"%string,
      BufferLayout.VArray
        [BufferLayout.VObject
           [("leafNode"%string,
             BufferLayout.VObject
               [("ownerSlot"%string, BufferLayout.VNumber 0);
                ("key"%string, BufferLayout.VBN (Z.shiftl 100 64));
                ("owner"%string, BufferLayout.VBuffer (repeat Byte.x00 32));
                ("quantity"%string, BufferLayout.VBN 2)])]])].

(** ** Definitions used in the statements *)

(** The three integers that [divideBnToNumber] converts to numbers. *)
Definition reducedParts (n d : Z) : Z * Z * Z :=
  let r := n mod d in
  let g := Z.gcd r d in
  (n / d, r / g, d / g).

(** The integer [Math.round] gives for a finite number: ties upwards. *)
Definition rounded (x : Number.t) : Z := Qfloor (Number.value x + (1 # 2)).

(** The flags of a bid-side order-book account. *)
Definition bidsFlags : AccountFlags.t :=
  {| AccountFlags.initialized := true; AccountFlags.market := false;
     AccountFlags.openOrders := false; AccountFlags.requestQueue := false;
     AccountFlags.eventQueue := false; AccountFlags.bids := true;
     AccountFlags.asks := false |}.

(** The handles a traversal hands over before it ends or throws. *)
Fixpoint handles (it : Slab.items_t) : list nat :=
  match it with
  | Slab.yield h rest => h :: handles rest
  | _ => []
  end.

(** The levels as values: each size read from the store. *)
Definition readLevels (nodes : list Slab.node) (levels : list (Z * nat)) : list (Z * Z) :=
  map (fun '(p, r) => (p, Orderbook.quantityOf nodes r)) levels.

(** Neighbouring levels have different prices. *)
Fixpoint distinctNeighbours (l : list (Z * Z)) : Prop :=
  match l with
  | a :: tl =>
      match tl with
      | b :: _ => fst a <> fst b
      | [] => True
      end /\ distinctNeighbours tl
  | [] => True
  end.

(** A layout round-trips on the values [valid] admits: they encode, and
    decoding the encoding in front of any bytes gives the value back and
    leaves those bytes. *)
Definition Roundtrips {A : Type} (l : Borsh.Layout A) (valid : A -> Prop) : Prop :=
  forall v, valid v ->
    exists bytes, Borsh.encode l v = Some bytes /\
                  forall rest, Borsh.decode l (bytes ++ rest) = Some (v, rest).

(** [priceLots] and [sizeLots] of a row of [getL2]. *)
Definition rowLots (row : L2Level) : Z * Z := (snd (fst row), snd row).

(** The price levels [getL2(depth)] keeps: all of them when [depth] is
    negative ([levels.length === depth] is then never true), the first
    [depth] otherwise. *)
Definition levelsOf (depth : Z) (ls : list (Z * Z)) : list (Z * Z) :=
  if depth <? 0 then priceLevels ls
  else firstn (Z.to_nat depth) (priceLevels ls).

(** The total size of a list of [(priceLots, sizeLots)]. *)
Definition sumSizes (ls : list (Z * Z)) : Z :=
  fold_right (fun l acc => snd l + acc) 0 ls.

(** Two states of a slot of the node array that differ at most in the
    quantity of a leaf. *)
Definition sameUpToQuantity (a b : option Slab.node) : Prop :=
  match a, b with
  | Some (Slab.leafNode ownerSlot key owner _),
    Some (Slab.leafNode ownerSlot' key' owner' _) =>
      ownerSlot = ownerSlot' /\ key = key' /\ owner = owner'
  | _, _ => a = b
  end.

(** The bytes from its offset that [SLAB_NODE_LAYOUT] reads of a node
    with the given tag. *)
Definition nodeBytesNeeded (tag : Z) : Z :=
  if tag =? 1 then 32 else if tag =? 2 then 64 else if tag =? 3 then 8 else 4.

(** ** The mint layout of [src/market.ts] *)

Module Mint.
Import BufferLayout.
Local Open Scope string_scope.

Definition MINT_LAYOUT : Layout := struct [blob 36; u8 "decimals"; blob 3].

(** [getMintDecimals(connection, mint)], over what
    [connection.getAccountInfo(mint)] resolves to: [null], or an account
    with its [data]. *)
Definition getMintDecimals (accountInfo : option (list byte)) : option Z :=
  data ← accountInfo;
  decoded ← decode MINT_LAYOUT data 0;
  match decoded with
  | VObject members =>
      match member "decimals" members with
      | Some (VNumber decimals) => Some decimals
      | _ => None
      end
  | _ => None
  end.

End Mint.

(** ** The token layouts of the interface ([unnamed/part_000]) *)

Module Tokens.
Import BufferLayout.
Local Open Scope string_scope.

Definition MINT_LAYOUT : Layout := struct [blob 44; u8 "decimals"; blob 37].

(** [parseMintData(data)]: the [decimals] of the object returned. *)
Definition parseMintData (data : list byte) : option Z :=
  decoded ← decode MINT_LAYOUT data 0;
  match decoded with
  | VObject members =>
      match member "decimals" members with
      | Some (VNumber decimals) => Some decimals
      | _ => None
      end
  | _ => None
  end.

End Tokens.

(** ** The pool schema: what is written *)

(** A layout writes [size v] bytes for the value [v]. *)
Definition Encodes {A : Type} (l : Borsh.Layout A) (size : A -> nat) : Prop :=
  forall v bytes, Borsh.encode l v = Some bytes -> length bytes = size v.

(** The bytes of an encoded [PoolAction] and [PoolRequest]: the 8 bytes
    of the tag, one byte for each enum, 4 bytes for an
    [InitializePoolRequest], 8 for an amount, and for a basket the length
    field and 8 bytes for each quantity. *)
Definition actionSize (lengthSpan : nat) (a : Pool.PoolAction) : nat :=
  match a with
  | Pool.create _ | Pool.redeem _ => 9
  | Pool.swap b => 1 + (lengthSpan + 8 * length (Pool.quantities b))
  end.

Definition requestSize (lengthSpan : nat) (r : Pool.PoolRequest) : nat :=
  match r with
  | Pool.initialize _ => 13
  | Pool.getBasket a | Pool.transact a => 9 + actionSize lengthSpan a
  end.

(** [decodePoolState(data)], over the layout of the payload of
    [PoolState]. *)
Definition decodePoolState {A : Type} (payload : Borsh.Layout A) (data : list byte)
  : option A :=
  fst <$> Borsh.decode (Borsh.tagged Pool.POOL_STATE_TAG payload) data.

(** Leaves at prices 3 and 5 (sizes 7 and 2) under one inner node. *)
Definition slab_3_5 : Slab.t :=
  {| Slab.header := {| Slab.bumpIndex := 3; Slab.freeListLen := 0;
                       Slab.freeListHead := 0; Slab.root := 0; Slab.leafCount := 2 |};
     Slab.nodes := [ Slab.innerNode 61 (key_of 3 1) (1%nat, 2%nat);
                     Slab.leafNode 0 (key_of 3 1) sampleOwner 7;
                     Slab.leafNode 1 (key_of 5 1) sampleOwner 2 ] |}.

(** * Theorems *)

(** ** Facts about [bn.js] division *)

Section BNFacts.

Lemma BN_div_nonneg (a b : Z) :
  0 <= a -> 0 < b -> BN.div a b = Some (a / b).
Proof.
  intros Ha Hb. unfold BN.div.
  destruct (Z.eqb_spec b 0) as [->|_]; [lia|].
  now rewrite Z.quot_div_nonneg.
Qed.

Lemma BN_umod_pos (a b : Z) :
  0 < b -> BN.umod a b = Some (a mod b).
Proof.
  intros Hb. unfold BN.umod.
  destruct (Z.eqb_spec b 0) as [->|_]; [lia|].
  now rewrite Z.abs_eq by lia.
Qed.

Lemma BN_toNumber_small (a : Z) :
  0 <= a < 2 ^ 53 -> BN.toNumber a = Some (Number.ofZ a).
Proof.
  intros Ha. unfold BN.toNumber.
  rewrite Z.abs_eq by lia.
  destruct (Z.ltb_spec a (2 ^ 53)); [reflexivity|lia].
Qed.

Lemma BN_toNumber_Some (a : Z) (x : Number.t) :
  BN.toNumber a = Some x -> x = Number.ofZ a /\ Z.abs a < 2 ^ 53.
Proof.
  unfold BN.toNumber. destruct (Z.ltb_spec (Z.abs a) (2 ^ 53)); [|discriminate].
  intros [= <-]. auto.
Qed.

Lemma gcd_rem_pos (n d : Z) : 0 < d -> 0 < Z.gcd (n mod d) d.
Proof.
  intros Hd.
  pose proof (Z.gcd_nonneg (n mod d) d) as Hg.
  destruct (Z.eq_dec (Z.gcd (n mod d) d) 0) as [E|E]; [|lia].
  apply Z.gcd_eq_0_r in E. lia.
Qed.

End BNFacts.

(** ** Numbers: the conversion of an integer is exact up to 53 bits *)

Section NumberFacts.

Lemma digits2_pos_bounds (p : positive) :
  2 ^ (Zpos (digits2_pos p) - 1) <= Zpos p < 2 ^ Zpos (digits2_pos p).
Proof.
  induction p as [p IH|p IH|]; cbn [digits2_pos].
  - rewrite Pos2Z.inj_succ. replace (Z.succ (Zpos (digits2_pos p)) - 1)
      with (Z.succ (Zpos (digits2_pos p) - 1)) by lia.
    rewrite !Z.pow_succ_r by lia. lia.
  - rewrite Pos2Z.inj_succ. replace (Z.succ (Zpos (digits2_pos p)) - 1)
      with (Z.succ (Zpos (digits2_pos p) - 1)) by lia.
    rewrite !Z.pow_succ_r by lia. lia.
  - cbn. lia.
Qed.

Lemma digits2_pos_iter_xO (p d : positive) :
  digits2_pos (Pos.iter xO p d) = (digits2_pos p + d)%positive.
Proof.
  induction d as [|d IH] using Pos.peano_ind.
  - cbn. lia.
  - rewrite Pos.iter_succ. cbn [digits2_pos]. rewrite IH. lia.
Qed.

Lemma Zpos_iter_xO (p d : positive) :
  Zpos (Pos.iter xO p d) = Zpos p * 2 ^ Zpos d.
Proof.
  induction d as [|d IH] using Pos.peano_ind.
  - cbn. lia.
  - rewrite Pos.iter_succ, Pos2Z.inj_xO, IH, Pos2Z.inj_succ, Z.pow_succ_r by lia.
    ring.
Qed.

(** A mantissa of 53 bits within the exponent range is not rounded. *)
Lemma binary_round_aux_exact (s : bool) (m : positive) (e : Z) :
  Zpos (digits2_pos m) = 53 -> -1074 <= e <= 971 ->
  binary_round_aux Number.prec Number.emax s (Zpos m) e loc_Exact = S754_finite s m e.
Proof.
  intros Hd He. unfold binary_round_aux, shr_fexp, fexp, emin, Number.prec, Number.emax.
  cbn [Zdigits2 shr_record_of_loc]. rewrite Hd.
  replace (Z.max (53 + e - 53) (3 - 1024 - 53) - e) with 0 by lia.
  cbn [shr shr_m loc_of_shr_record round_nearest_even Zdigits2 shr_record_of_loc].
  rewrite Hd.
  replace (Z.max (53 + e - 53) (3 - 1024 - 53) - e) with 0 by lia.
  cbn [shr shr_m].
  destruct (Z.leb_spec e (1024 - 53)); [reflexivity | lia].
Qed.

Lemma binary_round_small (s : bool) (p : positive) :
  Zpos p < 2 ^ 53 ->
  exists m e,
    binary_round Number.prec Number.emax s p 0 = S754_finite s m e /\
    -52 <= e <= 0 /\ Zpos m = Zpos p * 2 ^ (- e).
Proof.
  intros Hp. pose proof (digits2_pos_bounds p) as Hb.
  assert (Hd : Zpos (digits2_pos p) <= 53).
  { destruct (Z.le_gt_cases (Zpos (digits2_pos p)) 53) as [H|H]; [exact H|].
    exfalso. assert (2 ^ 53 <= 2 ^ (Zpos (digits2_pos p) - 1))
      by (apply Z.pow_le_mono_r; lia). lia. }
  unfold binary_round, shl_align, fexp, emin, Number.prec, Number.emax.
  replace (Z.max (Zpos (digits2_pos p) + 0 - 53) (3 - 1024 - 53) - 0)
    with (Zpos (digits2_pos p) - 53) by lia.
  replace (Z.max (Zpos (digits2_pos p) + 0 - 53) (3 - 1024 - 53))
    with (Zpos (digits2_pos p) - 53) by lia.
  destruct (Zpos (digits2_pos p) - 53) as [|q|q] eqn:E; [|lia|].
  - exists p, 0. split; [|split; [lia | cbn; lia]].
    apply binary_round_aux_exact; lia.
  - exists (Pos.iter xO p q), (Z.neg q). split; [|split].
    + rewrite <- E. apply binary_round_aux_exact; [|lia].
      rewrite digits2_pos_iter_xO, Pos2Z.inj_add. lia.
    + lia.
    + rewrite Zpos_iter_xO. reflexivity.
Qed.

Lemma Number_ofZ_small (z : Z) :
  z <> 0 -> Z.abs z < 2 ^ 53 ->
  exists m e,
    Number.ofZ z = S754_finite (z <? 0) m e /\
    -52 <= e <= 0 /\ Zpos m = Z.abs z * 2 ^ (- e).
Proof.
  intros Hz Hb. destruct z as [|p|p]; [congruence| |]; cbn in Hb.
  - exact (binary_round_small false p Hb).
  - exact (binary_round_small true p Hb).
Qed.

Lemma Number_ofZ_exact (z : Z) :
  Z.abs z < 2 ^ 53 ->
  Number.isFinite (Number.ofZ z) = true /\
  (Number.value (Number.ofZ z) == inject_Z z)%Q /\
  Number.trunc (Number.ofZ z) = z.
Proof.
  intros Hb. destruct (Z.eq_dec z 0) as [->|Hz].
  { repeat split; reflexivity. }
  destruct (Number_ofZ_small z Hz Hb) as (m & e & E & He & Hm).
  rewrite E. cbn [Number.isFinite Number.value Number.trunc].
  assert (Hs : cond_Zopp (z <? 0) (Z.abs z) = z).
  { unfold cond_Zopp. destruct (Z.ltb_spec z 0); lia. }
  assert (Hpow : 0 < 2 ^ (- e)) by (apply Z.pow_pos_nonneg; lia).
  assert (Hc : cond_Zopp (z <? 0) (Zpos m) = z * 2 ^ (- e)).
  { rewrite Hm. unfold cond_Zopp. destruct (Z.ltb_spec z 0).
    - rewrite Z.abs_neq by lia. ring.
    - rewrite Z.abs_eq by lia. ring. }
  split; [reflexivity|].
  destruct (Z.leb_spec 0 e) as [H0|H0].
  - assert (e = 0) by lia. subst e. cbn in Hm, Hc |- *.
    rewrite Z.mul_1_r in *. split.
    + rewrite Hc. reflexivity.
    + unfold cond_Zopp in *. destruct (z <? 0); lia.
  - split.
    + rewrite Hc. unfold Qeq. cbn [Qnum Qden inject_Z].
      rewrite Pos2Z.inj_pow, Z2Pos.id by lia. ring.
    + rewrite Hm, Z.div_mul by lia. exact Hs.
Qed.

(** What [bn.js] hands over as a number is the integer itself. *)
Lemma BN_toNumber_exact (a : Z) (x : Number.t) :
  BN.toNumber a = Some x ->
  Number.isFinite x = true /\ (Number.value x == inject_Z a)%Q.
Proof.
  intros H. apply BN_toNumber_Some in H. destruct H as [-> Hb].
  destruct (Number_ofZ_exact a Hb) as (H1 & H2 & _). auto.
Qed.

End NumberFacts.

(** ** [divideBnToNumber]: the reduced parts *)

Lemma divideBnToNumber_parts (n d : Z) :
  0 <= n -> 0 < d ->
  divideBnToNumber n d =
    let '(q, a, b) := reducedParts n d in
    quotient ← BN.toNumber q;
    a' ← BN.toNumber a;
    b' ← BN.toNumber b;
    Some (Number.add quotient (Number.div a' b')).
Proof.
  intros Hn Hd. unfold divideBnToNumber, reducedParts.
  pose proof (gcd_rem_pos n d Hd) as Hg.
  pose proof (Z.mod_pos_bound n d Hd) as Hr.
  rewrite BN_div_nonneg by lia. cbn [mbind option_bind].
  destruct (BN.toNumber (n / d)) as [quotient|]; [|reflexivity].
  cbn [mbind option_bind].
  rewrite BN_umod_pos by lia. cbn [mbind option_bind].
  unfold BN.gcd.
  rewrite (BN_div_nonneg (n mod d)) by lia. cbn [mbind option_bind].
  destruct (BN.toNumber (n mod d / _)) as [a'|]; [|reflexivity].
  cbn [mbind option_bind].
  rewrite (BN_div_nonneg d) by lia. reflexivity.
Qed.

Lemma reducedParts_exact (n d : Z) :
  0 < d ->
  let '(q, a, b) := reducedParts n d in
  n = q * d + n mod d /\
  a * d = (n mod d) * b /\
  Z.gcd a b = 1 /\
  0 <= a < b.
Proof.
  intros Hd. unfold reducedParts.
  pose proof (gcd_rem_pos n d Hd) as Hg.
  pose proof (Z.mod_pos_bound n d Hd) as Hr.
  set (r := n mod d) in *. set (g := Z.gcd r d) in *.
  destruct (Z.gcd_divide_l r d) as [r' Hr'].
  destruct (Z.gcd_divide_r r d) as [d' Hd'].
  fold g in Hr', Hd'.
  assert (Ea : r / g = r') by (rewrite Hr' at 1; apply Z.div_mul; lia).
  assert (Eb : d / g = d') by (rewrite Hd' at 1; apply Z.div_mul; lia).
  rewrite Ea, Eb.
  repeat split.
  - subst r. rewrite (Z.div_mod n d) at 1 by lia. lia.
  - transitivity (r' * d' * g); [rewrite Hd' at 1 | rewrite Hr' at 1]; ring.
  - assert (Hgg : Z.gcd (r / g) (d / g) = 1)
      by (apply Z.gcd_div_gcd; [lia | reflexivity]).
    now rewrite Ea, Eb in Hgg.
  - nia.
  - nia.
Qed.

Lemma divideBnToNumber_returns (n d : Z) :
  0 <= n -> 0 < d < 2 ^ 53 -> n / d < 2 ^ 53 ->
  exists v, divideBnToNumber n d = Some v.
Proof.
  intros Hn Hd Hq. rewrite divideBnToNumber_parts by lia.
  pose proof (reducedParts_exact n d (proj1 Hd)) as Hx.
  unfold reducedParts in *.
  set (r := n mod d) in *. set (g := Z.gcd r d) in *.
  destruct Hx as (_ & _ & _ & Hab).
  assert (Hg : 0 < g) by (apply gcd_rem_pos; lia).
  assert (Hdg : d / g <= d).
  { apply Z.div_le_upper_bound; nia. }
  rewrite (BN_toNumber_small (n / d)) by (split; [apply Z.div_pos; lia | lia]).
  rewrite (BN_toNumber_small (r / g)) by lia.
  rewrite (BN_toNumber_small (d / g)) by lia.
  cbn [mbind option_bind]. eauto.
Qed.

(** Adding the zero that [0 / b] is changes nothing. *)
Lemma Number_add_div_0 (q b : Z) :
  Z.abs q < 2 ^ 53 -> b <> 0 -> Z.abs b < 2 ^ 53 ->
  Number.add (Number.ofZ q) (Number.div (Number.ofZ 0) (Number.ofZ b)) = Number.ofZ q.
Proof.
  intros Hq Hb0 Hb.
  destruct (Number_ofZ_small b Hb0 Hb) as (mb & eb & -> & _).
  change (Number.div (Number.ofZ 0) (S754_finite (b <? 0) mb eb))
    with (S754_zero (xorb false (b <? 0))).
  destruct (Z.eq_dec q 0) as [->|Hq0].
  - change (Number.ofZ 0) with (S754_zero false). destruct (b <? 0); reflexivity.
  - destruct (Number_ofZ_small q Hq0 Hq) as (mq & eq & -> & _). reflexivity.
Qed.

(** When the denominator divides the numerator, the number returned is
    the quotient, exactly. *)
Lemma divideBnToNumber_exact (n d : Z) :
  0 <= n -> 0 < d -> n mod d = 0 -> n / d < 2 ^ 53 ->
  divideBnToNumber n d = Some (Number.ofZ (n / d)).
Proof.
  intros Hn Hd Hr Hq. rewrite divideBnToNumber_parts by assumption.
  unfold reducedParts. rewrite Hr. cbn [Z.gcd]. rewrite Z.abs_eq by lia.
  rewrite Z.div_0_l, Z.div_same by lia.
  assert (Hq0 : 0 <= n / d) by (apply Z.div_pos; lia).
  rewrite (BN_toNumber_small (n / d)) by lia.
  rewrite (BN_toNumber_small 0), (BN_toNumber_small 1) by lia.
  cbn [mbind option_bind]. f_equal.
  apply Number_add_div_0; rewrite ?Z.abs_eq by lia; lia.
Qed.

(** ** [Math.round] and [new BN] *)

Lemma rounded_bounds (x : Number.t) :
  (inject_Z (rounded x) - (1 # 2) <= Number.value x
   < inject_Z (rounded x) + (1 # 2))%Q.
Proof.
  unfold rounded.
  pose proof (Qfloor_le (Number.value x + (1 # 2))) as H1.
  pose proof (Qlt_floor (Number.value x + (1 # 2))) as H2.
  rewrite inject_Z_plus in H2.
  change (inject_Z 1) with 1%Q in H2.
  split; lra.
Qed.

Lemma Qfloor_inject_Z_add_half (k : Z) (x : Q) :
  (inject_Z k == x)%Q -> Qfloor (x + (1 # 2)) = k.
Proof.
  intros E.
  pose proof (Qfloor_le (x + (1 # 2))) as H1.
  pose proof (Qlt_floor (x + (1 # 2))) as H2.
  rewrite inject_Z_plus in H2. change (inject_Z 1) with 1%Q in H2.
  set (f := Qfloor (x + (1 # 2))) in *.
  assert (Hlo : (inject_Z f < inject_Z (k + 1))%Q)
    by (rewrite inject_Z_plus; change (inject_Z 1) with 1%Q; lra).
  assert (Hhi : (inject_Z (k - 1) < inject_Z f)%Q).
  { unfold Z.sub. rewrite inject_Z_plus, inject_Z_opp.
    change (inject_Z 1) with 1%Q. lra. }
  rewrite <- Zlt_Qlt in Hlo, Hhi. lia.
Qed.

Lemma cond_Zopp_mul (s : bool) (a b : Z) :
  cond_Zopp s a * b = cond_Zopp s (a * b).
Proof. unfold cond_Zopp. destruct s; ring. Qed.

(** [new BN(Math.round(x))] is the integer nearest to a finite [x], if
    that has at most 53 bits. *)
Lemma BN_ofNumber_round (x : Number.t) :
  Number.isFinite x = true ->
  Z.abs (rounded x) < 2 ^ 53 ->
  BN.ofNumber (Math.round x) = Some (rounded x).
Proof.
  destruct x as [s|s| |s m e]; try discriminate; intros _ Hb.
  - reflexivity.
  - unfold Math.round. destruct (Z.leb_spec 0 e) as [He|He].
    + assert (Er : rounded (S754_finite s m e) = cond_Zopp s (Zpos m * 2 ^ e)).
      { unfold rounded. apply Qfloor_inject_Z_add_half.
        cbn [Number.value]. destruct (Z.leb_spec 0 e); [|lia].
        now rewrite cond_Zopp_mul. }
      rewrite Er in *. cbn [BN.ofNumber Number.trunc].
      destruct (Z.leb_spec 0 e); [|lia].
      destruct (Z.ltb_spec (Z.abs (cond_Zopp s (Zpos m * 2 ^ e))) (2 ^ 53));
        [reflexivity | lia].
    + fold (rounded (S754_finite s m e)).
      destruct (Z.eqb_spec (rounded (S754_finite s m e)) 0) as [E|E].
      * rewrite E. reflexivity.
      * destruct (Number_ofZ_small _ E Hb) as (mz & ez & Ez & _).
        destruct (Number_ofZ_exact _ Hb) as (_ & _ & Et).
        rewrite Ez in *. cbn [BN.ofNumber]. rewrite Et.
        destruct (Z.ltb_spec (Z.abs (rounded (S754_finite s m e))) (2 ^ 53));
          [reflexivity | lia].
Qed.

Lemma Qfloor_div_inject_Z (k L : Z) :
  0 < L -> Qfloor (inject_Z k / inject_Z L) = k / L.
Proof.
  intros HL. destruct L as [|p|p]; try lia.
  unfold Qdiv, Qmult, Qinv, inject_Z. simpl.
  now rewrite Z.mul_1_r.
Qed.

(** ** Size conversions *)

Section SizeToLots.

(** [new BN(Math.round(s * Math.pow(10, e))).div(L)], for either
    currency: [L] is the lot size and [e] the number of decimals. *)
Variables (L e : Z).

Lemma sizeToLots_rounds_then_floors (s : Number.t) :
  let p := Number.mul s (Math.pow10 e) in
  0 < L ->
  Number.isFinite p = true ->
  0 <= rounded p < 2 ^ 53 ->
  exists lots,
    (native ← BN.ofNumber (Math.round p); BN.div native L) = Some lots /\
    (inject_Z (rounded p) - (1 # 2) <= Number.value p
     < inject_Z (rounded p) + (1 # 2))%Q /\
    lots * L <= rounded p < (lots + 1) * L /\
    (forall k, (inject_Z k == Number.value p)%Q ->
               lots = Qfloor (Number.value p / inject_Z L)).
Proof.
  intros p HL Hf Hb.
  exists (rounded p / L). split; [|split; [|split]].
  - rewrite BN_ofNumber_round; [| exact Hf | rewrite Z.abs_eq by lia; lia].
    cbn [mbind option_bind]. apply BN_div_nonneg; lia.
  - apply rounded_bounds.
  - split.
    + rewrite Z.mul_comm. apply Z.mul_div_le. exact HL.
    + rewrite Z.mul_comm. apply Z.mul_succ_div_gt. exact HL.
  - intros k Hk. unfold rounded.
    rewrite (Qfloor_inject_Z_add_half k _ Hk).
    rewrite <- (Qfloor_div_inject_Z k L HL).
    apply Qfloor_comp. now rewrite Hk.
Qed.

End SizeToLots.

(** C3, as the code has it.  [baseSizeNumberToLots(s)] multiplies [s] by
    [10^decimals] in binary64, rounds the product [p] to the nearest
    integer number of native units ([Math.round], ties upwards) and then
    truncates that integer downwards to whole lots: the result is
    [floor(round(p) / L)], it is returned (never rejected) whenever
    [round(p)] is a non-negative integer below [2^53], and it equals
    [floor(p / L)] whenever [p] is itself an integer. *)
Theorem baseSizeNumberToLots_rounds_then_floors (m : Market.t) (s : Number.t) :
  let L := Market.baseLotSize (Market._decoded m) in
  let p := Number.mul s (Math.pow10 (Market._baseSplTokenDecimals m)) in
  0 < L ->
  0 <= Market._baseSplTokenDecimals m <= 22 ->
  Number.isFinite p = true ->
  0 <= rounded p < 2 ^ 53 ->
  exists lots,
    Market.baseSizeNumberToLots m s = Some lots /\
    (inject_Z (rounded p) - (1 # 2) <= Number.value p
     < inject_Z (rounded p) + (1 # 2))%Q /\
    lots * L <= rounded p < (lots + 1) * L /\
    (forall k, (inject_Z k == Number.value p)%Q ->
               lots = Qfloor (Number.value p / inject_Z L)).
Proof.
  intros L p HL _ Hf Hb.
  exact (sizeToLots_rounds_then_floors L (Market._baseSplTokenDecimals m) s HL Hf Hb).
Qed.

(** The size [2.57] with one decimal and lots of 4 native units: the
    product [25.7] (in binary64 a little above it) is rounded to 26 native
    units, of which 6 lots hold 24. *)
Lemma baseSizeNumberToLots_rounds_then_floors_witness :
  let s := Number.literal 257 2 in
  let p := Number.mul s (Math.pow10 1) in
  Market.baseSizeNumberToLots (mkMarket 4 1 1 1) s = Some 6 /\
  rounded p = 26 /\
  ~ (Number.value p == 26)%Q /\
  exists lots,
    Market.baseSizeNumberToLots (mkMarket 4 1 1 1) s = Some lots /\
    (inject_Z (rounded p) - (1 # 2) <= Number.value p
     < inject_Z (rounded p) + (1 # 2))%Q /\
    lots * 4 <= rounded p < (lots + 1) * 4 /\
    (forall k, (inject_Z k == Number.value p)%Q ->
               lots = Qfloor (Number.value p / inject_Z 4)).
Proof.
  intros s p. split; [vm_compute; reflexivity|].
  split; [vm_compute; reflexivity|].
  split; [vm_compute; discriminate|].
  apply (baseSizeNumberToLots_rounds_then_floors (mkMarket 4 1 1 1) s).
  - reflexivity.
  - vm_compute. split; discriminate.
  - vm_compute. reflexivity.
  - vm_compute. split; [discriminate | reflexivity].
Defined.

(** C3, as stated, fails.  With [decimals = 0] and [L = 1] the size [0.5]
    gives one lot, where [floor(0.5 * 10^0 / 1) = 0]: one lot is more than
    what was requested.  With one decimal and [L = 1] the size [0.15] (in
    binary64 a little below it) gives 2 lots, where
    [floor(0.15 * 10 / 1) = 1]: the binary64 product is [1.5]. *)
Lemma baseSizeNumberToLots_not_floor :
  let floorOf (m : Market.t) (s : Number.t) :=
    Qfloor (Number.value s * inject_Z (10 ^ Market._baseSplTokenDecimals m)
            / inject_Z (Market.baseLotSize (Market._decoded m))) in
  (let m := mkMarket 1 1 0 0 in
   let s := Number.literal 5 1 in
   Market.baseSizeNumberToLots m s = Some 1 /\
   floorOf m s = 0 /\
   Market.baseSizeNumberToLots m s <> Some (floorOf m s)) /\
  (let m := mkMarket 1 1 1 1 in
   let s := Number.literal 15 2 in
   Market.baseSizeNumberToLots m s = Some 2 /\
   floorOf m s = 1 /\
   Market.baseSizeNumberToLots m s <> Some (floorOf m s)).
Proof. repeat split; vm_compute; congruence. Qed.

(** C4, as the code has it.  The lots returned hold no more native units
    than the rounded product, [lots * L <= round(p) <= p + 1/2] with [p]
    the binary64 product of [s] and [10^decimals], and their re-expansion
    is returned (for [10^decimals] below [2^53]): it is the binary64 sum
    and quotient of the exact parts of [lots * L / 10^decimals], and the
    exact [lots * L / 10^decimals], at most [round(p) / 10^decimals], when
    [10^decimals] divides [lots * L]. *)
Theorem baseSizeLotsToNumber_of_lots_le_rounded (m : Market.t) (s : Number.t) :
  let L := Market.baseLotSize (Market._decoded m) in
  let D := 10 ^ Market._baseSplTokenDecimals m in
  let p := Number.mul s (Math.pow10 (Market._baseSplTokenDecimals m)) in
  0 < L ->
  0 <= Market._baseSplTokenDecimals m ->
  D < 2 ^ 53 ->
  Number.isFinite p = true ->
  0 <= rounded p < 2 ^ 53 ->
  exists lots v,
    Market.baseSizeNumberToLots m s = Some lots /\
    Market.baseSizeLotsToNumber m lots = Some v /\
    lots * L <= rounded p /\
    (inject_Z (lots * L) <= Number.value p + (1 # 2))%Q /\
    (let '(q, a, b) := reducedParts (lots * L) D in
     v = Number.add (Number.ofZ q) (Number.div (Number.ofZ a) (Number.ofZ b))) /\
    ((lots * L) mod D = 0 ->
     (Number.value v == inject_Z (lots * L) / inject_Z D)%Q /\
     (Number.value v * inject_Z D <= inject_Z (rounded p))%Q).
Proof.
  intros L D p HL Hd HD Hf Hb.
  destruct (sizeToLots_rounds_then_floors L (Market._baseSplTokenDecimals m) s HL Hf Hb)
    as (lots & Elots & Hrb & [HlotsL _] & _).
  change (lots * L <= rounded p) in HlotsL. fold p in Elots, Hrb.
  assert (Hpow : 0 < D) by (apply Z.pow_pos_nonneg; lia).
  assert (Hlots : 0 <= lots).
  { destruct (Z.le_gt_cases 0 lots) as [H|H]; [exact H|].
    exfalso.
    rewrite BN_ofNumber_round in Elots;
      [| exact Hf | rewrite Z.abs_eq by lia; lia].
    cbn [mbind option_bind] in Elots.
    rewrite BN_div_nonneg in Elots by lia. injection Elots as <-.
    assert (0 <= rounded p / L) by (apply Z.div_pos; lia). lia. }
  assert (HlL : 0 <= lots * L) by nia.
  assert (Hq53 : lots * L / D < 2 ^ 53).
  { apply Z.div_lt_upper_bound; [lia|].
    destruct Hb as [_ Hb]. clear HD. set (B := 2 ^ 53) in *. clearbody B. nia. }
  destruct (divideBnToNumber_returns (lots * L) D HlL (conj Hpow HD) Hq53) as [v Hv].
  exists lots, v. split; [exact Elots|]. split; [exact Hv|]. split; [exact HlotsL|].
  assert (Hle : (inject_Z (lots * L) <= inject_Z (rounded p))%Q)
    by (now rewrite <- Zle_Qle).
  split; [lra|]. split.
  - pose proof (divideBnToNumber_parts (lots * L) D HlL Hpow) as Hparts.
    unfold Market.baseSizeLotsToNumber, Market._baseSplTokenMultiplier, BN.mul, BN.pow in Hv.
    fold L D in Hv. rewrite Hv in Hparts.
    pose proof (reducedParts_exact (lots * L) D Hpow) as Hx.
    destruct (reducedParts (lots * L) D) as [[q a] b].
    destruct (BN.toNumber q) as [q'|] eqn:Eq; [|discriminate].
    destruct (BN.toNumber a) as [a'|] eqn:Ea; [|discriminate].
    destruct (BN.toNumber b) as [b'|] eqn:Eb; [|discriminate].
    apply BN_toNumber_Some in Eq, Ea, Eb.
    destruct Eq as [-> _], Ea as [-> _], Eb as [-> _].
    cbn [mbind option_bind] in Hparts. now injection Hparts.
  - intros Hdiv.
    unfold Market.baseSizeLotsToNumber, Market._baseSplTokenMultiplier, BN.mul, BN.pow in Hv.
    fold L D in Hv.
    rewrite (divideBnToNumber_exact (lots * L) D HlL Hpow Hdiv Hq53) in Hv.
    injection Hv as <-.
    assert (Hq0 : 0 <= lots * L / D) by (apply Z.div_pos; lia).
    destruct (Number_ofZ_exact (lots * L / D)) as (_ & Hval & _);
      [rewrite Z.abs_eq by lia; exact Hq53|].
    assert (HE : lots * L = D * (lots * L / D))
      by (apply Z.div_exact; lia).
    assert (Hv1 : (Number.value (Number.ofZ (lots * L / D)) * inject_Z D
                   == inject_Z (lots * L))%Q).
    { rewrite Hval, <- inject_Z_mult. rewrite HE at 2.
      rewrite (Z.mul_comm D). reflexivity. }
    split.
    + rewrite <- Hv1. field.
      change 0%Q with (inject_Z 0). rewrite inject_Z_injective. lia.
    + rewrite Hv1. exact Hle.
Qed.

(** The size [2.57] with one decimal and lots of 4 native units becomes
    6 lots, 24 of the 26 native units; they re-expand to the binary64 sum
    [2 + 2/5]. *)
Lemma baseSizeLotsToNumber_of_lots_le_rounded_witness :
  let s := Number.literal 257 2 in
  let p := Number.mul s (Math.pow10 1) in
  Market.baseSizeNumberToLots (mkMarket 4 1 1 1) s = Some 6 /\
  exists lots v,
    Market.baseSizeNumberToLots (mkMarket 4 1 1 1) s = Some lots /\
    Market.baseSizeLotsToNumber (mkMarket 4 1 1 1) lots = Some v /\
    lots * 4 <= rounded p /\
    (inject_Z (lots * 4) <= Number.value p + (1 # 2))%Q /\
    (let '(q, a, b) := reducedParts (lots * 4) (10 ^ 1) in
     v = Number.add (Number.ofZ q) (Number.div (Number.ofZ a) (Number.ofZ b))) /\
    ((lots * 4) mod 10 ^ 1 = 0 ->
     (Number.value v == inject_Z (lots * 4) / inject_Z (10 ^ 1))%Q /\
     (Number.value v * inject_Z (10 ^ 1) <= inject_Z (rounded p))%Q).
Proof.
  intros s p. split; [vm_compute; reflexivity|].
  apply (baseSizeLotsToNumber_of_lots_le_rounded (mkMarket 4 1 1 1) s).
  - reflexivity.
  - discriminate.
  - reflexivity.
  - vm_compute. reflexivity.
  - vm_compute. split; [discriminate | reflexivity].
Defined.

(** C4, as stated, fails.  With [decimals = 0] and [L = 1] the size [0.5]
    becomes one lot, which re-expands to [1 > 0.5]; with one decimal and
    [L = 1] the size [0.15] becomes 2 lots, which re-expand to
    [0.2 > 0.15]. *)
Lemma baseSizeLotsToNumber_of_lots_exceeds :
  (let m := mkMarket 1 1 0 0 in
   let s := Number.literal 5 1 in
   exists lots v,
     Market.baseSizeNumberToLots m s = Some lots /\
     Market.baseSizeLotsToNumber m lots = Some v /\
     ~ (Number.value v <= Number.value s)%Q) /\
  (let m := mkMarket 1 1 1 1 in
   let s := Number.literal 15 2 in
   exists lots v,
     Market.baseSizeNumberToLots m s = Some lots /\
     Market.baseSizeLotsToNumber m lots = Some v /\
     v = Number.literal 2 1 /\
     ~ (Number.value v <= Number.value s)%Q).
Proof.
  split.
  - exists 1, (Number.ofZ 1). repeat split; try (vm_compute; reflexivity).
    vm_compute. intros H. apply H. reflexivity.
  - exists 2, (Number.literal 2 1). repeat split; try (vm_compute; reflexivity).
    vm_compute. intros H. apply H. reflexivity.
Qed.

(** ** Price conversion *)

(** C7.  [priceLotsToNumber(p)] works on the exact integers
    [N = p * Market.quoteLotSize * 10^baseDecimals] and
    [D = Market.baseLotSize * 10^quoteDecimals]: it converts to numbers only the
    integer quotient [N / D] and the two parts [r / g] and [D / g] of the
    remainder fraction, where [r = N mod D] and [g = gcd(r, D)].  The
    reduction is exact ([(r / g) * D = r * (D / g)], the reduced parts are
    coprime), each conversion gives the integer itself as a number, and the
    number returned is their binary64 sum and quotient,
    [N/D + (r/g) / (D/g)]. *)
Theorem priceLotsToNumber_exact_rational (m : Market.t) (p : Z) :
  0 <= p ->
  0 <= Market.quoteLotSize (Market._decoded m) ->
  0 < Market.baseLotSize (Market._decoded m) ->
  0 <= Market._baseSplTokenDecimals m ->
  0 <= Market._quoteSplTokenDecimals m ->
  let N := p * Market.quoteLotSize (Market._decoded m) * 10 ^ Market._baseSplTokenDecimals m in
  let D := Market.baseLotSize (Market._decoded m) * 10 ^ Market._quoteSplTokenDecimals m in
  let r := N mod D in
  let g := Z.gcd r D in
  Market.priceLotsToNumber m p =
    (quotient ← BN.toNumber (N / D);
     a ← BN.toNumber (r / g);
     b ← BN.toNumber (D / g);
     Some (Number.add quotient (Number.div a b))) /\
  N = (N / D) * D + r /\
  (r / g) * D = r * (D / g) /\
  Z.gcd (r / g) (D / g) = 1 /\
  0 <= r / g < D / g /\
  (forall z x, BN.toNumber z = Some x ->
     Number.isFinite x = true /\ (Number.value x == inject_Z z)%Q).
Proof.
  intros Hp Hq Hb Hbd Hqd N D r g.
  assert (HN : 0 <= N).
  { subst N. pose proof (Z.pow_nonneg 10 (Market._baseSplTokenDecimals m)). nia. }
  assert (HD : 0 < D).
  { subst D. pose proof (Z.pow_pos_nonneg 10 (Market._quoteSplTokenDecimals m)). nia. }
  pose proof (reducedParts_exact N D HD) as Hx.
  pose proof (divideBnToNumber_parts N D HN HD) as Hparts.
  unfold reducedParts in Hx, Hparts. fold r g in Hx, Hparts.
  destruct Hx as (E1 & E2 & E3 & E4).
  repeat split; try assumption; try lia;
    intros; eapply BN_toNumber_exact; eassumption.
Qed.

(** The price of 12345 lots with lots of 100 and 10 and 6 decimals each:
    [1234 + 1/2], converted part by part. *)
Lemma priceLotsToNumber_exact_rational_witness :
  Market.priceLotsToNumber (mkMarket 100 10 6 6) 12345
  = Some (Number.add (Number.ofZ 1234) (Number.div (Number.ofZ 1) (Number.ofZ 2))).
Proof.
  destruct (priceLotsToNumber_exact_rational (mkMarket 100 10 6 6) 12345)
    as [E _]; try (simpl; lia).
  rewrite E. vm_compute. reflexivity.
Defined.

(** The number returned is the binary64 number next to the price, not the
    rational: one price lot with a base lot of 3 gives
    [6004799503160661 / 2^54], not [1/3]. *)
Example priceLotsToNumber_third :
  (Number.value <$> Market.priceLotsToNumber (mkMarket 3 1 0 0) 1)
  = Some (6004799503160661 # 18014398509481984)%Q.
Proof. vm_compute. reflexivity. Qed.

(** ** The order-book constructor *)

(** C8.  The constructor throws exactly when the flags lack [initialized]
    or do not set exactly one of [bids] and [asks]; when it returns, the
    side of the order book is the [bids] flag (and market and slab are the
    arguments).  [Orderbook.decode] is the constructor applied to what the
    layout decodes. *)
Theorem Orderbook_new_fails_iff
    (market : Market.t) (flags : AccountFlags.t) (slab : Slab.t) :
  (Orderbook.new market flags slab = None <->
     AccountFlags.initialized flags = false \/
     ~ ((AccountFlags.bids flags = true /\ AccountFlags.asks flags = false) \/
        (AccountFlags.bids flags = false /\ AccountFlags.asks flags = true))) /\
  (forall ob, Orderbook.new market flags slab = Some ob ->
     Orderbook.isBids ob = AccountFlags.bids flags /\
     Orderbook.market ob = market /\ Orderbook.slab ob = slab) /\
  (forall layout_decode buffer,
     layout_decode buffer = Some (flags, slab) ->
     Orderbook.decode layout_decode market buffer = Orderbook.new market flags slab).
Proof.
  unfold Orderbook.new, Orderbook.decode.
  destruct flags as [i mk oo rq eq b a]; simpl.
  split; [|split].
  - destruct i, b, a; simpl; split; intros H; try discriminate; try reflexivity;
      try (left; reflexivity); try (right; intros [[? ?]|[? ?]]; discriminate);
      exfalso; destruct H as [H|H]; try discriminate; apply H; auto.
  - intros ob. destruct i, b, a; simpl; intros [= <-]; auto.
  - intros dec buffer ->. reflexivity.
Qed.

Lemma Orderbook_new_fails_iff_witness :
  Orderbook.isBids (book true slab_100_100) = true.
Proof.
  destruct (Orderbook_new_fails_iff (mkMarket 1 1 0 0) bidsFlags slab_100_100)
    as (_ & H & _).
  destruct (H (book true slab_100_100)) as (E & _); [reflexivity | exact E].
Defined.

(** ** The traversal yields distinct leaves *)

Lemma handles_yields (hs : list nat) : handles (Slab.yields hs) = hs.
Proof. induction hs as [|h hs IH]; simpl; congruence. Qed.

Lemma existsb_eqb_false (x : nat) (l : list nat) :
  existsb (Nat.eqb x) l = false -> ~ In x l.
Proof.
  intros H Hin.
  assert (existsb (Nat.eqb x) l = true) as E
    by (apply existsb_exists; exists x; split; [exact Hin | apply Nat.eqb_refl]).
  congruence.
Qed.

Lemma walk_handles (nodes : list Slab.node) (descending : bool) (fuel : nat) :
  forall stack visited budget,
    let hs := handles (Slab.walk fuel nodes descending stack visited budget) in
    NoDup hs /\ Forall (fun h => (h ∉ visited) /\ Slab.isLeaf nodes h) hs.
Proof.
  induction fuel as [|fuel IH]; intros stack visited budget; simpl.
  - destruct stack; simpl; split; constructor.
  - destruct stack as [|index stack]; simpl; [split; constructor|].
    destruct (existsb (Nat.eqb index) visited) eqn:Ev; simpl; [split; constructor|].
    apply existsb_eqb_false in Ev. rewrite <- list_elem_of_In in Ev.
    destruct (nodes !! index) as [[ | pl k [c0 c1] | os k o q | nx | | tg ct]|] eqn:En;
      simpl; try (split; constructor).
    + destruct (IH stack (index :: visited) budget) as [H1 H2].
      split; [exact H1|]. eapply Forall_impl; [exact H2|].
      intros h [Hv Hl]. split; [rewrite not_elem_of_cons in Hv; tauto | exact Hl].
    + destruct (IH ((if descending then [c1; c0] else [c0; c1]) ++ stack)
                   (index :: visited) budget) as [H1 H2].
      split; [exact H1|]. eapply Forall_impl; [exact H2|].
      intros h [Hv Hl]. split; [rewrite not_elem_of_cons in Hv; tauto | exact Hl].
    + destruct budget as [|budget]; simpl; [split; constructor|].
      destruct (IH stack (index :: visited) budget) as [H1 H2].
      split.
      * constructor; [|exact H1].
        intros Hin. rewrite Forall_forall in H2.
        destruct (H2 index Hin) as [Hv _]. apply Hv. left.
      * constructor.
        -- split; [exact Ev | now exists os, k, o, q].
        -- eapply Forall_impl; [exact H2|].
           intros h [Hv Hl]. split; [rewrite not_elem_of_cons in Hv; tauto | exact Hl].
    + destruct (IH stack (index :: visited) budget) as [H1 H2].
      split; [exact H1|]. eapply Forall_impl; [exact H2|].
      intros h [Hv Hl]. split; [rewrite not_elem_of_cons in Hv; tauto | exact Hl].
    + destruct (IH stack (index :: visited) budget) as [H1 H2].
      split; [exact H1|]. eapply Forall_impl; [exact H2|].
      intros h [Hv Hl]. split; [rewrite not_elem_of_cons in Hv; tauto | exact Hl].
    + destruct (IH stack (index :: visited) budget) as [H1 H2].
      split; [exact H1|]. eapply Forall_impl; [exact H2|].
      intros h [Hv Hl]. split; [rewrite not_elem_of_cons in Hv; tauto | exact Hl].
Qed.

Lemma items_yields_distinct_leaves (s : Slab.t) (descending : bool) (hs : list nat) :
  Slab.items s descending = Slab.yields hs ->
  NoDup hs /\ Forall (Slab.isLeaf (Slab.nodes s)) hs.
Proof.
  unfold Slab.items. intros E.
  destruct (Slab.leafCount (Slab.header s) =? 0)%nat.
  - destruct hs; [split; constructor | discriminate].
  - pose proof (walk_handles (Slab.nodes s) descending (length (Slab.nodes s))
                  [Slab.root (Slab.header s)] [] (Slab.leafCount (Slab.header s))) as H.
    simpl in H. rewrite E, handles_yields in H. destruct H as [H1 H2].
    split; [exact H1|]. eapply Forall_impl; [exact H2|]. now intros h [_ Hl].
Qed.

(** ** The traversal of a well-formed slab is in key order *)

Lemma prepend_app (hs1 hs2 : list nat) (it : Slab.items_t) :
  prepend (hs1 ++ hs2) it = prepend hs1 (prepend hs2 it).
Proof. unfold prepend. apply fold_right_app. Qed.

Lemma prepend_done (hs : list nat) : prepend hs Slab.done = Slab.yields hs.
Proof. induction hs as [|h hs IH]; simpl; congruence. Qed.

Lemma elem_of_visitedAfter (descending : bool) (t : tree) :
  forall visited i,
    i ∈ visitedAfter descending t visited <-> i ∈ indices t \/ i ∈ visited.
Proof.
  induction t as [h|h t0 IH0 t1 IH1]; intros visited i; simpl.
  - rewrite !elem_of_cons, elem_of_nil. tauto.
  - destruct descending; rewrite ?IH0, ?IH1, ?IH0, !elem_of_cons, elem_of_app; tauto.
Qed.

Lemma length_inorder (descending : bool) (t : tree) :
  length (inorder descending t) = length (inorder false t).
Proof.
  induction t as [h|h t0 IH0 t1 IH1]; simpl; [reflexivity|].
  destruct descending; rewrite !length_app; lia.
Qed.

Lemma not_visited_existsb (x : nat) (l : list nat) :
  x ∉ l -> existsb (Nat.eqb x) l = false.
Proof.
  intros H. destruct (existsb (Nat.eqb x) l) eqn:E; [|reflexivity].
  apply existsb_exists in E. destruct E as (y & Hy & Exy).
  apply Nat.eqb_eq in Exy. subst y. exfalso. apply H. now apply list_elem_of_In.
Qed.

Lemma walk_tree (nodes : list Slab.node) (descending : bool) (t : tree) :
  represents nodes t ->
  NoDup (indices t) ->
  forall fuel stack visited budget,
    (length (indices t) <= fuel)%nat ->
    (length (inorder false t) <= budget)%nat ->
    (forall i, i ∈ indices t -> i ∉ visited) ->
    Slab.walk fuel nodes descending (troot t :: stack) visited budget
    = prepend (inorder descending t)
        (Slab.walk (fuel - length (indices t)) nodes descending stack
           (visitedAfter descending t visited)
           (budget - length (inorder false t))).
Proof.
  induction t as [h|h t0 IH0 t1 IH1];
    intros Hrep Hnd fuel stack visited budget Hfuel Hbudget Hfresh.
  - destruct Hrep as (os & k & o & q & Eh). simpl in *.
    destruct fuel as [|fuel]; [lia|]. destruct budget as [|budget]; [lia|].
    cbn [Slab.walk].
    rewrite not_visited_existsb by (apply Hfresh; left).
    rewrite Eh. unfold prepend.
    cbn [fold_right inorder indices length visitedAfter Nat.sub].
    rewrite ?Nat.sub_0_r. reflexivity.
  - destruct Hrep as ((pl & k & Eh) & Hrep0 & Hrep1).
    cbn [indices] in Hnd. apply NoDup_cons in Hnd. destruct Hnd as [Hh Hnd].
    apply NoDup_app in Hnd. destruct Hnd as (Hnd0 & Hdisj & Hnd1).
    cbn [indices length inorder troot] in *.
    rewrite length_app in Hfuel, Hbudget.
    destruct fuel as [|fuel]; [lia|].
    cbn [Slab.walk].
    rewrite not_visited_existsb by (apply Hfresh; left).
    rewrite Eh.
    assert (Hf0 : forall i, i ∈ indices t0 -> i ∉ h :: visited).
    { intros i Hi. rewrite not_elem_of_cons. split.
      - intros ->. apply Hh. apply elem_of_app. now left.
      - apply Hfresh. right. apply elem_of_app. now left. }
    assert (Hf1 : forall i, i ∈ indices t1 -> i ∉ h :: visited).
    { intros i Hi. rewrite not_elem_of_cons. split.
      - intros ->. apply Hh. apply elem_of_app. now right.
      - apply Hfresh. right. apply elem_of_app. now right. }
    destruct descending; cbn [app].
    + rewrite (IH1 Hrep1 Hnd1) by (try lia; exact Hf1).
      rewrite (IH0 Hrep0 Hnd0).
      * rewrite prepend_app. cbn [visitedAfter]. rewrite ?length_app.
        f_equal. f_equal. f_equal; lia.
      * lia.
      * lia.
      * intros i Hi. rewrite elem_of_visitedAfter. intros [Hi1|Hi1].
        -- exact (Hdisj i Hi Hi1).
        -- exact (Hf0 i Hi Hi1).
    + rewrite (IH0 Hrep0 Hnd0) by (try lia; exact Hf0).
      rewrite (IH1 Hrep1 Hnd1).
      * rewrite prepend_app. cbn [visitedAfter]. rewrite ?length_app.
        f_equal. f_equal. f_equal; lia.
      * lia.
      * lia.
      * intros i Hi. rewrite elem_of_visitedAfter. intros [Hi0|Hi0].
        -- exact (Hdisj i Hi0 Hi).
        -- exact (Hf1 i Hi Hi0).
Qed.

Lemma represents_lt (nodes : list Slab.node) (t : tree) :
  represents nodes t -> forall i, In i (indices t) -> (i < length nodes)%nat.
Proof.
  induction t as [h|h t0 IH0 t1 IH1]; simpl.
  - intros (os & k & o & q & Eh) i [<-|[]]. eapply lookup_lt_Some. exact Eh.
  - intros ((pl & k & Eh) & H0 & H1) i [<-|Hi].
    + eapply lookup_lt_Some. exact Eh.
    + apply in_app_or in Hi. destruct Hi; auto.
Qed.

Lemma length_indices_le (nodes : list Slab.node) (t : tree) :
  represents nodes t -> NoDup (indices t) ->
  (length (indices t) <= length nodes)%nat.
Proof.
  intros Hrep Hnd.
  assert (H : (length (indices t) <= length (List.seq 0 (length nodes)))%nat).
  { apply NoDup_incl_length.
    - now apply NoDup_ListNoDup.
    - intros i Hi. apply in_seq.
      pose proof (represents_lt nodes t Hrep i Hi). lia. }
  now rewrite List.length_seq in H.
Qed.

Lemma length_inorder_pos (t : tree) : (0 < length (inorder false t))%nat.
Proof.
  induction t as [h|h t0 IH0 t1 IH1]; simpl; [lia|]. rewrite length_app. lia.
Qed.

Lemma items_wellFormed (s : Slab.t) (t : tree) (descending : bool) :
  wellFormed s t ->
  Slab.items s descending = Slab.yields (inorder descending t).
Proof.
  intros (Hroot & Hrep & Hnd & _ & Hcount). unfold Slab.items.
  pose proof (length_inorder_pos t) as Hpos.
  destruct (Nat.eqb_spec (Slab.leafCount (Slab.header s)) 0) as [E|_]; [lia|].
  rewrite <- Hroot, Hcount.
  rewrite (walk_tree (Slab.nodes s) descending t Hrep Hnd).
  - destruct (_ - _)%nat; apply prepend_done.
  - now apply length_indices_le.
  - lia.
  - intros i _. apply not_elem_of_nil.
Qed.

Lemma StronglySorted_app {A : Type} (R : A -> A -> Prop) (l1 l2 : list A) :
  StronglySorted R l1 -> StronglySorted R l2 ->
  (forall a b, In a l1 -> In b l2 -> R a b) ->
  StronglySorted R (l1 ++ l2).
Proof.
  intros H1 H2 H12. induction H1 as [|a l1 Hl1 IH Ha]; [exact H2|].
  simpl. constructor.
  - apply IH. intros x y Hx Hy. apply H12; [now right | exact Hy].
  - apply Forall_app. split.
    + exact Ha.
    + apply Forall_forall. intros y Hy. apply H12; [now left|].
      now apply list_elem_of_In.
Qed.

Lemma StronglySorted_rev {A : Type} (R : A -> A -> Prop) (l : list A) :
  StronglySorted R l -> StronglySorted (fun a b => R b a) (rev l).
Proof.
  intros H. induction H as [|a l Hl IH Ha]; [constructor|].
  simpl. apply StronglySorted_app.
  - exact IH.
  - repeat constructor.
  - intros x y Hx [<-|[]]. apply in_rev in Hx.
    rewrite Forall_forall in Ha. apply Ha. now apply list_elem_of_In.
Qed.

Lemma inorder_descending (t : tree) : inorder true t = rev (inorder false t).
Proof.
  induction t as [h|h t0 IH0 t1 IH1]; simpl; [reflexivity|].
  now rewrite rev_app_distr, IH0, IH1.
Qed.

Lemma inorder_sorted (nodes : list Slab.node) (t : tree) :
  ordered nodes t ->
  StronglySorted (fun a b => keyOf nodes a < keyOf nodes b) (inorder false t).
Proof.
  induction t as [h|h t0 IH0 t1 IH1]; simpl.
  - intros _. repeat constructor.
  - intros (H01 & H0 & H1). apply StronglySorted_app; auto.
Qed.

Lemma yields_inj (hs1 hs2 : list nat) : Slab.yields hs1 = Slab.yields hs2 -> hs1 = hs2.
Proof.
  revert hs2. induction hs1 as [|h hs1 IH]; intros [|h2 hs2]; simpl;
    try discriminate; [reflexivity|].
  intros [= -> E]. f_equal. now apply IH.
Qed.

Lemma items_key_order (s : Slab.t) (t : tree) (descending : bool) (hs : list nat) :
  wellFormed s t ->
  Slab.items s descending = Slab.yields hs ->
  hs = inorder descending t /\
  StronglySorted
    (fun a b => if descending
                then keyOf (Slab.nodes s) b < keyOf (Slab.nodes s) a
                else keyOf (Slab.nodes s) a < keyOf (Slab.nodes s) b) hs.
Proof.
  intros Hwf E. rewrite (items_wellFormed s t descending Hwf) in E.
  apply yields_inj in E. subst hs. split; [reflexivity|].
  destruct Hwf as (_ & _ & _ & Hord & _).
  pose proof (inorder_sorted _ _ Hord) as Hs.
  destruct descending; [|exact Hs].
  rewrite inorder_descending. now apply StronglySorted_rev.
Qed.

(** ** The loop of [getL2] against the store of quantities *)

Section IaddFrame.

Variables (nodes : list Slab.node) (r : nat) (q : Z).

Lemma lookup_iadd_ne (h : nat) :
  h <> r -> Orderbook.iadd nodes r q !! h = nodes !! h.
Proof.
  intros Hne. unfold Orderbook.iadd.
  destruct (nodes !! r) as [[ | | os k o q0 | | | ]|]; try reflexivity.
  apply list_lookup_insert_ne. congruence.
Qed.

Lemma lots_iadd_ne (h : nat) :
  h <> r -> Slab.lots (Orderbook.iadd nodes r q) h = Slab.lots nodes h.
Proof. intros Hne. unfold Slab.lots. now rewrite lookup_iadd_ne. Qed.

Lemma lots_iadd_eq :
  Slab.isLeaf nodes r ->
  Slab.lots (Orderbook.iadd nodes r q) r
  = (fst (Slab.lots nodes r), snd (Slab.lots nodes r) + q).
Proof.
  intros (os & k & o & q0 & E). unfold Slab.lots, Orderbook.iadd. rewrite E.
  rewrite list_lookup_insert_eq by (eapply lookup_lt_Some; exact E).
  reflexivity.
Qed.

Lemma isLeaf_iadd (h : nat) :
  Slab.isLeaf nodes h -> Slab.isLeaf (Orderbook.iadd nodes r q) h.
Proof.
  intros (os & k & o & q0 & E).
  destruct (Nat.eq_dec h r) as [->|Hne].
  - unfold Slab.isLeaf, Orderbook.iadd. rewrite E.
    rewrite list_lookup_insert_eq by (eapply lookup_lt_Some; exact E).
    eauto.
  - unfold Slab.isLeaf. rewrite lookup_iadd_ne by exact Hne. eauto.
Qed.

Lemma readLevels_iadd (levels : list (Z * nat)) :
  r ∉ map snd levels ->
  readLevels (Orderbook.iadd nodes r q) levels = readLevels nodes levels.
Proof.
  intros Hr. unfold readLevels. apply map_ext_in.
  intros [p h] Hin. f_equal. unfold Orderbook.quantityOf.
  rewrite lots_iadd_ne; [reflexivity|].
  intros ->. apply Hr. apply list_elem_of_In.
  apply (in_map snd) in Hin. exact Hin.
Qed.

Lemma map_lots_iadd (hs : list nat) :
  r ∉ hs ->
  map (Slab.lots (Orderbook.iadd nodes r q)) hs = map (Slab.lots nodes) hs.
Proof.
  intros Hr. apply map_ext_in. intros h Hin. apply lots_iadd_ne.
  intros ->. apply Hr. now apply list_elem_of_In.
Qed.

End IaddFrame.

Lemma getL2_loop_runs (depth : Z) (hs : list nat) :
  0 <= depth ->
  forall (nodes : list Slab.node) (pre : list (Z * nat)) (p : Z) (r : nat),
    (length pre < Z.to_nat depth)%nat ->
    NoDup (map snd pre ++ r :: hs) ->
    Slab.isLeaf nodes r ->
    Forall (Slab.isLeaf nodes) hs ->
    exists nodes' levels',
      Orderbook.getL2_loop depth (Slab.yields hs) nodes (pre ++ [(p, r)])
        = Some (nodes', levels') /\
      readLevels nodes' levels'
        = readLevels nodes pre
          ++ firstn (Z.to_nat depth - length pre)
               (runs_from p (Orderbook.quantityOf nodes r) (map (Slab.lots nodes) hs)).
Proof.
  intros Hd. induction hs as [|h hs IH]; intros nodes pre p r Hlen Hnd Hr Hhs.
  - simpl. exists nodes, (pre ++ [(p, r)]). split; [reflexivity|].
    unfold readLevels. rewrite map_app. f_equal.
    destruct (Z.to_nat depth - length pre)%nat eqn:E; [lia|]. simpl.
    now rewrite firstn_nil.
  - inversion Hhs as [|? ? (os & k & o & q & Eh) Hhs']; subst.
    apply NoDup_app in Hnd. destruct Hnd as (Hnd1 & Hnd2 & Hnd3).
    apply NoDup_cons in Hnd3. destruct Hnd3 as [Hr_hs Hnd3].
    apply NoDup_cons in Hnd3. destruct Hnd3 as [Hh_hs Hnd3].
    assert (Hrh : h <> r) by (intros ->; apply Hr_hs; left).
    assert (Hr_pre : r ∉ map snd pre) by (intros Hin; apply (Hnd2 r Hin); left).
    assert (Hlots_h : Slab.lots nodes h = (getPriceFromKey k, q))
      by (unfold Slab.lots; now rewrite Eh).
    cbn [Slab.yields Orderbook.getL2_loop]. rewrite Eh.
    rewrite last_snoc. cbn [map]. rewrite Hlots_h. cbn [runs_from].
    unfold BN.eq. rewrite (Z.eqb_sym p).
    destruct (Z.eqb_spec (getPriceFromKey k) p) as [Ep|Ep].
    + destruct (IH (Orderbook.iadd nodes r q) pre p r) as (nodes' & levels' & E1 & E2).
      * exact Hlen.
      * apply NoDup_app. split; [exact Hnd1|]. split.
        -- intros x Hx Hin. apply (Hnd2 x Hx).
           rewrite elem_of_cons in Hin. destruct Hin as [->|Hin]; [left|].
           right. right. exact Hin.
        -- apply NoDup_cons. split; [|exact Hnd3].
           intros Hin. apply Hr_hs. right. exact Hin.
      * now apply isLeaf_iadd.
      * eapply Forall_impl; [exact Hhs'|]. intros x. apply isLeaf_iadd.
      * exists nodes', levels'. split; [exact E1|]. rewrite E2.
        rewrite readLevels_iadd by exact Hr_pre.
        rewrite map_lots_iadd by (intros Hin; apply Hr_hs; right; exact Hin).
        unfold Orderbook.quantityOf. rewrite lots_iadd_eq by exact Hr.
        reflexivity.
    + rewrite length_app. cbn [length].
      destruct (Z.eqb_spec (Z.of_nat (length pre + 1)) depth) as [Ed|Ed].
      * exists nodes, (pre ++ [(p, r)]). split; [reflexivity|].
        unfold readLevels. rewrite map_app. f_equal.
        replace (Z.to_nat depth - length pre)%nat with 1%nat by lia.
        reflexivity.
      * destruct (IH nodes (pre ++ [(p, r)]) (getPriceFromKey k) h)
          as (nodes' & levels' & E1 & E2).
        -- rewrite length_app. cbn [length]. lia.
        -- rewrite map_app. cbn [map snd]. rewrite <- app_assoc. cbn [app].
           apply NoDup_app. split; [exact Hnd1|]. split; [exact Hnd2|].
           apply NoDup_cons. split; [exact Hr_hs|].
           apply NoDup_cons. split; [exact Hh_hs | exact Hnd3].
        -- now exists os, k, o, q.
        -- exact Hhs'.
        -- exists nodes', levels'. split; [exact E1|]. rewrite E2.
           unfold readLevels at 1. rewrite map_app, <- app_assoc. cbn [map app].
           rewrite length_app. cbn [length].
           replace (Z.to_nat depth - length pre)%nat
             with (S (Z.to_nat depth - (length pre + 1)))%nat by lia.
           cbn [firstn]. unfold readLevels, Orderbook.quantityOf.
           rewrite Hlots_h. reflexivity.
Qed.

Lemma getL2_loop_priceLevels (depth : Z) (hs : list nat) (nodes : list Slab.node) :
  0 <= depth ->
  NoDup hs ->
  Forall (Slab.isLeaf nodes) hs ->
  exists nodes' levels',
    Orderbook.getL2_loop depth (Slab.yields hs) nodes [] = Some (nodes', levels') /\
    readLevels nodes' levels'
      = firstn (Z.to_nat depth) (priceLevels (map (Slab.lots nodes) hs)).
Proof.
  intros Hd Hnd Hhs. destruct hs as [|h hs].
  - exists nodes, []. split; [reflexivity|]. simpl. now rewrite firstn_nil.
  - inversion Hhs as [|? ? Hh Hhs']; subst.
    pose proof Hh as (os & k & o & q & Eh).
    cbn [Slab.yields Orderbook.getL2_loop]. rewrite Eh. cbn [last length].
    destruct (Z.eqb_spec (Z.of_nat 0) depth) as [Ed|Ed].
    + exists nodes, []. split; [reflexivity|].
      replace (Z.to_nat depth) with 0%nat by lia. reflexivity.
    + destruct (getL2_loop_runs depth hs Hd nodes [] (getPriceFromKey k) h)
        as (nodes' & levels' & E1 & E2).
      * simpl. lia.
      * exact Hnd.
      * exact Hh.
      * exact Hhs'.
      * exists nodes', levels'. split; [exact E1|]. rewrite E2.
        assert (Hlots_h : Slab.lots nodes h = (getPriceFromKey k, q))
          by (unfold Slab.lots; now rewrite Eh).
        cbn [readLevels map app length priceLevels]. rewrite Nat.sub_0_r.
        unfold Orderbook.quantityOf. rewrite Hlots_h. reflexivity.
Qed.

(** ** Price levels have pairwise different neighbours *)

Lemma runs_from_head (p q : Z) (ls : list (Z * Z)) :
  exists q' tl, runs_from p q ls = (p, q') :: tl.
Proof.
  revert q. induction ls as [|[p' q'] ls IH]; intros q; simpl; [eauto|].
  destruct (p' =? p); [apply IH | eauto].
Qed.

Lemma runs_from_distinct (ls : list (Z * Z)) :
  forall p q, distinctNeighbours (runs_from p q ls).
Proof.
  induction ls as [|[p' q'] ls IH]; intros p q; simpl; [tauto|].
  destruct (Z.eqb_spec p' p) as [E|E]; [apply IH|].
  simpl. split; [|apply IH].
  destruct (runs_from_head p' q' ls) as (q'' & tl & ->). simpl. congruence.
Qed.

Lemma distinctNeighbours_firstn (n : nat) (l : list (Z * Z)) :
  distinctNeighbours l -> distinctNeighbours (firstn n l).
Proof.
  revert l. induction n as [|n IH]; intros l H; [exact I|].
  destruct l as [|a tl]; [exact I|]. destruct H as [H1 H2].
  cbn [firstn distinctNeighbours]. split; [|apply IH; exact H2].
  destruct n; [exact I|]. destruct tl; [exact I|]. exact H1.
Qed.

Lemma priceLevels_distinct (ls : list (Z * Z)) : distinctNeighbours (priceLevels ls).
Proof. destruct ls as [|[p q] ls]; [exact I | apply runs_from_distinct]. Qed.

(** ** [getL2] *)

Lemma mapM_readLevels (m : Market.t) (nodes : list Slab.node) (levels : list (Z * nat)) :
  mapM (fun '(priceLots, r) => Orderbook.toL2 m priceLots (Orderbook.quantityOf nodes r))
       levels
  = mapM (fun '(priceLots, sizeLots) => Orderbook.toL2 m priceLots sizeLots)
         (readLevels nodes levels).
Proof.
  induction levels as [|[p r] levels IH]; [reflexivity|].
  cbn [readLevels map mapM]. fold (readLevels nodes levels). now rewrite IH.
Qed.

Lemma toL2_lots (m : Market.t) (p q : Z) (row : L2Level) :
  Orderbook.toL2 m p q = Some row -> (snd (fst row), snd row) = (p, q).
Proof.
  unfold Orderbook.toL2.
  destruct (Market.priceLotsToNumber m p) as [price|]; [|discriminate].
  destruct (Market.baseSizeLotsToNumber m q) as [size|]; [|discriminate].
  cbn. intros [= <-]. reflexivity.
Qed.

Lemma mapM_toL2_lots (m : Market.t) (levels : list (Z * Z)) (result : list L2Level) :
  mapM (fun '(priceLots, sizeLots) => Orderbook.toL2 m priceLots sizeLots) levels
    = Some result ->
  map (fun row : L2Level => (snd (fst row), snd row)) result = levels.
Proof.
  revert result. induction levels as [|[p q] levels IH]; intros result.
  - intros [= <-]. reflexivity.
  - cbn [mapM].
    destruct (Orderbook.toL2 m p q) as [row|] eqn:Erow; [|discriminate].
    destruct (mapM _ levels) as [rest|]; [|discriminate].
    cbn. intros [= <-].
    cbn [map]. f_equal; [exact (toL2_lots m p q row Erow) | now apply IH].
Qed.

(** C1.  When the traversal of the slab, asked for descending order exactly
    on the bid side, hands over the leaves [hs] and ends, [getL2(depth)]
    returns the rows of the first [depth] price levels of these leaves in
    that order, a price level being a maximal run of consecutive leaves of
    one price, its size the sum of their quantities: at most [depth] rows,
    neighbouring rows of different prices, and [priceLots] and [sizeLots]
    of the rows exactly these levels.  On a well-formed slab the leaves
    [hs] are all its leaves, in descending key order on the bid side and
    in ascending key order on the ask side. *)
Theorem getL2_price_levels (ob : Orderbook.t) (depth : Z) (hs : list nat) :
  0 <= depth ->
  Slab.items (Orderbook.slab ob) (Orderbook.isBids ob) = Slab.yields hs ->
  let leaves := map (Slab.lots (Slab.nodes (Orderbook.slab ob))) hs in
  let levels := firstn (Z.to_nat depth) (priceLevels leaves) in
  (fst <$> Orderbook.getL2 ob depth)
    = mapM (fun '(priceLots, sizeLots) =>
              Orderbook.toL2 (Orderbook.market ob) priceLots sizeLots) levels /\
  (length levels <= Z.to_nat depth)%nat /\
  distinctNeighbours levels /\
  (forall result ob',
     Orderbook.getL2 ob depth = Some (result, ob') ->
     map (fun row : L2Level => (snd (fst row), snd row)) result = levels /\
     Z.of_nat (length result) <= depth) /\
  (forall t,
     wellFormed (Orderbook.slab ob) t ->
     hs = inorder (Orderbook.isBids ob) t /\
     StronglySorted
       (fun a b =>
          if Orderbook.isBids ob
          then keyOf (Slab.nodes (Orderbook.slab ob)) b
               < keyOf (Slab.nodes (Orderbook.slab ob)) a
          else keyOf (Slab.nodes (Orderbook.slab ob)) a
               < keyOf (Slab.nodes (Orderbook.slab ob)) b) hs).
Proof.
  intros Hd Hit leaves levels.
  destruct (items_yields_distinct_leaves _ _ _ Hit) as [Hnd Hleaf].
  destruct (getL2_loop_priceLevels depth hs (Slab.nodes (Orderbook.slab ob)) Hd Hnd Hleaf)
    as (nodes' & lv & E1 & E2).
  fold leaves in E2. fold levels in E2.
  assert (Hlen : (length levels <= Z.to_nat depth)%nat)
    by (unfold levels; rewrite length_firstn; lia).
  assert (Eq : (fst <$> Orderbook.getL2 ob depth)
               = mapM (fun '(priceLots, sizeLots) =>
                         Orderbook.toL2 (Orderbook.market ob) priceLots sizeLots) levels).
  { unfold Orderbook.getL2. rewrite Hit, E1. cbn [mbind option_bind].
    rewrite mapM_readLevels, E2.
    destruct (mapM _ levels); reflexivity. }
  split; [exact Eq|]. split; [exact Hlen|]. split; [|split].
  - apply distinctNeighbours_firstn, priceLevels_distinct.
  - intros result ob' Eg. rewrite Eg in Eq. cbn in Eq. symmetry in Eq.
    pose proof (mapM_toL2_lots _ _ _ Eq) as Hm. split; [exact Hm|].
    rewrite <- Hm in Hlen. rewrite length_map in Hlen. lia.
  - intros t Hwf. now apply (items_key_order _ t _ hs Hwf).
Qed.

(** Two ask leaves at price 100 with sizes 2 and 3: one level of size 5. *)
Lemma getL2_price_levels_witness :
  (fst <$> Orderbook.getL2 (book false slab_100_100) 5)
  = Some [(Number.ofZ 100, Number.ofZ 5, 100, 5)].
Proof.
  destruct (getL2_price_levels (book false slab_100_100) 5 [1; 2]%nat) as [E _].
  - lia.
  - reflexivity.
  - rewrite E. vm_compute. reflexivity.
Defined.

Example items_ascending :
  Slab.items slab_3_5_5 false = Slab.yields [1; 3; 4]%nat.
Proof. reflexivity. Qed.

Example items_descending :
  Slab.items slab_3_5_5 true = Slab.yields [4; 3; 1]%nat.
Proof. reflexivity. Qed.


Example slab_3_5_5_wellFormed : wellFormed slab_3_5_5 tree_3_5_5.
Proof.
  unfold wellFormed, tree_3_5_5. cbn [troot represents indices ordered inorder app].
  split; [reflexivity|]. split; [|split; [|split]].
  - unfold Slab.isLeaf. cbn. repeat split; repeat eexists.
  - repeat (apply NoDup_cons; split;
            [rewrite ?elem_of_cons, elem_of_nil; lia|]).
    apply NoDup_nil. exact I.
  - repeat split; intros a b Ha Hb; cbn in Ha, Hb;
      repeat match goal with
        | H : _ \/ _ |- _ => destruct H
        | H : False |- _ => destruct H
        end; subst; vm_compute; reflexivity.
  - reflexivity.
Qed.

(** [getL2(1)] on a book with the price levels 3 and 5 returns the best one:
    the lowest ask, the highest bid. *)
Example getL2_1_asks :
  (fst <$> Orderbook.getL2 (book false slab_3_5_5) 1) = Some [(Number.ofZ 3, Number.ofZ 7, 3, 7)].
Proof. vm_compute. reflexivity. Qed.

Example getL2_1_bids :
  (fst <$> Orderbook.getL2 (book true slab_3_5_5) 1) = Some [(Number.ofZ 5, Number.ofZ 5, 5, 5)].
Proof. vm_compute. reflexivity. Qed.

(** An empty book has no levels, whatever the depth. *)
Example getL2_empty (isBids : bool) (depth : Z) :
  (fst <$> Orderbook.getL2 (book isBids slab_empty) depth) = Some [].
Proof. reflexivity. Qed.

(** The quantity object of the first leaf of a level is shared with the
    slab: a second call sees the sizes the first call left behind. *)
Example getL2_twice :
  (ob' ← snd <$> Orderbook.getL2 (book false slab_100_100) 5;
   fst <$> Orderbook.getL2 ob' 5)
  = Some [(Number.ofZ 100, Number.ofZ 8, 100, 8)].
Proof. vm_compute. reflexivity. Qed.

(** ** [getL2] of [market.js] against [getL2] of [market.ts] *)

Lemma MarketJs_toL2_throws (m : Market.t) (p q : Z) : MarketJs.toL2 m p q = None.
Proof.
  unfold MarketJs.toL2. destruct (Market.priceLotsToNumber m p); reflexivity.
Qed.

(** The rows of [market.js] are never returned: on a book with a leaf and
    [depth] at least 1 the call throws, so all it can return is [[]]. *)
Lemma MarketJs_getL2_returns_nil (ob : Orderbook.t) (depth : Z)
    (result : list L2Level) (ob' : Orderbook.t) :
  MarketJs.getL2 ob depth = Some (result, ob') -> result = [].
Proof.
  unfold MarketJs.getL2.
  destruct (MarketJs.getL2_loop _ _ _ _) as [[nodes' levels]|]; [|discriminate].
  cbn [mbind option_bind]. destruct levels as [|[p r] levels].
  - cbn. now intros [= <- _].
  - cbn [mapM]. rewrite MarketJs_toL2_throws. discriminate.
Qed.

(** C10, at a failing input.  On an ask book with a single leaf (price 100,
    size 2) [market.ts] returns the level and [market.js] throws (at
    [sizeLots.mul(this.market.baseLotSize)]); with two leaves [market.js]
    throws already in the loop (at [.equals]). *)
Theorem getL2_js_throws_where_ts_returns :
  (fst <$> Orderbook.getL2 (book false slab_100) 1) = Some [(Number.ofZ 100, Number.ofZ 2, 100, 2)] /\
  MarketJs.getL2 (book false slab_100) 1 = None /\
  (fst <$> Orderbook.getL2 (book false slab_100_100) 1) = Some [(Number.ofZ 100, Number.ofZ 5, 100, 5)] /\
  MarketJs.getL2 (book false slab_100_100) 1 = None.
Proof. repeat split; vm_compute; reflexivity. Qed.

(** ** The slab layout *)

Example SLAB_LAYOUT_decode_oneLeafSlab :
  BufferLayout.decode SlabLayout.SLAB_LAYOUT SlabLayout.oneLeafSlab 0
  = Some oneLeafSlab_decoded.
Proof. vm_compute. reflexivity. Qed.

Section SlabLayoutFacts.

Import BufferLayout SlabLayout.

Lemma SLAB_LAYOUT_eq :
  SLAB_LAYOUT =
  Structure [(Some "header"%string, (snd SLAB_HEADER_LAYOUT));
             (Some "nodes"%string, Sequence (snd SLAB_NODE_LAYOUT) (inr (UInt 4, -32)))].
Proof. reflexivity. Qed.

Lemma readUIntLE_in_range (b : list byte) (o : Z) (n : nat) :
  0 <= o -> o + Z.of_nat n <= Z.of_nat (length b) ->
  readUIntLE b o n = Some (le_combine (firstn n (skipn (Z.to_nat o) b))).
Proof.
  intros H1 H2. unfold readUIntLE.
  destruct (Z.leb_spec 0 o); [|lia].
  destruct (Z.leb_spec (o + Z.of_nat n) (Z.of_nat (length b))); [|lia].
  reflexivity.
Qed.

Lemma decodeElements_length (dec : Z -> option Value) (sp : Z -> option Z) (n : nat) :
  forall o vs, decodeElements dec sp n o = Some vs -> length vs = n.
Proof.
  induction n as [|n IH]; intros o vs; cbn [decodeElements].
  - now intros [= <-].
  - destruct (dec o) as [v|]; [|discriminate]. cbn [mbind option_bind].
    destruct (sp o) as [a|]; [|discriminate]. cbn [mbind option_bind].
    destruct (decodeElements dec sp n (o + a)) as [rest|] eqn:E; [|discriminate].
    cbn [mbind option_bind]. intros [= <-]. cbn [length]. f_equal. eauto.
Qed.

(** The header is its five unsigned 32-bit fields, read at the offsets
    0, 8, 16, 20 and 24 of the header. *)
Lemma SLAB_HEADER_LAYOUT_decode (b : list byte) (o : Z) :
  decode (snd SLAB_HEADER_LAYOUT) b o =
    (bumpIndex ← readUIntLE b o 4;
     freeListLen ← readUIntLE b (o + 8) 4;
     freeListHead ← readUIntLE b (o + 16) 4;
     root ← readUIntLE b (o + 20) 4;
     leafCount ← readUIntLE b (o + 24) 4;
     Some (VObject [("bumpIndex"%string, VNumber bumpIndex);
                    ("freeListLen"%string, VNumber freeListLen);
                    ("freeListHead"%string, VNumber freeListHead);
                    ("root"%string, VNumber root);
                    ("leafCount"%string, VNumber leafCount)])).
Proof.
  change (decode (snd SLAB_HEADER_LAYOUT) b o) with
    (VObject <$>
       (v1 ← VNumber <$> readUIntLE b o 4;
        r1 ← (v2 ← VNumber <$> readUIntLE b (o + 4 + 4) 4;
              r2 ← (v3 ← VNumber <$> readUIntLE b (o + 4 + 4 + 4 + 4) 4;
                    r3 ← (v4 ← VNumber <$> readUIntLE b (o + 4 + 4 + 4 + 4 + 4) 4;
                          r4 ← (v5 ← VNumber <$> readUIntLE b (o + 4 + 4 + 4 + 4 + 4 + 4) 4;
                                r5 ← Some [];
                                Some (("leafCount"%string, v5) :: r5));
                          Some (("root"%string, v4) :: r4));
                    Some (("freeListHead"%string, v3) :: r3));
              Some (("freeListLen"%string, v2) :: r2));
        Some (("bumpIndex"%string, v1) :: r1))).
  replace (o + 4 + 4 + 4 + 4 + 4 + 4) with (o + 24) by lia.
  replace (o + 4 + 4 + 4 + 4 + 4) with (o + 20) by lia.
  replace (o + 4 + 4 + 4 + 4) with (o + 16) by lia.
  replace (o + 4 + 4) with (o + 8) by lia.
  destruct (readUIntLE b o 4); [|reflexivity].
  destruct (readUIntLE b (o + 8) 4); [|reflexivity].
  destruct (readUIntLE b (o + 16) 4); [|reflexivity].
  destruct (readUIntLE b (o + 20) 4); [|reflexivity].
  destruct (readUIntLE b (o + 24) 4); reflexivity.
Qed.

Ltac reads :=
  repeat match goal with
    | |- context [readUIntLE ?b ?o ?n] =>
        rewrite (readUIntLE_in_range b o n) by (cbn [Z.of_nat Pos.of_succ_nat Pos.succ] in *; lia);
        cbn [fmap option_fmap option_map mbind option_bind]
    end.

Lemma node_decode_ok (b : list byte) (o : Z) :
  0 <= o -> o + 64 <= Z.of_nat (length b) ->
  exists v, decode (snd SLAB_NODE_LAYOUT) b o = Some v.
Proof.
  intros H1 H2.
  Local Opaque readUIntLE slice Z.add Z.leb le_combine.
  cbn. unfold decodeBN, decodePublicKey.
  change (Z.of_nat 4) with 4. change (Z.of_nat 16) with 16. change (Z.of_nat 1) with 1.
  change (Z.of_nat 3) with 3. change (Z.of_nat 32) with 32. change (Z.of_nat 2) with 2.
  change (Z.to_nat 2) with 2%nat. cbn [decodeElements].
  rewrite (readUIntLE_in_range b (o + 0) 4) by (cbn; lia).
  cbn [mbind option_bind].
  set (d := le_combine _). clearbody d.
  destruct d as [|q|q]; [cbn; eauto | | cbn; eauto].
  destruct (1 =? q)%positive.
  { reads. eauto. }
  destruct (2 =? q)%positive.
  { reads.
    Local Transparent Z.leb.
    destruct (Z.leb_spec 0 (o + 4 + 1 + 3 + 16)); [|lia].
    destruct (Z.leb_spec (o + 4 + 1 + 3 + 16 + 32) (Z.of_nat (length b))); [|lia].
    cbn [andb mbind option_bind]. reads. eauto. }
  destruct (3 =? q)%positive.
  { reads. eauto. }
  destruct (4 =? q)%positive; cbn; eauto.
Qed.

Local Transparent Z.add Z.leb.

Lemma readUIntLE_bounds (b : list byte) (o : Z) (n : nat) (x : Z) :
  readUIntLE b o n = Some x -> 0 <= x.
Proof.
  Local Transparent readUIntLE.
  unfold readUIntLE. destruct (_ && _); [|discriminate]. intros [= <-].
  apply le_combine_bound.
Qed.
Local Opaque readUIntLE.

Lemma nodes_decode_ok (b : list byte) (n : nat) :
  forall o, 0 <= o -> o + 64 * Z.of_nat n <= Z.of_nat (length b) ->
  exists vs,
    decodeElements (decode (snd SLAB_NODE_LAYOUT) b) (getSpan (snd SLAB_NODE_LAYOUT) b) n o
    = Some vs.
Proof.
  induction n as [|n IH]; intros o H1 H2; cbn [decodeElements]; [eauto|].
  destruct (node_decode_ok b o) as [v ->]; [lia | lia |].
  change (getSpan (snd SLAB_NODE_LAYOUT) b o) with (Some 64).
  cbn [mbind option_bind].
  destruct (IH (o + 64)) as [vs ->]; [lia | lia |].
  cbn. eauto.
Qed.

Lemma SLAB_LAYOUT_decode_unfold (b : list byte) (o : Z) :
  decode SLAB_LAYOUT b o =
    (header ← decode (snd SLAB_HEADER_LAYOUT) b o;
     count ← readUIntLE b o 4;
     nodes ← decodeElements (decode (snd SLAB_NODE_LAYOUT) b)
                            (getSpan (snd SLAB_NODE_LAYOUT) b)
                            (Z.to_nat count) (o + 32);
     Some (VObject [("header"%string, header); ("nodes"%string, VArray nodes)])).
Proof.
  change (decode SLAB_LAYOUT b o) with
    (VObject <$>
       (v ← decode (snd SLAB_HEADER_LAYOUT) b o;
        fsp ← Some 32;
        rest ← (v2 ← (count ← readUIntLE b (o + fsp + -32) 4;
                      VArray <$> decodeElements (decode (snd SLAB_NODE_LAYOUT) b)
                                   (getSpan (snd SLAB_NODE_LAYOUT) b)
                                   (Z.to_nat count) (o + fsp));
                fsp2 ← (count ← readUIntLE b (o + fsp + -32) 4; Some (count * 64));
                rest2 ← Some [];
                Some (("nodes"%string, v2) :: rest2));
        Some (("header"%string, v) :: rest))).
  destruct (decode (snd SLAB_HEADER_LAYOUT) b o) as [header|]; [|reflexivity].
  cbn [mbind option_bind fmap option_fmap option_map].
  replace (o + 32 + -32) with o by lia.
  destruct (readUIntLE b o 4) as [count|]; [|reflexivity].
  cbn [mbind option_bind fmap option_fmap option_map].
  destruct (decodeElements _ _ _ _); reflexivity.
Qed.

(** C2, as the code has it.  The count of the node sequence is an offset
    layout on the [bumpIndex] field of the header: a slab that decodes has
    exactly [bumpIndex] nodes, [bumpIndex] being the unsigned 32-bit
    integer at the start of the header, and it does decode whenever the
    buffer holds the header and [bumpIndex] nodes of 64 bytes.  Bytes after
    these nodes are not decoded. *)
Theorem SLAB_LAYOUT_decodes_bumpIndex_nodes (b : list byte) (o : Z) :
  (forall v, decode SLAB_LAYOUT b o = Some v ->
     exists header nodes bumpIndex,
       v = VObject [("header"%string, header); ("nodes"%string, VArray nodes)] /\
       decode (snd SLAB_HEADER_LAYOUT) b o = Some header /\
       readUIntLE b o 4 = Some bumpIndex /\
       Z.of_nat (length nodes) = bumpIndex) /\
  (forall bumpIndex,
     0 <= o ->
     readUIntLE b o 4 = Some bumpIndex ->
     o + 32 + 64 * bumpIndex <= Z.of_nat (length b) ->
     exists v, decode SLAB_LAYOUT b o = Some v).
Proof.
  split.
  - intros v. rewrite SLAB_LAYOUT_decode_unfold.
    destruct (decode (snd SLAB_HEADER_LAYOUT) b o) as [header|]; [|discriminate].
    cbn [mbind option_bind].
    destruct (readUIntLE b o 4) as [count|] eqn:Ec; [|discriminate].
    cbn [mbind option_bind].
    destruct (decodeElements _ _ _ _) as [nodes|] eqn:En; [|discriminate].
    cbn [mbind option_bind]. intros [= <-].
    exists header, nodes, count. repeat split.
    apply decodeElements_length in En. rewrite En.
    apply readUIntLE_bounds in Ec. lia.
  - intros bumpIndex Ho Ec Hlen. rewrite SLAB_LAYOUT_decode_unfold.
    pose proof (readUIntLE_bounds _ _ _ _ Ec) as Hb.
    rewrite SLAB_HEADER_LAYOUT_decode, Ec. cbn [mbind option_bind].
    rewrite (readUIntLE_in_range b (o + 8) 4) by (cbn; lia).
    rewrite (readUIntLE_in_range b (o + 16) 4) by (cbn; lia).
    rewrite (readUIntLE_in_range b (o + 20) 4) by (cbn; lia).
    rewrite (readUIntLE_in_range b (o + 24) 4) by (cbn; lia).
    cbn [mbind option_bind].
    destruct (nodes_decode_ok b (Z.to_nat bumpIndex) (o + 32)) as [vs ->];
      [lia | lia |].
    cbn. eauto.
Qed.

End SlabLayoutFacts.

Lemma SLAB_LAYOUT_decodes_bumpIndex_nodes_witness :
  exists header nodes bumpIndex,
    oneLeafSlab_decoded
    = BufferLayout.VObject
        [("header"%string, header); ("nodes"%string, BufferLayout.VArray nodes)] /\
    BufferLayout.decode (snd SlabLayout.SLAB_HEADER_LAYOUT) SlabLayout.oneLeafSlab 0
      = Some header /\
    BufferLayout.readUIntLE SlabLayout.oneLeafSlab 0 4 = Some bumpIndex /\
    Z.of_nat (length nodes) = bumpIndex.
Proof.
  destruct (SLAB_LAYOUT_decodes_bumpIndex_nodes SlabLayout.oneLeafSlab 0) as [H _].
  apply H. exact SLAB_LAYOUT_decode_oneLeafSlab.
Defined.

(** C2, as stated, fails: two slabs with the same 128 bytes after the
    header, room for two nodes, decode to different numbers of nodes, none
    for the empty slab and one for the slab with one resting order. *)
Lemma SLAB_LAYOUT_node_count_not_from_length :
  length SlabLayout.emptySlab = length SlabLayout.oneLeafSlab /\
  (Z.of_nat (length SlabLayout.oneLeafSlab) - 32) / 64 = 2 /\
  SlabLayout.nodeCount
    (BufferLayout.decode SlabLayout.SLAB_LAYOUT SlabLayout.emptySlab 0) = Some 0%nat /\
  SlabLayout.nodeCount
    (BufferLayout.decode SlabLayout.SLAB_LAYOUT SlabLayout.oneLeafSlab 0) = Some 1%nat.
Proof. repeat split; vm_compute; reflexivity. Qed.

(** C6, as the code has it.  The header has five unsigned 32-bit fields,
    [bumpIndex], [freeListLen], [freeListHead], [root] and [leafCount], and
    three 4-byte zero spacers (after [bumpIndex], after [freeListLen] and
    after [leafCount]); it spans 32 bytes, the fields sit at the offsets 0,
    8, 16, 20 and 24 and decode from there, and the node array follows. *)
Theorem SLAB_HEADER_LAYOUT_shape :
  let fields := BufferLayout.fieldsOf (snd SlabLayout.SLAB_HEADER_LAYOUT) in
  omap fst (filter (fun fd => SlabLayout.isU32 fd = true) fields)
    = ["bumpIndex"; "freeListLen"; "freeListHead"; "root"; "leafCount"]%string /\
  length (filter (fun fd => SlabLayout.isSpacer fd = true) fields) = 3%nat /\
  length fields = 8%nat /\
  BufferLayout.span (snd SlabLayout.SLAB_HEADER_LAYOUT) = Some 32%nat /\
  map (BufferLayout.offsetOf (snd SlabLayout.SLAB_HEADER_LAYOUT))
      ["bumpIndex"; "freeListLen"; "freeListHead"; "root"; "leafCount"]%string
    = [Some 0; Some 8; Some 16; Some 20; Some 24] /\
  BufferLayout.fieldsOf SlabLayout.SLAB_LAYOUT
    = [SlabLayout.SLAB_HEADER_LAYOUT;
       (Some "nodes"%string,
        BufferLayout.Sequence (snd SlabLayout.SLAB_NODE_LAYOUT)
          (inr (BufferLayout.UInt 4, -32)))] /\
  (forall b o,
     BufferLayout.decode (snd SlabLayout.SLAB_HEADER_LAYOUT) b o =
       (bumpIndex ← BufferLayout.readUIntLE b o 4;
        freeListLen ← BufferLayout.readUIntLE b (o + 8) 4;
        freeListHead ← BufferLayout.readUIntLE b (o + 16) 4;
        root ← BufferLayout.readUIntLE b (o + 20) 4;
        leafCount ← BufferLayout.readUIntLE b (o + 24) 4;
        Some (BufferLayout.VObject
                [("bumpIndex"%string, BufferLayout.VNumber bumpIndex);
                 ("freeListLen"%string, BufferLayout.VNumber freeListLen);
                 ("freeListHead"%string, BufferLayout.VNumber freeListHead);
                 ("root"%string, BufferLayout.VNumber root);
                 ("leafCount"%string, BufferLayout.VNumber leafCount)]))).
Proof.
  repeat split; try reflexivity.
  intros b o. apply SLAB_HEADER_LAYOUT_decode.
Qed.

(** C6, as stated, fails: the header has not four unsigned 32-bit fields
    with two spacers. *)
Lemma SLAB_HEADER_LAYOUT_not_four_and_two :
  let fields := BufferLayout.fieldsOf (snd SlabLayout.SLAB_HEADER_LAYOUT) in
  ~ (length (filter (fun fd => SlabLayout.isU32 fd = true) fields) = 4%nat /\
     length (filter (fun fd => SlabLayout.isSpacer fd = true) fields) = 2%nat).
Proof. intros fields [H _]. vm_compute in H. discriminate. Qed.

(** ** The pool schema *)

Example encodePoolRequest_swap :
  Pool.encodePoolRequest 4
    (Pool.transact (Pool.swap {| Pool.quantities := [1; -1] |}))
  = Some (map byte.of_Z
            [0xcf; 0xc4; 0x1c; 0xcd; 0xbd; 0x6c; 0x0a; 0x22;
             2; 2; 2; 0; 0; 0;
             1; 0; 0; 0; 0; 0; 0; 0;
             255; 255; 255; 255; 255; 255; 255; 255]).
Proof. vm_compute. reflexivity. Qed.

Section BorshFacts.

Import Borsh.

Lemma uint_roundtrips (span : nat) :
  Roundtrips (uint span) (fun v => 0 <= v < 2 ^ (8 * Z.of_nat span)).
Proof.
  intros v Hv. exists (le_split span v). split.
  - cbn. destruct (Z.leb_spec 0 v); [|lia].
    destruct (Z.ltb_spec v (2 ^ (8 * Z.of_nat span))); [|lia]. reflexivity.
  - intros rest. cbn.
    rewrite length_app, length_le_split.
    destruct (Nat.leb_spec span (span + length rest)); [|lia].
    pose proof (length_le_split span v) as Hlen.
    pose proof (le_combine_split span v) as Hcs.
    rewrite (Z.mul_comm (Z.of_nat span) 8) in Hcs.
    set (bs := le_split span v) in *.
    assert (E1 : firstn span (bs ++ rest) = bs)
      by (rewrite <- Hlen; apply take_app_length).
    assert (E2 : skipn span (bs ++ rest) = rest)
      by (rewrite <- Hlen; apply drop_app_length).
    rewrite E1, E2, Hcs.
    rewrite Z.mod_small by lia. reflexivity.
Qed.

Lemma unsigned_roundtrips (span : nat) :
  Roundtrips (unsigned span) (fun v => 0 <= v < 2 ^ (8 * Z.of_nat span)).
Proof.
  intros v Hv. destruct (uint_roundtrips span v Hv) as (bytes & Eenc & Edec).
  exists bytes. split; [|exact Edec].
  cbn in Eenc |- *. destruct (_ && _); [|discriminate].
  rewrite Z.mod_small by lia. exact Eenc.
Qed.

Lemma int_roundtrips (span : nat) :
  (0 < span)%nat ->
  Roundtrips (int span)
    (fun v => - 2 ^ (8 * Z.of_nat span - 1) <= v < 2 ^ (8 * Z.of_nat span - 1)).
Proof.
  intros Hs v Hv.
  assert (Hp : 2 ^ (8 * Z.of_nat span) = 2 * 2 ^ (8 * Z.of_nat span - 1)).
  { rewrite <- Z.pow_succ_r by lia. f_equal. lia. }
  assert (Hpos : 0 < 2 ^ (8 * Z.of_nat span - 1)) by (apply Z.pow_pos_nonneg; lia).
  set (u := v mod 2 ^ (8 * Z.of_nat span)).
  assert (Hu : 0 <= u < 2 ^ (8 * Z.of_nat span)) by (apply Z.mod_pos_bound; lia).
  destruct (uint_roundtrips span u Hu) as (bytes & Eenc & Edec).
  exists (le_split span u). split.
  - reflexivity.
  - intros rest.
    assert (Eb : bytes = le_split span u).
    { cbn in Eenc. destruct (_ && _); congruence. }
    subst bytes.
    change (decode (int span) (le_split span u ++ rest))
      with ('(u0, rest0) ← decode (uint span) (le_split span u ++ rest);
            Some (if u0 <? 2 ^ (8 * Z.of_nat span - 1) then u0
                  else u0 - 2 ^ (8 * Z.of_nat span), rest0)).
    rewrite Edec. cbn [mbind option_bind].
    f_equal. f_equal.
    destruct (Z.ltb_spec u (2 ^ (8 * Z.of_nat span - 1))) as [Hlt|Hge].
    + destruct (Z.lt_ge_cases v 0) as [Hneg|Hnn].
      * exfalso. unfold u in Hlt.
        rewrite <- (Z.mod_add v 1) in Hlt by lia.
        rewrite Z.mod_small in Hlt by lia. lia.
      * unfold u. apply Z.mod_small. lia.
    + destruct (Z.lt_ge_cases v 0) as [Hneg|Hnn].
      * unfold u. rewrite <- (Z.mod_add v 1) by lia.
        rewrite Z.mod_small by lia. lia.
      * exfalso. unfold u in Hge. rewrite Z.mod_small in Hge by lia. lia.
Qed.

Lemma pair_roundtrips {A B : Type} (la : Layout A) (lb : Layout B)
    (va : A -> Prop) (vb : B -> Prop) :
  Roundtrips la va -> Roundtrips lb vb ->
  Roundtrips (pair la lb) (fun '(a, b) => va a /\ vb b).
Proof.
  intros Ha Hb [a b] [Hva Hvb].
  destruct (Ha a Hva) as (x & Ex & Dx). destruct (Hb b Hvb) as (y & Ey & Dy).
  exists (x ++ y). split.
  - cbn. rewrite Ex, Ey. reflexivity.
  - intros rest. cbn. rewrite <- app_assoc, Dx. cbn. rewrite Dy. reflexivity.
Qed.

Lemma imap_roundtrips {A B : Type} (f : A -> B) (g : B -> A) (l : Layout A)
    (va : A -> Prop) (vb : B -> Prop) :
  Roundtrips l va ->
  (forall b, vb b -> va (g b) /\ f (g b) = b) ->
  Roundtrips (imap f g l) vb.
Proof.
  intros Hl Hfg b Hb. destruct (Hfg b Hb) as [Hva Efg].
  destruct (Hl (g b) Hva) as (x & Ex & Dx).
  exists x. split; [exact Ex|].
  intros rest. cbn. rewrite Dx. cbn. now rewrite Efg.
Qed.

Lemma encodeAll_decodeN {A : Type} (el : Layout A) (va : A -> Prop) :
  Roundtrips el va ->
  forall vs, Forall va vs ->
    exists bytes, encodeAll el vs = Some bytes /\
                  forall rest, decodeN el (length vs) (bytes ++ rest) = Some (vs, rest).
Proof.
  intros Hel vs Hvs. induction Hvs as [|v vs Hv Hvs IH].
  - exists []. split; [reflexivity|]. intros rest. reflexivity.
  - destruct (Hel v Hv) as (x & Ex & Dx). destruct IH as (y & Ey & Dy).
    exists (x ++ y). split.
    + cbn. rewrite Ex, Ey. reflexivity.
    + intros rest. cbn. rewrite <- app_assoc, Dx. cbn. rewrite Dy. reflexivity.
Qed.

Lemma vec_roundtrips {A : Type} (lengthSpan : nat) (el : Layout A) (va : A -> Prop) :
  Roundtrips el va ->
  Roundtrips (vec lengthSpan el)
    (fun vs => Z.of_nat (length vs) < 2 ^ (8 * Z.of_nat lengthSpan) /\ Forall va vs).
Proof.
  intros Hel vs [Hlen Hvs].
  destruct (uint_roundtrips lengthSpan (Z.of_nat (length vs))) as (n & En & Dn); [lia|].
  destruct (encodeAll_decodeN el va Hel vs Hvs) as (body & Eb & Db).
  exists (n ++ body). split.
  - change (encode (vec lengthSpan el) vs)
      with (n0 ← encode (uint lengthSpan) (Z.of_nat (length vs));
            body0 ← encodeAll el vs; Some (n0 ++ body0)).
    rewrite En, Eb. reflexivity.
  - intros rest.
    change (decode (vec lengthSpan el) ((n ++ body) ++ rest))
      with ('(n0, rest0) ← decode (uint lengthSpan) ((n ++ body) ++ rest);
            decodeN el (Z.to_nat n0) rest0).
    rewrite <- app_assoc, Dn. cbn [mbind option_bind].
    rewrite Nat2Z.id. apply Db.
Qed.

Lemma u8_discriminant (d : Z) :
  0 <= d < 256 ->
  exists bytes, encode u8 d = Some bytes /\
                forall rest, decode u8 (bytes ++ rest) = Some (d, rest).
Proof. intros Hd. apply (uint_roundtrips 1 d). cbn. lia. Qed.

Lemma rustEnum_roundtrips {A B C : Type} (la : Layout A) (lb : Layout B) (lc : Layout C)
    (va : A -> Prop) (vb : B -> Prop) (vc : C -> Prop) :
  Roundtrips la va -> Roundtrips lb vb -> Roundtrips lc vc ->
  Roundtrips (rustEnum la lb lc)
    (fun v => match v with
              | variant0 a => va a
              | variant1 b => vb b
              | variant2 c => vc c
              end).
Proof.
  intros Ha Hb Hc [a|b|c] Hv.
  - destruct (u8_discriminant 0) as (d & Ed & Dd); [lia|].
    destruct (Ha a Hv) as (x & Ex & Dx). exists (d ++ x). split.
    + change (encode (rustEnum la lb lc) (variant0 a))
        with (d0 ← encode u8 0; x0 ← encode la a; Some (d0 ++ x0)).
      rewrite Ed, Ex. reflexivity.
    + intros rest. unfold rustEnum. cbn [decode].
      rewrite <- app_assoc, Dd. cbn [mbind option_bind Z.eqb].
      rewrite Dx. reflexivity.
  - destruct (u8_discriminant 1) as (d & Ed & Dd); [lia|].
    destruct (Hb b Hv) as (x & Ex & Dx). exists (d ++ x). split.
    + change (encode (rustEnum la lb lc) (variant1 b))
        with (d0 ← encode u8 1; x0 ← encode lb b; Some (d0 ++ x0)).
      rewrite Ed, Ex. reflexivity.
    + intros rest. unfold rustEnum. cbn [decode].
      rewrite <- app_assoc, Dd. cbn [mbind option_bind Z.eqb Pos.eqb].
      rewrite Dx. reflexivity.
  - destruct (u8_discriminant 2) as (d & Ed & Dd); [lia|].
    destruct (Hc c Hv) as (x & Ex & Dx). exists (d ++ x). split.
    + change (encode (rustEnum la lb lc) (variant2 c))
        with (d0 ← encode u8 2; x0 ← encode lc c; Some (d0 ++ x0)).
      rewrite Ed, Ex. reflexivity.
    + intros rest. unfold rustEnum. cbn [decode].
      rewrite <- app_assoc, Dd. cbn [mbind option_bind Z.eqb Pos.eqb].
      rewrite Dx. reflexivity.
Qed.

Lemma tagged_roundtrips {A : Type} (tag : Z) (l : Layout A) (va : A -> Prop) :
  0 <= tag < 2 ^ 64 ->
  Roundtrips l va -> Roundtrips (tagged tag l) va.
Proof.
  intros Ht Hl v Hv.
  destruct (unsigned_roundtrips 8 tag) as (t & Et & Dt); [cbn; lia|].
  destruct (Hl v Hv) as (x & Ex & Dx). exists (t ++ x). split.
  - change (encode (tagged tag l) v)
      with (t0 ← encode u64 tag; x0 ← encode l v; Some (t0 ++ x0)).
    unfold u64. rewrite Et, Ex. reflexivity.
  - intros rest.
    change (decode (tagged tag l) ((t ++ x) ++ rest))
      with ('(t0, rest0) ← decode (unsigned 8) ((t ++ x) ++ rest);
            if t0 =? tag then decode l rest0 else None).
    rewrite <- app_assoc, Dt. cbn [mbind option_bind].
    rewrite Z.eqb_refl. apply Dx.
Qed.

End BorshFacts.

Section PoolFacts.

Variable lengthSpan : nat.

Lemma Basket_layout_roundtrips :
  Roundtrips (Pool.Basket_layout lengthSpan) (Pool.validBasket lengthSpan).
Proof.
  eapply imap_roundtrips.
  - apply vec_roundtrips. apply (int_roundtrips 8). lia.
  - intros [qs] [H1 H2]. split; [split; assumption | reflexivity].
Qed.

Lemma u64_roundtrips : Roundtrips Borsh.u64 (fun v => 0 <= v < 2 ^ 64).
Proof. exact (unsigned_roundtrips 8). Qed.

Lemma PoolAction_layout_roundtrips :
  Roundtrips (Pool.PoolAction_layout lengthSpan) (Pool.validAction lengthSpan).
Proof.
  eapply imap_roundtrips.
  - apply (rustEnum_roundtrips _ _ _ _ _ _
             u64_roundtrips u64_roundtrips Basket_layout_roundtrips).
  - intros [v|v|b] Hv; (split; [exact Hv | reflexivity]).
Qed.

Lemma InitializePoolRequest_layout_roundtrips :
  Roundtrips Pool.InitializePoolRequest_layout Pool.validInitialize.
Proof.
  eapply imap_roundtrips.
  - apply pair_roundtrips; [apply (uint_roundtrips 1)|].
    apply pair_roundtrips; [apply (uint_roundtrips 1) | apply (uint_roundtrips 2)].
  - intros [n a c] (H1 & H2 & H3). cbn in *. repeat split; lia.
Qed.

Lemma PoolRequest_layout_roundtrips :
  Roundtrips (Pool.PoolRequest_layout lengthSpan) (Pool.validRequest lengthSpan).
Proof.
  apply tagged_roundtrips; [unfold Pool.POOL_REQUEST_TAG; lia|].
  eapply imap_roundtrips.
  - apply (rustEnum_roundtrips _ _ _ _ _ _
             InitializePoolRequest_layout_roundtrips
             PoolAction_layout_roundtrips PoolAction_layout_roundtrips).
  - intros [i|a|a] Hv; (split; [exact Hv | reflexivity]).
Qed.

End PoolFacts.

(** C9.  A request whose fields are in the range of their layouts (any of
    [initialize], [getBasket], [transact], with any of [create], [redeem],
    [swap] inside) and whose encoding fits the 1000 bytes of the encode
    buffer is encoded, and decoding the encoding gives the request back. *)
Theorem decodePoolRequest_encodePoolRequest (lengthSpan : nat) (r : Pool.PoolRequest) :
  Pool.validRequest lengthSpan r ->
  (forall bytes,
     Borsh.encode (Pool.PoolRequest_layout lengthSpan) r = Some bytes ->
     (length bytes <= 1000)%nat) ->
  exists data,
    Pool.encodePoolRequest lengthSpan r = Some data /\
    Pool.decodePoolRequest lengthSpan data = Some r.
Proof.
  intros Hv Hfit.
  destruct (PoolRequest_layout_roundtrips lengthSpan r Hv) as (bytes & E & D).
  exists bytes. unfold Pool.encodePoolRequest, Pool.decodePoolRequest.
  rewrite E. cbn [mbind option_bind].
  destruct (Nat.leb_spec (length bytes) 1000) as [_|Hgt];
    [|specialize (Hfit bytes E); lia].
  split; [reflexivity|].
  specialize (D []). rewrite app_nil_r in D. rewrite D. reflexivity.
Qed.

Lemma decodePoolRequest_encodePoolRequest_witness :
  exists data,
    Pool.encodePoolRequest 4
      (Pool.transact (Pool.swap {| Pool.quantities := [1; -1] |})) = Some data /\
    Pool.decodePoolRequest 4 data
      = Some (Pool.transact (Pool.swap {| Pool.quantities := [1; -1] |})).
Proof.
  apply (decodePoolRequest_encodePoolRequest 4
           (Pool.transact (Pool.swap {| Pool.quantities := [1; -1] |}))).
  - split; [vm_compute; reflexivity|].
    repeat constructor; vm_compute; congruence.
  - intros bytes E. vm_compute in E. injection E as <-. vm_compute. lia.
Defined.

(** ** [isPoolState] *)

Lemma Buffer_equals_eq (a b : list byte) :
  Pool.Buffer_equals a b = true <-> a = b.
Proof.
  revert b. induction a as [|x a IH]; intros [|y b]; cbn; split;
    try congruence; try discriminate.
  - intros H. apply andb_prop in H. destruct H as [H1 H2].
    apply Byte.byte_dec_bl in H1. apply IH in H2. congruence.
  - intros [= -> ->]. apply andb_true_intro. split.
    + now apply Byte.byte_dec_lb.
    + now apply IH.
Qed.

Lemma slice_0_8 (data : list byte) : BufferLayout.slice data 0 8 = firstn 8 data.
Proof.
  unfold BufferLayout.slice. cbn [Z.ltb Z.compare].
  rewrite (Z.min_l 0) by lia. change (Z.to_nat 0) with 0%nat.
  rewrite skipn_O, Z.sub_0_r.
  destruct (Z.le_ge_cases 8 (Z.of_nat (length data))) as [H|H].
  - rewrite Z.min_l by lia. reflexivity.
  - rewrite Z.min_r by lia. rewrite Nat2Z.id.
    rewrite firstn_all. symmetry. apply firstn_all2. lia.
Qed.

(** The test of [isPoolState]: the first 8 bytes are the little-endian
    [POOL_REQUEST_TAG]. *)
Lemma isPoolState_iff (data : list byte) :
  Pool.isPoolState data = true <->
  firstn 8 data = Pool.toBuffer_le Pool.POOL_REQUEST_TAG.
Proof.
  unfold Pool.isPoolState. rewrite Buffer_equals_eq, slice_0_8. reflexivity.
Qed.

(** The [PoolState] layout, tagged with [POOL_STATE_TAG], rejects all that
    [isPoolState] accepts. *)
Lemma isPoolState_not_PoolState {A : Type} (payload : Borsh.Layout A) (data : list byte) :
  Pool.isPoolState data = true ->
  Borsh.decode (Borsh.tagged Pool.POOL_STATE_TAG payload) data = None.
Proof.
  rewrite isPoolState_iff. intros E.
  change (Borsh.decode (Borsh.tagged Pool.POOL_STATE_TAG payload) data)
    with ('(t, rest) ← Borsh.decode (Borsh.uint 8) data;
          if t =? Pool.POOL_STATE_TAG then Borsh.decode payload rest else None).
  cbn [Borsh.decode Borsh.uint].
  destruct (8 <=? length data)%nat; [|reflexivity].
  cbn [mbind option_bind]. rewrite E. vm_compute. reflexivity.
Qed.

(** C5, at a failing input.  A buffer that starts with the little-endian
    [POOL_STATE_TAG] is not accepted by [isPoolState], and one that starts
    with the little-endian [POOL_REQUEST_TAG] is. *)
Theorem isPoolState_tests_request_tag :
  let stateData := Pool.toBuffer_le Pool.POOL_STATE_TAG ++ repeat Byte.x00 32 in
  let requestData := Pool.toBuffer_le Pool.POOL_REQUEST_TAG ++ repeat Byte.x00 32 in
  Pool.hasPoolStateTag stateData = true /\
  Pool.isPoolState stateData = false /\
  Pool.hasPoolStateTag requestData = false /\
  Pool.isPoolState requestData = true.
Proof. repeat split; vm_compute; reflexivity. Qed.

(** * Further properties *)

(** ** [divideBnToNumber] *)

Lemma BN_toNumber_is_Some (a : Z) :
  0 <= a -> (is_Some (BN.toNumber a) <-> a < 2 ^ 53).
Proof.
  intros Ha. unfold BN.toNumber. rewrite Z.abs_eq by exact Ha.
  destruct (Z.ltb_spec a (2 ^ 53)); split; intros H'; try lia; eauto.
  destruct H' as [x Hx]. discriminate.
Qed.

(** X1.  For a non-negative numerator and a positive denominator,
    [divideBnToNumber] returns exactly when the integer quotient and the
    reduced denominator fit in 53 bits; when the denominator divides the
    numerator, what it returns is the quotient, exactly; with a zero
    denominator it throws. *)
Theorem divideBnToNumber_returns_iff (n d : Z) :
  0 <= n -> 0 < d ->
  (is_Some (divideBnToNumber n d) <->
     n / d < 2 ^ 53 /\ d / Z.gcd (n mod d) d < 2 ^ 53) /\
  (n mod d = 0 -> n / d < 2 ^ 53 ->
   exists v, divideBnToNumber n d = Some v /\
             Number.isFinite v = true /\
             (Number.value v == inject_Z n / inject_Z d)%Q) /\
  divideBnToNumber n 0 = None.
Proof.
  intros Hn Hd. split; [|split].
  - rewrite divideBnToNumber_parts by assumption.
    pose proof (reducedParts_exact n d Hd) as Hx. unfold reducedParts in *.
    set (g := Z.gcd (n mod d) d) in *. destruct Hx as (_ & _ & _ & Hab).
    assert (Hq : 0 <= n / d) by (apply Z.div_pos; lia).
    pose proof (BN_toNumber_is_Some (n / d) Hq) as Iq.
    pose proof (BN_toNumber_is_Some (n mod d / g) ltac:(lia)) as Ia.
    pose proof (BN_toNumber_is_Some (d / g) ltac:(lia)) as Ib.
    split.
    + intros [v Hv].
      destruct (BN.toNumber (n / d)) as [q'|]; [|discriminate].
      destruct (BN.toNumber (n mod d / g)) as [a'|]; [|discriminate].
      destruct (BN.toNumber (d / g)) as [b'|]; [|discriminate].
      split; [apply Iq | apply Ib]; eauto.
    + intros [H1 H2].
      destruct (proj2 Iq H1) as [q' ->].
      destruct (proj2 Ia ltac:(lia)) as [a' ->].
      destruct (proj2 Ib H2) as [b' ->]. cbn. eauto.
  - intros Hr Hq. exists (Number.ofZ (n / d)).
    split; [now apply divideBnToNumber_exact|].
    assert (Hq0 : 0 <= n / d) by (apply Z.div_pos; lia).
    destruct (Number_ofZ_exact (n / d)) as (Hf & Hval & _);
      [rewrite Z.abs_eq by lia; exact Hq|].
    split; [exact Hf|]. rewrite Hval.
    assert (HE : n = d * (n / d)) by (apply Z.div_exact; lia).
    rewrite HE at 2. rewrite inject_Z_mult. field.
    change 0%Q with (inject_Z 0). rewrite inject_Z_injective. lia.
  - reflexivity.
Qed.

Lemma divideBnToNumber_returns_iff_witness :
  (is_Some (divideBnToNumber 7 2) <->
   7 / 2 < 2 ^ 53 /\ 2 / Z.gcd (7 mod 2) 2 < 2 ^ 53) /\
  exists v, divideBnToNumber 12 4 = Some v /\
            Number.isFinite v = true /\
            (Number.value v == inject_Z 12 / inject_Z 4)%Q.
Proof.
  split.
  - destruct (divideBnToNumber_returns_iff 7 2) as [H _]; [lia | lia | exact H].
  - destruct (divideBnToNumber_returns_iff 12 4) as (_ & H & _); [lia | lia |].
    apply H; [reflexivity | reflexivity].
Defined.

(** Lots do not always survive the way to a number and back: the number
    is the binary64 value next to the size or price, and the product with
    the power of ten is rounded again. *)
Example baseSizeNumberToLots_of_LotsToNumber_off_by_one :
  (v ← Market.baseSizeLotsToNumber (mkMarket 1 1 1 1) 5629522878502507;
   Market.baseSizeNumberToLots (mkMarket 1 1 1 1) v)
  = Some 5629522878502508.
Proof. vm_compute. reflexivity. Qed.

Example priceNumberToLots_of_LotsToNumber_off_by_one :
  (v ← Market.priceLotsToNumber (mkMarket 1 1 6 6) 2361482589087439;
   Market.priceNumberToLots (mkMarket 1 1 6 6) v)
  = Some 2361482589087440.
Proof. vm_compute. reflexivity. Qed.

(** ** Quote sizes *)

(** X4.  [quoteSizeNumberToLots(s)] multiplies [s] by [10^quoteDecimals]
    in binary64, rounds the product [p] to the nearest integer number of
    native units (ties upwards) and truncates that downwards to whole quote
    lots; it returns whenever [round(p)] is a non-negative integer below
    [2^53]. *)
Theorem quoteSizeNumberToLots_rounds_then_floors (m : Market.t) (s : Number.t) :
  let L := Market.quoteLotSize (Market._decoded m) in
  let p := Number.mul s (Math.pow10 (Market._quoteSplTokenDecimals m)) in
  0 < L ->
  0 <= Market._quoteSplTokenDecimals m <= 22 ->
  Number.isFinite p = true ->
  0 <= rounded p < 2 ^ 53 ->
  exists lots,
    Market.quoteSizeNumberToLots m s = Some lots /\
    (inject_Z (rounded p) - (1 # 2) <= Number.value p
     < inject_Z (rounded p) + (1 # 2))%Q /\
    lots * L <= rounded p < (lots + 1) * L.
Proof.
  intros L p HL _ Hf Hb.
  destruct (sizeToLots_rounds_then_floors L (Market._quoteSplTokenDecimals m) s HL Hf Hb)
    as (lots & H1 & H2 & H3 & _).
  exists lots. auto.
Qed.

(** The size [0.15] with one decimal and lots of 1: the binary64 product
    is [1.5], rounded to 2 native units; the size [2.57] with lots of 4
    gives 26 native units and 6 lots. *)
Lemma quoteSizeNumberToLots_rounds_then_floors_witness :
  Market.quoteSizeNumberToLots (mkMarket 1 1 1 1) (Number.literal 15 2) = Some 2 /\
  Market.quoteSizeNumberToLots (mkMarket 1 4 1 1) (Number.literal 257 2) = Some 6 /\
  let s := Number.literal 257 2 in
  let p := Number.mul s (Math.pow10 1) in
  exists lots,
    Market.quoteSizeNumberToLots (mkMarket 1 4 1 1) s = Some lots /\
    (inject_Z (rounded p) - (1 # 2) <= Number.value p
     < inject_Z (rounded p) + (1 # 2))%Q /\
    lots * 4 <= rounded p < (lots + 1) * 4.
Proof.
  split; [vm_compute; reflexivity|]. split; [vm_compute; reflexivity|].
  intros s p.
  apply (quoteSizeNumberToLots_rounds_then_floors (mkMarket 1 4 1 1) s).
  - reflexivity.
  - vm_compute. split; discriminate.
  - vm_compute. reflexivity.
  - vm_compute. split; [discriminate | reflexivity].
Defined.

(** ** Prices, to lots *)

(** X6.  [priceNumberToLots(price)] evaluates
    [price * 10^quoteDecimals * baseLotSize / (10^baseDecimals *
    quoteLotSize)] in binary64 (lot sizes of at most 53 bits, at most 22
    decimals).  If the quotient [x] is finite, the result
    is the integer nearest to [x] (ties upwards), when that has at most 53
    bits; if [x] is NaN the result is 0, and if [x] is an infinity the
    call throws.  With a zero quote lot size the denominator is a zero:
    the result is 0 when the numerator is a zero or NaN (as for the price
    0), and the call throws otherwise. *)
Theorem priceNumberToLots_nearest (m : Market.t) (price : Number.t) :
  let numerator :=
    Number.mul (Number.mul price (Math.pow10 (Market._quoteSplTokenDecimals m)))
               (Number.ofZ (Market.baseLotSize (Market._decoded m))) in
  let x :=
    Number.div numerator
      (Number.mul (Math.pow10 (Market._baseSplTokenDecimals m))
                  (Number.ofZ (Market.quoteLotSize (Market._decoded m)))) in
  Z.abs (Market.baseLotSize (Market._decoded m)) < 2 ^ 53 ->
  Z.abs (Market.quoteLotSize (Market._decoded m)) < 2 ^ 53 ->
  0 <= Market._baseSplTokenDecimals m <= 22 ->
  0 <= Market._quoteSplTokenDecimals m <= 22 ->
  (Number.isFinite x = true -> Z.abs (rounded x) < 2 ^ 53 ->
   Market.priceNumberToLots m price = Some (rounded x) /\
   (inject_Z (rounded x) - (1 # 2) <= Number.value x
    < inject_Z (rounded x) + (1 # 2))%Q) /\
  (x = S754_nan -> Market.priceNumberToLots m price = Some 0) /\
  (forall s, x = S754_infinity s -> Market.priceNumberToLots m price = None) /\
  (Market.quoteLotSize (Market._decoded m) = 0 ->
   Number.isFinite (Math.pow10 (Market._baseSplTokenDecimals m)) = true ->
   Market.priceNumberToLots m price
   = match numerator with
     | S754_zero _ | S754_nan => Some 0
     | _ => None
     end).
Proof.
  intros numerator x HL Hq _ _.
  assert (E : Market.priceNumberToLots m price = BN.ofNumber (Math.round x)).
  { unfold Market.priceNumberToLots, BN.toNumber.
    destruct (Z.ltb_spec (Z.abs (Market.baseLotSize (Market._decoded m))) (2 ^ 53));
      [|lia].
    destruct (Z.ltb_spec (Z.abs (Market.quoteLotSize (Market._decoded m))) (2 ^ 53));
      [|lia].
    reflexivity. }
  rewrite E. split; [|split; [|split]].
  - intros Hf Hb. split; [now apply BN_ofNumber_round | apply rounded_bounds].
  - intros ->. reflexivity.
  - intros s ->. reflexivity.
  - intros Hq0 Hp. subst x. rewrite Hq0.
    change (Number.ofZ 0) with (S754_zero false).
    destruct (Math.pow10 (Market._baseSplTokenDecimals m)) as [sp|sp| |sp mp ep];
      try discriminate;
      destruct numerator as [sn|sn| |sn mn en]; reflexivity.
Qed.

(** The price [1.234] with lots of 100 and 10 and 6 decimals each is
    [12.34] price lots, rounded to 12; with a zero quote lot size the
    price 0 gives 0 and the price [1.234] throws. *)
Lemma priceNumberToLots_nearest_witness :
  Market.priceNumberToLots (mkMarket 100 10 6 6) (Number.literal 1234 3) = Some 12 /\
  Market.priceNumberToLots (mkMarket 100 0 6 6) (Number.ofZ 0) = Some 0 /\
  Market.priceNumberToLots (mkMarket 100 0 6 6) (Number.literal 1234 3) = None.
Proof.
  split; [|split].
  - destruct (priceNumberToLots_nearest (mkMarket 100 10 6 6) (Number.literal 1234 3))
      as (H & _); [reflexivity | reflexivity | simpl; lia | simpl; lia |].
    destruct H as [H _]; [vm_compute; reflexivity | vm_compute; reflexivity |].
    rewrite H. vm_compute. reflexivity.
  - destruct (priceNumberToLots_nearest (mkMarket 100 0 6 6) (Number.ofZ 0))
      as (_ & _ & _ & H); [reflexivity | reflexivity | simpl; lia | simpl; lia |].
    rewrite H; [vm_compute; reflexivity | reflexivity | vm_compute; reflexivity].
  - destruct (priceNumberToLots_nearest (mkMarket 100 0 6 6) (Number.literal 1234 3))
      as (_ & _ & _ & H); [reflexivity | reflexivity | simpl; lia | simpl; lia |].
    rewrite H; [vm_compute; reflexivity | reflexivity | vm_compute; reflexivity].
Defined.

(** ** The price of a key *)

(** X9.  The price of an order key is its part above the low 64 bits: a
    key built from a non-negative price and a 64-bit sequence number gives
    the price back, whatever the sequence number, and among non-negative
    keys a larger key never has a smaller price. *)
Theorem getPriceFromKey_high_part (price seq : Z) :
  0 <= price ->
  0 <= seq < 2 ^ 64 ->
  getPriceFromKey (price * 2 ^ 64 + seq) = price /\
  getPriceFromKey (Z.lor (Z.shiftl price 64) seq) = price /\
  (forall k1 k2, 0 <= k1 <= k2 -> getPriceFromKey k1 <= getPriceFromKey k2).
Proof.
  intros _ Hs. unfold getPriceFromKey, BN.ushrn.
  assert (E1 : (price * 2 ^ 64 + seq) / 2 ^ 64 = price).
  { rewrite Z.add_comm, Z.div_add by lia. rewrite Z.div_small by lia. lia. }
  split; [|split].
  - rewrite Z.shiftr_div_pow2 by lia. exact E1.
  - rewrite Z.shiftr_lor, Z.shiftr_shiftl_l by lia.
    rewrite Z.sub_diag, Z.shiftl_0_r.
    rewrite (Z.shiftr_div_pow2 seq) by lia. rewrite Z.div_small by lia.
    apply Z.lor_0_r.
  - intros k1 k2 Hk. rewrite !Z.shiftr_div_pow2 by lia.
    apply Z.div_le_mono; lia.
Qed.

Lemma getPriceFromKey_high_part_witness :
  getPriceFromKey (100 * 2 ^ 64 + 7) = 100.
Proof.
  destruct (getPriceFromKey_high_part 100 7) as [E _]; [lia | lia | exact E].
Defined.

(** ** [getL2] without a limit *)

Lemma getL2_loop_runs_all (depth : Z) (hs : list nat) :
  depth < 0 ->
  forall (nodes : list Slab.node) (pre : list (Z * nat)) (p : Z) (r : nat),
    NoDup (map snd pre ++ r :: hs) ->
    Slab.isLeaf nodes r ->
    Forall (Slab.isLeaf nodes) hs ->
    exists nodes' levels',
      Orderbook.getL2_loop depth (Slab.yields hs) nodes (pre ++ [(p, r)])
        = Some (nodes', levels') /\
      readLevels nodes' levels'
        = readLevels nodes pre
          ++ runs_from p (Orderbook.quantityOf nodes r) (map (Slab.lots nodes) hs).
Proof.
  intros Hd. induction hs as [|h hs IH]; intros nodes pre p r Hnd Hr Hhs.
  - simpl. exists nodes, (pre ++ [(p, r)]). split; [reflexivity|].
    unfold readLevels. now rewrite map_app.
  - inversion Hhs as [|? ? (os & k & o & q & Eh) Hhs']; subst.
    apply NoDup_app in Hnd. destruct Hnd as (Hnd1 & Hnd2 & Hnd3).
    apply NoDup_cons in Hnd3. destruct Hnd3 as [Hr_hs Hnd3].
    apply NoDup_cons in Hnd3. destruct Hnd3 as [Hh_hs Hnd3].
    assert (Hr_pre : r ∉ map snd pre) by (intros Hin; apply (Hnd2 r Hin); left).
    assert (Hlots_h : Slab.lots nodes h = (getPriceFromKey k, q))
      by (unfold Slab.lots; now rewrite Eh).
    cbn [Slab.yields Orderbook.getL2_loop]. rewrite Eh.
    rewrite last_snoc. cbn [map]. rewrite Hlots_h. cbn [runs_from].
    unfold BN.eq. rewrite (Z.eqb_sym p).
    destruct (Z.eqb_spec (getPriceFromKey k) p) as [Ep|Ep].
    + destruct (IH (Orderbook.iadd nodes r q) pre p r) as (nodes' & levels' & E1 & E2).
      * apply NoDup_app. split; [exact Hnd1|]. split.
        -- intros x Hx Hin. apply (Hnd2 x Hx).
           rewrite elem_of_cons in Hin. destruct Hin as [->|Hin]; [left|].
           right. right. exact Hin.
        -- apply NoDup_cons. split; [|exact Hnd3].
           intros Hin. apply Hr_hs. right. exact Hin.
      * now apply isLeaf_iadd.
      * eapply Forall_impl; [exact Hhs'|]. intros x. apply isLeaf_iadd.
      * exists nodes', levels'. split; [exact E1|]. rewrite E2.
        rewrite readLevels_iadd by exact Hr_pre.
        rewrite map_lots_iadd by (intros Hin; apply Hr_hs; right; exact Hin).
        unfold Orderbook.quantityOf. rewrite lots_iadd_eq by exact Hr.
        reflexivity.
    + destruct (Z.eqb_spec (Z.of_nat (length (pre ++ [(p, r)]))) depth) as [Ed|_];
        [lia|].
      destruct (IH nodes (pre ++ [(p, r)]) (getPriceFromKey k) h)
        as (nodes' & levels' & E1 & E2).
      * rewrite map_app. cbn [map snd]. rewrite <- app_assoc. cbn [app].
        apply NoDup_app. split; [exact Hnd1|]. split; [exact Hnd2|].
        apply NoDup_cons. split; [exact Hr_hs|].
        apply NoDup_cons. split; [exact Hh_hs | exact Hnd3].
      * now exists os, k, o, q.
      * exact Hhs'.
      * exists nodes', levels'. split; [exact E1|]. rewrite E2.
        unfold readLevels at 1. rewrite map_app, <- app_assoc. cbn [map app].
        unfold readLevels, Orderbook.quantityOf. rewrite Hlots_h. reflexivity.
Qed.

Lemma getL2_loop_levelsOf (depth : Z) (hs : list nat) (nodes : list Slab.node) :
  NoDup hs ->
  Forall (Slab.isLeaf nodes) hs ->
  exists nodes' levels',
    Orderbook.getL2_loop depth (Slab.yields hs) nodes [] = Some (nodes', levels') /\
    readLevels nodes' levels' = levelsOf depth (map (Slab.lots nodes) hs).
Proof.
  intros Hnd Hhs. unfold levelsOf.
  destruct (Z.ltb_spec depth 0) as [Hneg|Hpos];
    [|now apply getL2_loop_priceLevels].
  destruct hs as [|h hs].
  - exists nodes, []. split; reflexivity.
  - inversion Hhs as [|? ? Hh Hhs']; subst.
    pose proof Hh as (os & k & o & q & Eh).
    cbn [Slab.yields Orderbook.getL2_loop]. rewrite Eh. cbn [last length].
    destruct (Z.eqb_spec (Z.of_nat 0) depth) as [Ed|_]; [lia|].
    destruct (getL2_loop_runs_all depth hs Hneg nodes [] (getPriceFromKey k) h)
      as (nodes' & levels' & E1 & E2); try assumption.
    exists nodes', levels'. split; [exact E1|]. rewrite E2.
    assert (Hlots_h : Slab.lots nodes h = (getPriceFromKey k, q))
      by (unfold Slab.lots; now rewrite Eh).
    cbn [readLevels map app priceLevels].
    unfold Orderbook.quantityOf. rewrite Hlots_h. reflexivity.
Qed.

(** What [getL2] returns, for any depth: the rows of [levelsOf]. *)
Lemma getL2_rows (ob : Orderbook.t) (depth : Z) (hs : list nat)
    (result : list L2Level) (ob' : Orderbook.t) :
  Slab.items (Orderbook.slab ob) (Orderbook.isBids ob) = Slab.yields hs ->
  Orderbook.getL2 ob depth = Some (result, ob') ->
  map rowLots result
  = levelsOf depth (map (Slab.lots (Slab.nodes (Orderbook.slab ob))) hs).
Proof.
  intros Hit. destruct (items_yields_distinct_leaves _ _ _ Hit) as [Hnd Hleaf].
  destruct (getL2_loop_levelsOf depth hs (Slab.nodes (Orderbook.slab ob)) Hnd Hleaf)
    as (nodes' & lv & E1 & E2).
  unfold Orderbook.getL2. rewrite Hit, E1. cbn [mbind option_bind].
  rewrite mapM_readLevels, E2.
  destruct (mapM _ _) as [rows|] eqn:Em; [|discriminate].
  cbn. intros [= <- _]. now apply (mapM_toL2_lots (Orderbook.market ob)).
Qed.

Lemma length_runs_from (ls : list (Z * Z)) :
  forall p q, (length (runs_from p q ls) <= S (length ls))%nat.
Proof.
  induction ls as [|[p' q'] ls IH]; intros p q; simpl; [lia|].
  destruct (p' =? p); [specialize (IH p (q + q')) | specialize (IH p' q'); simpl];
    lia.
Qed.

Lemma length_priceLevels (ls : list (Z * Z)) :
  (length (priceLevels ls) <= length ls)%nat.
Proof.
  destruct ls as [|[p q] ls]; simpl; [lia|]. apply length_runs_from.
Qed.

Lemma sumSizes_runs_from (ls : list (Z * Z)) :
  forall p q, sumSizes (runs_from p q ls) = q + sumSizes ls.
Proof.
  induction ls as [|[p' q'] ls IH]; intros p q; simpl; [lia|].
  destruct (p' =? p); [rewrite IH | simpl; rewrite IH]; lia.
Qed.

Lemma sumSizes_priceLevels (ls : list (Z * Z)) :
  sumSizes (priceLevels ls) = sumSizes ls.
Proof.
  destruct ls as [|[p q] ls]; [reflexivity|]. simpl. apply sumSizes_runs_from.
Qed.

Lemma levelsOf_unlimited (depth : Z) (ls : list (Z * Z)) :
  depth < 0 \/ Z.of_nat (length ls) <= depth ->
  levelsOf depth ls = priceLevels ls.
Proof.
  intros H. unfold levelsOf. destruct (Z.ltb_spec depth 0); [reflexivity|].
  apply firstn_all2. pose proof (length_priceLevels ls). lia.
Qed.

(** X10.  [getL2] has no limit when [depth] is negative, or at least the
    number of leaves: when the traversal hands over the leaves [hs] and
    ends, the rows returned are all price levels of these leaves. *)
Theorem getL2_unlimited (ob : Orderbook.t) (depth : Z) (hs : list nat)
    (result : list L2Level) (ob' : Orderbook.t) :
  depth < 0 \/ Z.of_nat (length hs) <= depth ->
  Slab.items (Orderbook.slab ob) (Orderbook.isBids ob) = Slab.yields hs ->
  Orderbook.getL2 ob depth = Some (result, ob') ->
  map rowLots result
  = priceLevels (map (Slab.lots (Slab.nodes (Orderbook.slab ob))) hs).
Proof.
  intros Hd Hit Hg. rewrite (getL2_rows ob depth hs result ob' Hit Hg).
  apply levelsOf_unlimited. now rewrite length_map.
Qed.

Lemma getL2_unlimited_witness :
  map rowLots [(Number.ofZ 3, Number.ofZ 7, 3, 7); (Number.ofZ 5, Number.ofZ 5, 5, 5)]
  = priceLevels (map (Slab.lots (Slab.nodes slab_3_5_5)) [1; 3; 4]%nat).
Proof.
  destruct (Orderbook.getL2 (book false slab_3_5_5) (-1)) as [[result ob']|] eqn:E;
    [|vm_compute in E; discriminate].
  pose proof (getL2_unlimited (book false slab_3_5_5) (-1) [1; 3; 4]%nat result ob'
                (or_introl eq_refl) eq_refl E) as H.
  vm_compute in E. injection E as <- _. exact H.
Defined.

(** X11.  Aggregation loses no quantity: with no limit in effect, the
    sizes of the rows of [getL2] add up to the quantities of all leaves
    handed over by the traversal. *)
Theorem getL2_conserves_quantity (ob : Orderbook.t) (depth : Z) (hs : list nat)
    (result : list L2Level) (ob' : Orderbook.t) :
  depth < 0 \/ Z.of_nat (length hs) <= depth ->
  Slab.items (Orderbook.slab ob) (Orderbook.isBids ob) = Slab.yields hs ->
  Orderbook.getL2 ob depth = Some (result, ob') ->
  sumSizes (map rowLots result)
  = sumSizes (map (Slab.lots (Slab.nodes (Orderbook.slab ob))) hs).
Proof.
  intros Hd Hit Hg. rewrite (getL2_rows ob depth hs result ob' Hit Hg).
  rewrite levelsOf_unlimited by (now rewrite length_map).
  apply sumSizes_priceLevels.
Qed.

Lemma getL2_conserves_quantity_witness :
  sumSizes (map rowLots [(Number.ofZ 3, Number.ofZ 7, 3, 7); (Number.ofZ 5, Number.ofZ 5, 5, 5)])
  = sumSizes (map (Slab.lots (Slab.nodes slab_3_5_5)) [1; 3; 4]%nat).
Proof.
  destruct (Orderbook.getL2 (book false slab_3_5_5) 20) as [[result ob']|] eqn:E;
    [|vm_compute in E; discriminate].
  assert (Hd : Z.of_nat (length [1; 3; 4]%nat) <= 20) by (vm_compute; discriminate).
  pose proof (getL2_conserves_quantity (book false slab_3_5_5) 20 [1; 3; 4]%nat
                result ob' (or_intror Hd) eq_refl E) as H.
  vm_compute in E. injection E as <- _. exact H.
Defined.

(** ** The order of the rows of [getL2] *)

Section SortedLevels.

Variables le lt : Z -> Z -> Prop.
Hypothesis lt_of_le : forall a b, le a b -> b <> a -> lt a b.
Hypothesis lt_trans : forall a b c, lt a b -> lt b c -> lt a c.

Lemma runs_from_sorted (ls : list (Z * Z)) :
  forall p q,
    StronglySorted (fun a b => le (fst a) (fst b)) ((p, q) :: ls) ->
    StronglySorted (fun a b => lt (fst a) (fst b)) (runs_from p q ls).
Proof.
  induction ls as [|[p' q'] ls IH]; intros p q Hs.
  - simpl. repeat constructor.
  - apply StronglySorted_inv in Hs. destruct Hs as [Hs Hall].
    apply Forall_cons in Hall. destruct Hall as [Hpp' Hall]. cbn [fst] in Hpp'.
    cbn [runs_from]. destruct (Z.eqb_spec p' p) as [->|Hne].
    + apply IH. apply StronglySorted_inv in Hs. destruct Hs as [Hs _].
      constructor; [exact Hs | exact Hall].
    + specialize (IH p' q' Hs).
      pose proof (runs_from_head p' q' ls) as (q'' & tl & E).
      constructor; [exact IH|]. rewrite E in IH |- *.
      apply StronglySorted_inv in IH. destruct IH as [_ Htl].
      apply Forall_cons. split.
      * cbn [fst]. now apply lt_of_le.
      * eapply Forall_impl; [exact Htl|]. cbn [fst]. intros x Hx.
        eapply lt_trans; [|exact Hx]. now apply lt_of_le.
Qed.

Lemma priceLevels_sorted (ls : list (Z * Z)) :
  StronglySorted (fun a b => le (fst a) (fst b)) ls ->
  StronglySorted (fun a b => lt (fst a) (fst b)) (priceLevels ls).
Proof.
  destruct ls as [|[p q] ls]; [constructor|]. apply runs_from_sorted.
Qed.

End SortedLevels.

Lemma StronglySorted_firstn {A : Type} (R : A -> A -> Prop) (n : nat) (l : list A) :
  StronglySorted R l -> StronglySorted R (firstn n l).
Proof.
  intros H. revert n. induction H as [|a l Hl IH Ha]; intros [|n]; simpl;
    try constructor.
  - apply IH.
  - now apply Forall_take.
Qed.

Lemma StronglySorted_map {A B : Type} (R : B -> B -> Prop) (f : A -> B) (l : list A) :
  StronglySorted R (map f l) -> StronglySorted (fun a b => R (f a) (f b)) l.
Proof.
  induction l as [|a l IH]; intros H; [constructor|].
  cbn [map] in H. apply StronglySorted_inv in H. destruct H as [H1 H2].
  constructor; [now apply IH|].
  rewrite Forall_forall in H2. rewrite Forall_forall. intros x Hx. apply H2.
  apply list_elem_of_In. apply in_map. now apply list_elem_of_In.
Qed.

Lemma StronglySorted_map_impl {A B : Type} (R : A -> A -> Prop) (R' : B -> B -> Prop)
    (f : A -> B) (l : list A) :
  (forall a b, In a l -> In b l -> R a b -> R' (f a) (f b)) ->
  StronglySorted R l -> StronglySorted R' (map f l).
Proof.
  intros Himp H. induction H as [|a l Hl IH Ha]; [constructor|].
  cbn [map]. constructor.
  - apply IH. intros x y Hx Hy. apply Himp; now right.
  - rewrite Forall_forall in Ha. rewrite Forall_forall. intros y Hy.
    apply list_elem_of_In, in_map_iff in Hy. destruct Hy as (x & <- & Hx).
    apply Himp; [now left | now right |]. apply Ha. now apply list_elem_of_In.
Qed.

Lemma getPriceFromKey_monotone (a b : Z) :
  a <= b -> getPriceFromKey a <= getPriceFromKey b.
Proof.
  intros H. unfold getPriceFromKey, BN.ushrn.
  rewrite !Z.shiftr_div_pow2 by lia. apply Z.div_le_mono; lia.
Qed.

Lemma lots_price (nodes : list Slab.node) (h : nat) :
  Slab.isLeaf nodes h -> fst (Slab.lots nodes h) = getPriceFromKey (keyOf nodes h).
Proof.
  intros (os & k & o & q & E). unfold Slab.lots, keyOf. now rewrite E.
Qed.

(** X12.  On a well-formed slab the rows of [getL2] are strictly ordered
    by price, for every depth: ascending for asks, descending for bids;
    no price occurs in two rows. *)
Theorem getL2_prices_strictly_ordered (ob : Orderbook.t) (t : tree) (depth : Z)
    (result : list L2Level) (ob' : Orderbook.t) :
  wellFormed (Orderbook.slab ob) t ->
  Orderbook.getL2 ob depth = Some (result, ob') ->
  StronglySorted
    (fun r1 r2 => if Orderbook.isBids ob
                  then fst (rowLots r2) < fst (rowLots r1)
                  else fst (rowLots r1) < fst (rowLots r2)) result.
Proof.
  intros Hwf Hg.
  pose proof (items_wellFormed _ _ (Orderbook.isBids ob) Hwf) as Hit.
  destruct (items_key_order _ _ _ _ Hwf Hit) as [_ Hkeys].
  destruct (items_yields_distinct_leaves _ _ _ Hit) as [_ Hleaf].
  pose proof (getL2_rows ob depth _ result ob' Hit Hg) as Hrows.
  set (hs := inorder (Orderbook.isBids ob) t) in *.
  set (nodes := Slab.nodes (Orderbook.slab ob)) in *.
  assert (Hlv : StronglySorted
                  (fun a b => if Orderbook.isBids ob then fst b < fst a
                              else fst a < fst b)
                  (levelsOf depth (map (Slab.lots nodes) hs))).
  { assert (Hin : forall a, In a hs -> Slab.isLeaf nodes a).
    { intros a Ha. rewrite Forall_forall in Hleaf. apply Hleaf.
      now apply list_elem_of_In. }
    unfold levelsOf. destruct (Orderbook.isBids ob).
    - assert (Hp : StronglySorted (fun a b : Z * Z => fst b <= fst a)
                     (map (Slab.lots nodes) hs)).
      { eapply StronglySorted_map_impl; [|exact Hkeys]. cbn beta.
        intros a b Ha Hb Hab. rewrite !lots_price by auto.
        apply getPriceFromKey_monotone. lia. }
      apply (priceLevels_sorted (fun a b => b <= a) (fun a b => b < a)) in Hp;
        [|intros; lia|intros; lia].
      destruct (depth <? 0); [exact Hp | now apply StronglySorted_firstn].
    - assert (Hp : StronglySorted (fun a b : Z * Z => fst a <= fst b)
                     (map (Slab.lots nodes) hs)).
      { eapply StronglySorted_map_impl; [|exact Hkeys]. cbn beta.
        intros a b Ha Hb Hab. rewrite !lots_price by auto.
        apply getPriceFromKey_monotone. lia. }
      apply (priceLevels_sorted Z.le Z.lt) in Hp; [|intros; lia|intros; lia].
      destruct (depth <? 0); [exact Hp | now apply StronglySorted_firstn]. }
  rewrite <- Hrows in Hlv. apply StronglySorted_map in Hlv.
  destruct (Orderbook.isBids ob); exact Hlv.
Qed.

Lemma getL2_prices_strictly_ordered_witness :
  StronglySorted (fun r1 r2 : L2Level => fst (rowLots r2) < fst (rowLots r1))
    [(Number.ofZ 5, Number.ofZ 5, 5, 5); (Number.ofZ 3, Number.ofZ 7, 3, 7)].
Proof.
  destruct (Orderbook.getL2 (book true slab_3_5_5) 2) as [[result ob']|] eqn:E;
    [|vm_compute in E; discriminate].
  pose proof (getL2_prices_strictly_ordered (book true slab_3_5_5) tree_3_5_5 2
                result ob' slab_3_5_5_wellFormed E) as H.
  vm_compute in E. injection E as <- _. exact H.
Defined.

(** ** What [getL2] leaves behind *)

Lemma sameUpToQuantity_refl (a : option Slab.node) : sameUpToQuantity a a.
Proof. destruct a as [[]|]; simpl; auto. Qed.

Lemma sameUpToQuantity_trans (a b c : option Slab.node) :
  sameUpToQuantity a b -> sameUpToQuantity b c -> sameUpToQuantity a c.
Proof.
  destruct a as [[]|], b as [[]|], c as [[]|]; simpl; intros H1 H2;
    try discriminate; try congruence; intuition congruence.
Qed.

Lemma iadd_same (nodes : list Slab.node) (r : nat) (q : Z) (h : nat) :
  sameUpToQuantity (nodes !! h) (Orderbook.iadd nodes r q !! h).
Proof.
  unfold Orderbook.iadd.
  destruct (nodes !! r) as [[| | os k o q0 | | |]|] eqn:Er;
    try apply sameUpToQuantity_refl.
  destruct (Nat.eq_dec r h) as [->|Hne].
  - rewrite list_lookup_insert_eq by (now apply lookup_lt_Some in Er).
    rewrite Er. simpl. auto.
  - rewrite list_lookup_insert_ne by exact Hne. apply sameUpToQuantity_refl.
Qed.

Lemma length_iadd (nodes : list Slab.node) (r : nat) (q : Z) :
  length (Orderbook.iadd nodes r q) = length nodes.
Proof.
  unfold Orderbook.iadd. destruct (nodes !! r) as [[]|]; try reflexivity.
  apply length_insert.
Qed.

Lemma getL2_loop_frame (depth : Z) (it : Slab.items_t) :
  forall nodes levels nodes' levels',
    Orderbook.getL2_loop depth it nodes levels = Some (nodes', levels') ->
    length nodes' = length nodes /\
    forall h, sameUpToQuantity (nodes !! h) (nodes' !! h).
Proof.
  induction it as [|h rest IH|]; intros nodes levels nodes' levels'.
  - intros [= <- _]. split; [reflexivity | intros; apply sameUpToQuantity_refl].
  - cbn [Orderbook.getL2_loop].
    destruct (nodes !! h) as [[| | os k o q | | |]|]; try discriminate.
    assert (Hstop : Some (nodes, levels) = Some (nodes', levels') ->
                    length nodes' = length nodes /\
                    forall h, sameUpToQuantity (nodes !! h) (nodes' !! h)).
    { intros [= <- _]. split; [reflexivity | intros; apply sameUpToQuantity_refl]. }
    destruct (last levels) as [[p r]|].
    + destruct (BN.eq p (getPriceFromKey k)).
      * intros E. apply IH in E. destruct E as [E1 E2]. split.
        -- now rewrite E1, length_iadd.
        -- intros i. eapply sameUpToQuantity_trans; [apply iadd_same | apply E2].
      * destruct (_ =? depth); [exact Hstop | apply IH].
    + destruct (_ =? depth); [exact Hstop | apply IH].
  - discriminate.
Qed.

(** X13.  A call of [getL2] that returns changes nothing of the order
    book but quantities of leaves: market, side and slab header are the
    same, the node array has the same length, and every slot holds the
    node it held, up to the quantity of a leaf. *)
Theorem getL2_changes_only_quantities (ob : Orderbook.t) (depth : Z)
    (result : list L2Level) (ob' : Orderbook.t) :
  Orderbook.getL2 ob depth = Some (result, ob') ->
  Orderbook.market ob' = Orderbook.market ob /\
  Orderbook.isBids ob' = Orderbook.isBids ob /\
  Slab.header (Orderbook.slab ob') = Slab.header (Orderbook.slab ob) /\
  length (Slab.nodes (Orderbook.slab ob')) = length (Slab.nodes (Orderbook.slab ob)) /\
  forall h, sameUpToQuantity (Slab.nodes (Orderbook.slab ob) !! h)
                             (Slab.nodes (Orderbook.slab ob') !! h).
Proof.
  unfold Orderbook.getL2.
  destruct (Orderbook.getL2_loop _ _ _ _) as [[nodes' levels]|] eqn:El;
    [|discriminate].
  cbn [mbind option_bind]. destruct (mapM _ _) as [rows|]; [|discriminate].
  cbn. intros [= _ <-]. cbn.
  apply getL2_loop_frame in El. destruct El as [E1 E2]. auto.
Qed.

Lemma getL2_changes_only_quantities_witness :
  exists result ob',
    Orderbook.getL2 (book false slab_3_5_5) 2 = Some (result, ob') /\
    Slab.nodes (Orderbook.slab ob') <> Slab.nodes slab_3_5_5 /\
    forall h, sameUpToQuantity (Slab.nodes slab_3_5_5 !! h)
                               (Slab.nodes (Orderbook.slab ob') !! h).
Proof.
  destruct (Orderbook.getL2 (book false slab_3_5_5) 2) as [[result ob']|] eqn:E;
    [|vm_compute in E; discriminate].
  exists result, ob'. split; [reflexivity|]. split.
  - vm_compute in E. injection E as _ <-. vm_compute. discriminate.
  - exact (proj2 (proj2 (proj2 (proj2
      (getL2_changes_only_quantities (book false slab_3_5_5) 2 result ob' E))))).
Defined.

(** ** [getL2] of [market.js], in general *)

(** X14.  [getL2] of [market.js] never returns a row.  When the traversal
    hands over the leaves [hs] and ends, the call returns the empty list
    and leaves the book as it is if there is no leaf or [depth] is 0, and
    throws otherwise. *)
Theorem MarketJs_getL2_outcome (ob : Orderbook.t) (depth : Z) (hs : list nat) :
  Slab.items (Orderbook.slab ob) (Orderbook.isBids ob) = Slab.yields hs ->
  MarketJs.getL2 ob depth
  = if (Nat.eqb (length hs) 0 || (depth =? 0))%bool then Some ([], ob) else None.
Proof.
  intros Hit. destruct (items_yields_distinct_leaves _ _ _ Hit) as [_ Hleaf].
  unfold MarketJs.getL2. rewrite Hit.
  destruct ob as [m b [hd nodes]]. cbn [Orderbook.slab Orderbook.market
    Orderbook.isBids Slab.nodes Slab.header] in *.
  destruct hs as [|h hs]; [reflexivity|].
  inversion Hleaf as [|? ? (os & k & o & q & Eh) Hleaf']; subst.
  cbn [Slab.yields MarketJs.getL2_loop length Nat.eqb orb]. rewrite Eh.
  cbn [last length]. change (Z.of_nat 0) with 0. rewrite (Z.eqb_sym 0 depth).
  destruct (depth =? 0); [reflexivity|]. cbn [app].
  destruct hs as [|h' hs].
  - cbn [Slab.yields MarketJs.getL2_loop mbind option_bind mapM].
    now rewrite MarketJs_toL2_throws.
  - inversion Hleaf' as [|? ? (os' & k' & o' & q' & Eh') _]; subst.
    cbn [Slab.yields MarketJs.getL2_loop]. rewrite Eh'. reflexivity.
Qed.

Lemma MarketJs_getL2_outcome_witness :
  MarketJs.getL2 (book false slab_3_5_5) 1 = None /\
  MarketJs.getL2 (book false slab_3_5_5) 0 = Some ([], book false slab_3_5_5).
Proof.
  split.
  - exact (MarketJs_getL2_outcome (book false slab_3_5_5) 1 [1; 3; 4]%nat eq_refl).
  - exact (MarketJs_getL2_outcome (book false slab_3_5_5) 0 [1; 3; 4]%nat eq_refl).
Defined.

(** ** The nodes of a slab *)

Section SlabNodeFacts.

Import BufferLayout SlabLayout.

Lemma readUIntLE_Some_range (b : list byte) (o : Z) (n : nat) (x : Z) :
  readUIntLE b o n = Some x -> 0 <= o /\ o + Z.of_nat n <= Z.of_nat (length b).
Proof.
  unfold readUIntLE.
  destruct (Z.leb_spec 0 o); [|discriminate].
  destruct (Z.leb_spec (o + Z.of_nat n) (Z.of_nat (length b))); [|discriminate].
  auto.
Qed.

Lemma SLAB_NODE_LAYOUT_decode_unfold (b : list byte) (o : Z) :
  decode (snd SLAB_NODE_LAYOUT) b o =
    (tag ← readUIntLE b o 4;
     if tag =? 0 then Some (VObject [("uninitialized"%string, VObject [])])
     else if tag =? 1 then
       prefixLen ← readUIntLE b (o + 4) 4;
       key ← readUIntLE b (o + 8) 16;
       child0 ← readUIntLE b (o + 24) 4;
       child1 ← readUIntLE b (o + 28) 4;
       Some (VObject [("innerNode"%string,
                       VObject [("prefixLen"%string, VNumber prefixLen);
                                ("key"%string, VBN key);
                                ("children"%string,
                                 VArray [VNumber child0; VNumber child1])])])
     else if tag =? 2 then
       ownerSlot ← readUIntLE b (o + 4) 1;
       key ← readUIntLE b (o + 8) 16;
       owner ← decodePublicKey b (o + 24);
       quantity ← readUIntLE b (o + 56) 8;
       Some (VObject [("leafNode"%string,
                       VObject [("ownerSlot"%string, VNumber ownerSlot);
                                ("key"%string, VBN key);
                                ("owner"%string, owner);
                                ("quantity"%string, VBN quantity)])])
     else if tag =? 3 then
       next ← readUIntLE b (o + 4) 4;
       Some (VObject [("freeNode"%string, VObject [("next"%string, VNumber next)])])
     else if tag =? 4 then Some (VObject [("lastFreeNode"%string, VObject [])])
     else Some (VObject [("tag"%string, VNumber tag);
                         ("content"%string, VBuffer (slice b (o + 4) (o + 64)))])).
Proof.
  Local Opaque readUIntLE slice Z.add Z.leb le_combine.
  cbn. unfold decodeBN, decodePublicKey.
  change (Z.of_nat 4) with 4. change (Z.of_nat 16) with 16. change (Z.of_nat 1) with 1.
  change (Z.of_nat 3) with 3. change (Z.of_nat 32) with 32. change (Z.of_nat 2) with 2.
  change (Z.of_nat 60) with 60.
  change (Z.to_nat 2) with 2%nat. cbn [decodeElements].
  replace (o + 0) with o by lia.
  destruct (readUIntLE b o 4) as [d|]; [|reflexivity].
  cbn [mbind option_bind].
  replace (o + 4 + 60) with (o + 64) by lia.
  destruct d as [|q|q]; [cbn; reflexivity | | cbn; reflexivity].
  change (Z.pos q =? 0) with false. cbn iota.
  change (Z.pos q =? 1) with (q =? 1)%positive.
  change (Z.pos q =? 2) with (q =? 2)%positive.
  change (Z.pos q =? 3) with (q =? 3)%positive.
  change (Z.pos q =? 4) with (q =? 4)%positive.
  rewrite (Pos.eqb_sym 1 q), (Pos.eqb_sym 2 q), (Pos.eqb_sym 3 q), (Pos.eqb_sym 4 q).
  destruct (q =? 1)%positive.
  { cbn beta iota.
    replace (o + 4 + 4 + 16 + 4) with (o + 28) by lia.
    replace (o + 4 + 4 + 16) with (o + 24) by lia.
    replace (o + 4 + 4) with (o + 8) by lia.
    destruct (readUIntLE b (o + 4) 4); [|reflexivity].
    destruct (readUIntLE b (o + 8) 16); [|reflexivity].
    destruct (readUIntLE b (o + 24) 4); [|reflexivity].
    destruct (readUIntLE b (o + 28) 4); reflexivity. }
  destruct (q =? 2)%positive.
  { cbn beta iota.
    replace (o + 4 + 1 + 3 + 16 + 32) with (o + 56) by lia.
    replace (o + 4 + 1 + 3 + 16) with (o + 24) by lia.
    replace (o + 4 + 1 + 3) with (o + 8) by lia.
    replace (o + 24 + 32) with (o + 56) by lia.
    destruct (readUIntLE b (o + 4) 1); [|reflexivity].
    destruct (readUIntLE b (o + 8) 16); [|reflexivity].
    cbn [fmap option_fmap option_map mbind option_bind].
    destruct (_ && _); [|reflexivity].
    destruct (readUIntLE b (o + 56) 8); reflexivity. }
  destruct (q =? 3)%positive.
  { cbn beta iota. destruct (readUIntLE b (o + 4) 4); reflexivity. }
  destruct (q =? 4)%positive; reflexivity.
Qed.

Local Transparent Z.add Z.leb.

Local Transparent readUIntLE slice le_combine.

Lemma readUIntLE_slice (b : list byte) (o : Z) (n : nat) :
  0 <= o -> o + Z.of_nat n <= Z.of_nat (length b) ->
  readUIntLE b o n = Some (le_combine (slice b o (o + Z.of_nat n))).
Proof.
  intros H1 H2. rewrite readUIntLE_in_range by assumption. unfold slice.
  destruct (Z.ltb_spec o 0); [lia|].
  destruct (Z.ltb_spec (o + Z.of_nat n) 0); [lia|].
  rewrite !Z.min_l by lia.
  replace (Z.to_nat (o + Z.of_nat n - o)) with n by lia. reflexivity.
Qed.

Lemma length_slice (b : list byte) (o e : Z) :
  0 <= o <= e ->
  Z.of_nat (length (slice b o e))
  = Z.max 0 (Z.min e (Z.of_nat (length b)) - o).
Proof.
  intros H. unfold slice.
  destruct (Z.ltb_spec o 0); [lia|]. destruct (Z.ltb_spec e 0); [lia|].
  rewrite length_firstn, length_skipn. lia.
Qed.

Local Opaque readUIntLE slice le_combine.

(** X15.  A node decodes exactly when the buffer holds its tag and the
    fields of its variant: 32 bytes for an inner node, 64 for a leaf, 8 for
    a free node and the 4 bytes of the tag for every other tag. *)
Theorem SLAB_NODE_LAYOUT_decode_returns_iff (b : list byte) (o : Z) :
  is_Some (decode (snd SLAB_NODE_LAYOUT) b o) <->
  exists tag, readUIntLE b o 4 = Some tag /\
              o + nodeBytesNeeded tag <= Z.of_nat (length b).
Proof.
  rewrite SLAB_NODE_LAYOUT_decode_unfold. unfold nodeBytesNeeded.
  destruct (readUIntLE b o 4) as [tag|] eqn:Et; cbn [mbind option_bind].
  2:{ split; [intros [v Hv]; discriminate | intros (tag & Ht & _); discriminate]. }
  pose proof (readUIntLE_Some_range _ _ _ _ Et) as Hr. change (Z.of_nat 4) with 4 in Hr.
  assert (Hin : forall o' n, o <= o' -> o' + Z.of_nat n <= Z.of_nat (length b) ->
                  readUIntLE b o' n
                  = Some (le_combine (firstn n (skipn (Z.to_nat o') b)))).
  { intros o' n H1 H2. apply readUIntLE_in_range; lia. }
  split.
  - intros [v Hv]. exists tag. split; [reflexivity|].
    destruct (Z.eqb_spec tag 0) as [->|_]; [cbn; lia|].
    destruct (Z.eqb_spec tag 1) as [->|_].
    { destruct (readUIntLE b (o + 4) 4); [|discriminate].
      destruct (readUIntLE b (o + 8) 16); [|discriminate].
      destruct (readUIntLE b (o + 24) 4); [|discriminate].
      destruct (readUIntLE b (o + 28) 4) eqn:E; [|discriminate].
      apply readUIntLE_Some_range in E. cbn in *. lia. }
    destruct (Z.eqb_spec tag 2) as [->|_].
    { destruct (readUIntLE b (o + 4) 1); [|discriminate].
      destruct (readUIntLE b (o + 8) 16); [|discriminate].
      destruct (decodePublicKey b (o + 24)); [|discriminate].
      destruct (readUIntLE b (o + 56) 8) eqn:E; [|discriminate].
      apply readUIntLE_Some_range in E. cbn in *. lia. }
    destruct (Z.eqb_spec tag 3) as [->|_]; [|lia].
    destruct (readUIntLE b (o + 4) 4) eqn:E; [|discriminate].
    apply readUIntLE_Some_range in E. cbn in *. lia.
  - intros (t0 & [= <-] & Hb).
    destruct (Z.eqb_spec tag 0) as [->|_]; [eauto|].
    destruct (Z.eqb_spec tag 1) as [->|_].
    { rewrite !Hin by (cbn; lia). cbn. eauto. }
    destruct (Z.eqb_spec tag 2) as [->|_].
    { rewrite !Hin by (cbn; lia). unfold decodePublicKey.
      destruct (Z.leb_spec 0 (o + 24)); [|lia].
      destruct (Z.leb_spec (o + 24 + 32) (Z.of_nat (length b))); [|lia].
      cbn. eauto. }
    destruct (Z.eqb_spec tag 3) as [->|_].
    { rewrite !Hin by (cbn; lia). cbn. eauto. }
    destruct (tag =? 4); eauto.
Qed.

(** X16.  The fields of a leaf node: the owner slot is the byte after the
    tag, the key the 16 bytes from offset 8, the owner the 32 bytes from
    offset 24 and the quantity the 8 bytes from offset 56 of the node; the
    three bytes from offset 5 are not read. *)
Theorem SLAB_NODE_LAYOUT_leafNode_fields (b : list byte) (o : Z) :
  readUIntLE b o 4 = Some 2 ->
  o + 64 <= Z.of_nat (length b) ->
  decode (snd SLAB_NODE_LAYOUT) b o
  = Some (VObject
            [("leafNode"%string,
              VObject
                [("ownerSlot"%string, VNumber (le_combine (slice b (o + 4) (o + 5))));
                 ("key"%string, VBN (le_combine (slice b (o + 8) (o + 24))));
                 ("owner"%string, VBuffer (slice b (o + 24) (o + 56)));
                 ("quantity"%string, VBN (le_combine (slice b (o + 56) (o + 64))))])]).
Proof.
  intros Et Hlen. rewrite SLAB_NODE_LAYOUT_decode_unfold, Et.
  apply readUIntLE_Some_range in Et. cbn [mbind option_bind].
  change (2 =? 0) with false. change (2 =? 1) with false. change (2 =? 2) with true.
  cbn iota.
  rewrite (readUIntLE_slice b (o + 4) 1) by (cbn; lia).
  rewrite (readUIntLE_slice b (o + 8) 16) by (cbn; lia).
  rewrite (readUIntLE_slice b (o + 56) 8) by (cbn; lia).
  unfold decodePublicKey.
  destruct (Z.leb_spec 0 (o + 24)); [|lia].
  destruct (Z.leb_spec (o + 24 + 32) (Z.of_nat (length b))); [|lia].
  cbn [andb mbind option_bind].
  replace (o + 4 + Z.of_nat 1) with (o + 5) by (cbn; lia).
  replace (o + 8 + Z.of_nat 16) with (o + 24) by (cbn; lia).
  replace (o + 56 + Z.of_nat 8) with (o + 64) by (cbn; lia).
  replace (o + 24 + 32) with (o + 56) by lia.
  reflexivity.
Qed.

(** X17.  A node whose tag is none of 0 to 4 does not fail to decode: it
    is returned as its tag and the up to 60 bytes that follow it, fewer if
    the buffer ends before. *)
Theorem SLAB_NODE_LAYOUT_unknown_tag (b : list byte) (o tag : Z) :
  readUIntLE b o 4 = Some tag ->
  4 < tag ->
  decode (snd SLAB_NODE_LAYOUT) b o
  = Some (VObject [("tag"%string, VNumber tag);
                   ("content"%string, VBuffer (slice b (o + 4) (o + 64)))]) /\
  Z.of_nat (length (slice b (o + 4) (o + 64)))
  = Z.min 60 (Z.of_nat (length b) - (o + 4)).
Proof.
  intros Et Htag. rewrite SLAB_NODE_LAYOUT_decode_unfold, Et.
  apply readUIntLE_Some_range in Et. change (Z.of_nat 4) with 4 in Et.
  cbn [mbind option_bind].
  destruct (Z.eqb_spec tag 0); [lia|]. destruct (Z.eqb_spec tag 1); [lia|].
  destruct (Z.eqb_spec tag 2); [lia|]. destruct (Z.eqb_spec tag 3); [lia|].
  destruct (Z.eqb_spec tag 4); [lia|].
  split; [reflexivity|]. rewrite length_slice by lia. lia.
Qed.

Lemma decodeElements_S (dec : Z -> option Value) (sp : Z -> option Z) (n : nat)
    (o : Z) :
  decodeElements dec sp (S n) o
  = (v ← dec o; a ← sp o; rest ← decodeElements dec sp n (o + a); Some (v :: rest)).
Proof. reflexivity. Qed.

Lemma decodeElements_last_tag (b : list byte) (k : nat) :
  forall o vs,
    decodeElements (decode (snd SLAB_NODE_LAYOUT) b) (getSpan (snd SLAB_NODE_LAYOUT) b)
                   (S k) o = Some vs ->
    o + 64 * Z.of_nat k + 4 <= Z.of_nat (length b).
Proof.
  induction k as [|k IH]; intros o vs; rewrite decodeElements_S.
  - destruct (decode (snd SLAB_NODE_LAYOUT) b o) as [v|] eqn:E; [|discriminate].
    intros _. assert (Hs : is_Some (decode (snd SLAB_NODE_LAYOUT) b o)) by eauto.
    rewrite SLAB_NODE_LAYOUT_decode_unfold in Hs.
    destruct (readUIntLE b o 4) eqn:Et; [|destruct Hs; discriminate].
    apply readUIntLE_Some_range in Et. cbn in *. lia.
  - destruct (decode (snd SLAB_NODE_LAYOUT) b o) as [v|]; [|discriminate].
    change (getSpan (snd SLAB_NODE_LAYOUT) b o) with (Some 64).
    cbn [mbind option_bind].
    destruct (decodeElements _ _ (S k) (o + 64)) as [rest|] eqn:E; [|discriminate].
    intros _. apply IH in E. lia.
Qed.

(** X18.  A slab that decodes holds the five integers of its header
    (28 bytes; the last spacer is not read) and, if [bumpIndex] is not 0,
    reaches at least to the tag of its last node. *)
Theorem SLAB_LAYOUT_decode_needs (b : list byte) (o : Z) (v : Value) :
  decode SLAB_LAYOUT b o = Some v ->
  exists bumpIndex,
    readUIntLE b o 4 = Some bumpIndex /\
    o + 28 <= Z.of_nat (length b) /\
    (0 < bumpIndex -> o + 32 + 64 * (bumpIndex - 1) + 4 <= Z.of_nat (length b)).
Proof.
  rewrite SLAB_LAYOUT_decode_unfold, SLAB_HEADER_LAYOUT_decode.
  destruct (readUIntLE b o 4) as [n|] eqn:En; [|discriminate].
  cbn [mbind option_bind].
  destruct (readUIntLE b (o + 8) 4); [|discriminate].
  destruct (readUIntLE b (o + 16) 4); [|discriminate].
  destruct (readUIntLE b (o + 20) 4); [|discriminate].
  destruct (readUIntLE b (o + 24) 4) eqn:E24; [|discriminate].
  cbn [mbind option_bind].
  destruct (decodeElements _ _ _ _) as [nodes|] eqn:Enodes; [|discriminate].
  intros _. exists n. split; [reflexivity|].
  apply readUIntLE_Some_range in E24. split; [cbn in E24; lia|].
  intros Hn. destruct (Z.to_nat n) as [|k] eqn:Ek; [lia|].
  apply decodeElements_last_tag in Enodes. lia.
Qed.

Lemma SLAB_LAYOUT_decode_needs_witness :
  exists bumpIndex,
    readUIntLE oneLeafSlab 0 4 = Some bumpIndex /\
    0 + 28 <= Z.of_nat (length oneLeafSlab) /\
    (0 < bumpIndex ->
     0 + 32 + 64 * (bumpIndex - 1) + 4 <= Z.of_nat (length oneLeafSlab)).
Proof.
  destruct (decode SLAB_LAYOUT oneLeafSlab 0) as [v|] eqn:E;
    [|vm_compute in E; discriminate].
  exact (SLAB_LAYOUT_decode_needs oneLeafSlab 0 v E).
Defined.

End SlabNodeFacts.

Lemma SLAB_NODE_LAYOUT_leafNode_fields_witness :
  let b := SlabLayout.leafBytes 1 (Z.shiftl 100 64 + 7) 2 in
  BufferLayout.decode (snd SlabLayout.SLAB_NODE_LAYOUT) b 0
  = Some (BufferLayout.VObject
            [("leafNode"%string,
              BufferLayout.VObject
                [("ownerSlot"%string,
                  BufferLayout.VNumber (le_combine (BufferLayout.slice b (0 + 4) (0 + 5))));
                 ("key"%string,
                  BufferLayout.VBN (le_combine (BufferLayout.slice b (0 + 8) (0 + 24))));
                 ("owner"%string,
                  BufferLayout.VBuffer (BufferLayout.slice b (0 + 24) (0 + 56)));
                 ("quantity"%string,
                  BufferLayout.VBN (le_combine (BufferLayout.slice b (0 + 56) (0 + 64))))])]).
Proof.
  intros b. apply (SLAB_NODE_LAYOUT_leafNode_fields b 0).
  - vm_compute. reflexivity.
  - vm_compute. discriminate.
Defined.

Lemma SLAB_NODE_LAYOUT_unknown_tag_witness :
  let b := le_split 4 9 ++ [Byte.x01; Byte.x02] in
  BufferLayout.decode (snd SlabLayout.SLAB_NODE_LAYOUT) b 0
  = Some (BufferLayout.VObject
            [("tag"%string, BufferLayout.VNumber 9);
             ("content"%string,
              BufferLayout.VBuffer (BufferLayout.slice b (0 + 4) (0 + 64)))]) /\
  Z.of_nat (length (BufferLayout.slice b (0 + 4) (0 + 64)))
  = Z.min 60 (Z.of_nat (length b) - (0 + 4)).
Proof.
  intros b. apply (SLAB_NODE_LAYOUT_unknown_tag b 0 9).
  - vm_compute. reflexivity.
  - reflexivity.
Defined.

(** ** The mint layouts *)

Local Transparent BufferLayout.readUIntLE BufferLayout.slice le_combine.

Lemma firstn_1_skipn {A : Type} (n : nat) :
  forall (b : list A) (x : A), b !! n = Some x -> firstn 1 (skipn n b) = [x].
Proof.
  induction n as [|n IH]; intros [|y b] x; cbn; try discriminate.
  - now intros [= ->].
  - apply IH.
Qed.

Lemma readUIntLE_byte (b : list byte) (n : nat) :
  BufferLayout.readUIntLE b (Z.of_nat n) 1 = (x ← b !! n; Some (byte.unsigned x)).
Proof.
  unfold BufferLayout.readUIntLE.
  destruct (b !! n) as [x|] eqn:E; cbn [mbind option_bind].
  - pose proof (lookup_lt_Some _ _ _ E) as Hlt.
    destruct (Z.leb_spec 0 (Z.of_nat n)); [|lia].
    destruct (Z.leb_spec (Z.of_nat n + Z.of_nat 1) (Z.of_nat (length b))); [|lia].
    cbn [andb]. rewrite Nat2Z.id, (firstn_1_skipn n b x E).
    unfold le_combine. rewrite Z.shiftl_0_l. now rewrite Z.lor_0_r.
  - apply lookup_ge_None in E.
    destruct (Z.leb_spec (Z.of_nat n + Z.of_nat 1) (Z.of_nat (length b))); [lia|].
    now rewrite andb_false_r.
Qed.

(** X19.  [getMintDecimals] returns byte 36 of the account data as an
    unsigned number: it throws when there is no account and when the data
    has fewer than 37 bytes, and reads nothing else of the 40 bytes of
    [MINT_LAYOUT]. *)
Theorem getMintDecimals_byte_36 (accountInfo : option (list byte)) :
  Mint.getMintDecimals accountInfo
  = (data ← accountInfo; x ← data !! 36%nat; Some (byte.unsigned x)) /\
  BufferLayout.span Mint.MINT_LAYOUT = Some 40%nat.
Proof.
  split; [|reflexivity].
  destruct accountInfo as [data|]; [|reflexivity].
  cbn [mbind option_bind]. unfold Mint.getMintDecimals. cbn [mbind option_bind].
  change (BufferLayout.decode Mint.MINT_LAYOUT data 0)
    with (BufferLayout.VObject <$>
            (v ← BufferLayout.VNumber <$> BufferLayout.readUIntLE data (Z.of_nat 36) 1;
             Some [("decimals"%string, v)])).
  rewrite readUIntLE_byte. destruct (data !! 36%nat); reflexivity.
Qed.

(** X20.  [parseMintData] of the interface returns byte 44 of the data,
    and throws when the data has fewer than 45 bytes: it does not read the
    byte that [getMintDecimals] reads. *)
Theorem parseMintData_byte_44 (data : list byte) :
  Tokens.parseMintData data = (x ← data !! 44%nat; Some (byte.unsigned x)) /\
  BufferLayout.span Tokens.MINT_LAYOUT = Some 82%nat.
Proof.
  split; [|reflexivity].
  unfold Tokens.parseMintData.
  change (BufferLayout.decode Tokens.MINT_LAYOUT data 0)
    with (BufferLayout.VObject <$>
            (v ← BufferLayout.VNumber <$> BufferLayout.readUIntLE data (Z.of_nat 44) 1;
             Some [("decimals"%string, v)])).
  rewrite readUIntLE_byte. destruct (data !! 44%nat); reflexivity.
Qed.

(** ** The pool schema: what [encodePoolRequest] writes *)

Section BorshEncodes.

Import Borsh.

Lemma uint_encodes (span : nat) : Encodes (uint span) (fun _ => span).
Proof.
  intros v bytes. cbn.
  destruct (_ && _); [|discriminate].
  intros [= <-]. apply length_le_split.
Qed.

Lemma unsigned_encodes (span : nat) : Encodes (unsigned span) (fun _ => span).
Proof. intros v bytes. cbn. intros [= <-]. apply length_le_split. Qed.

Lemma int_encodes (span : nat) : Encodes (int span) (fun _ => span).
Proof. intros v bytes. cbn. intros [= <-]. apply length_le_split. Qed.

Lemma pair_encodes {A B : Type} (la : Layout A) (lb : Layout B)
    (sa : A -> nat) (sb : B -> nat) :
  Encodes la sa -> Encodes lb sb ->
  Encodes (pair la lb) (fun '(a, b) => (sa a + sb b)%nat).
Proof.
  intros Ha Hb [a b] bytes. cbn.
  destruct (encode la a) as [x|] eqn:Ex; [|discriminate].
  destruct (encode lb b) as [y|] eqn:Ey; [|discriminate].
  cbn. intros [= <-]. apply Ha in Ex. apply Hb in Ey.
  rewrite length_app. lia.
Qed.

Lemma imap_encodes {A B : Type} (f : A -> B) (g : B -> A) (l : Layout A)
    (sa : A -> nat) (sb : B -> nat) :
  Encodes l sa ->
  (forall b, sa (g b) = sb b) ->
  Encodes (imap f g l) sb.
Proof.
  intros Hl Hs b bytes E. apply Hl in E. now rewrite <- Hs.
Qed.

Lemma encodeAll_encodes {A : Type} (el : Layout A) (c : nat) :
  Encodes el (fun _ => c) ->
  forall vs bytes, encodeAll el vs = Some bytes ->
    length bytes = (c * length vs)%nat.
Proof.
  intros Hel. induction vs as [|v vs IH]; intros bytes; cbn [encodeAll].
  - intros [= <-]. cbn. lia.
  - destruct (encode el v) as [x|] eqn:Ex; [|discriminate].
    destruct (encodeAll el vs) as [y|]; [|discriminate].
    cbn. intros [= <-]. apply Hel in Ex. specialize (IH y eq_refl).
    rewrite length_app. cbn [length]. lia.
Qed.

Lemma vec_encodes {A : Type} (lengthSpan : nat) (el : Layout A) (c : nat) :
  Encodes el (fun _ => c) ->
  Encodes (vec lengthSpan el) (fun vs => (lengthSpan + c * length vs)%nat).
Proof.
  intros Hel vs bytes.
  change (encode (vec lengthSpan el) vs)
    with (n0 ← encode (uint lengthSpan) (Z.of_nat (length vs));
          body0 ← encodeAll el vs; Some (n0 ++ body0)).
  destruct (encode (uint lengthSpan) _) as [n|] eqn:En; [|discriminate].
  destruct (encodeAll el vs) as [body|] eqn:Eb; [|discriminate].
  cbn. intros [= <-]. apply uint_encodes in En.
  apply (encodeAll_encodes el c Hel) in Eb.
  rewrite length_app. lia.
Qed.

Lemma rustEnum_encodes {A B C : Type} (la : Layout A) (lb : Layout B) (lc : Layout C)
    (sa : A -> nat) (sb : B -> nat) (sc : C -> nat) :
  Encodes la sa -> Encodes lb sb -> Encodes lc sc ->
  Encodes (rustEnum la lb lc)
    (fun v => match v with
              | variant0 a => S (sa a)
              | variant1 b => S (sb b)
              | variant2 c => S (sc c)
              end).
Proof.
  intros Ha Hb Hc [a|b|c] bytes.
  - change (encode (rustEnum la lb lc) (variant0 a))
      with (d0 ← encode u8 0; x0 ← encode la a; Some (d0 ++ x0)).
    change (encode u8 0) with (Some (le_split 1 0)). cbn [mbind option_bind].
    destruct (encode la a) as [x|] eqn:Ex; [|discriminate].
    cbn. intros [= <-]. apply Ha in Ex. cbn [length]. lia.
  - change (encode (rustEnum la lb lc) (variant1 b))
      with (d0 ← encode u8 1; x0 ← encode lb b; Some (d0 ++ x0)).
    change (encode u8 1) with (Some (le_split 1 1)). cbn [mbind option_bind].
    destruct (encode lb b) as [x|] eqn:Ex; [|discriminate].
    cbn. intros [= <-]. apply Hb in Ex. cbn [length]. lia.
  - change (encode (rustEnum la lb lc) (variant2 c))
      with (d0 ← encode u8 2; x0 ← encode lc c; Some (d0 ++ x0)).
    change (encode u8 2) with (Some (le_split 1 2)). cbn [mbind option_bind].
    destruct (encode lc c) as [x|] eqn:Ex; [|discriminate].
    cbn. intros [= <-]. apply Hc in Ex. cbn [length]. lia.
Qed.

Lemma tagged_encodes {A : Type} (tag : Z) (l : Layout A) (sa : A -> nat) :
  Encodes l sa -> Encodes (tagged tag l) (fun v => (8 + sa v)%nat).
Proof.
  intros Hl v bytes.
  change (encode (tagged tag l) v)
    with (t0 ← encode (unsigned 8) tag; x0 ← encode l v; Some (t0 ++ x0)).
  destruct (encode (unsigned 8) tag) as [t|] eqn:Et; [|discriminate].
  destruct (encode l v) as [x|] eqn:Ex; [|discriminate].
  cbn [mbind option_bind]. intros [= <-]. apply unsigned_encodes in Et. apply Hl in Ex.
  rewrite length_app. lia.
Qed.

(** What [tagged] accepts starts with the tag. *)
Lemma tagged_decode_tag {A : Type} (tag : Z) (l : Layout A) (data : list byte)
    (v : A) (rest : list byte) :
  decode (tagged tag l) data = Some (v, rest) ->
  (8 <= length data)%nat /\ le_combine (firstn 8 data) = tag.
Proof.
  change (decode (tagged tag l) data)
    with ('(t, rest0) ← decode (uint 8) data;
          if t =? tag then decode l rest0 else None).
  cbn [decode uint].
  destruct (Nat.leb_spec 8 (length data)); [|discriminate].
  cbn [mbind option_bind].
  destruct (Z.eqb_spec (le_combine (firstn 8 data)) tag); [|discriminate].
  auto.
Qed.

Lemma Encodes_ext {A : Type} (l : Layout A) (sa sb : A -> nat) :
  Encodes l sa -> (forall v, sa v = sb v) -> Encodes l sb.
Proof.
  intros Hl Hs v bytes E. apply Hl in E. now rewrite <- Hs.
Qed.

End BorshEncodes.

Section PoolEncodes.

Variable lengthSpan : nat.

Lemma Basket_layout_encodes :
  Encodes (Pool.Basket_layout lengthSpan)
          (fun b => (lengthSpan + 8 * length (Pool.quantities b))%nat).
Proof.
  unfold Pool.Basket_layout.
  eapply imap_encodes.
  - exact (vec_encodes lengthSpan Borsh.i64 8 (int_encodes 8)).
  - reflexivity.
Qed.

Lemma PoolAction_layout_encodes :
  Encodes (Pool.PoolAction_layout lengthSpan) (actionSize lengthSpan).
Proof.
  unfold Pool.PoolAction_layout.
  eapply imap_encodes.
  - exact (rustEnum_encodes _ _ _ _ _ _
             (unsigned_encodes 8) (unsigned_encodes 8) Basket_layout_encodes).
  - intros [a|a|b]; reflexivity.
Qed.

Lemma InitializePoolRequest_layout_encodes :
  Encodes (Pool.InitializePoolRequest_layout) (fun _ => 4%nat).
Proof.
  unfold Pool.InitializePoolRequest_layout.
  eapply imap_encodes.
  - exact (pair_encodes _ _ _ _ (uint_encodes 1)
             (pair_encodes _ _ _ _ (uint_encodes 1) (uint_encodes 2))).
  - intros [n a c]. reflexivity.
Qed.

Lemma PoolRequest_layout_encodes :
  Encodes (Pool.PoolRequest_layout lengthSpan) (requestSize lengthSpan).
Proof.
  unfold Pool.PoolRequest_layout.
  eapply Encodes_ext.
  - apply tagged_encodes. eapply imap_encodes.
    + exact (rustEnum_encodes _ _ _ _ _ _
               InitializePoolRequest_layout_encodes
               PoolAction_layout_encodes PoolAction_layout_encodes).
    + intros r. reflexivity.
  - intros [r|a|a]; cbn; lia.
Qed.

End PoolEncodes.

(** X21.  What [encodePoolRequest] returns has the length [requestSize]
    of the request, at most the 1000 bytes of its buffer; for a request
    whose fields are in the range of their layouts it returns exactly when
    [requestSize] is at most 1000, and throws otherwise. *)
Theorem encodePoolRequest_returns_iff (lengthSpan : nat) (r : Pool.PoolRequest) :
  (forall data, Pool.encodePoolRequest lengthSpan r = Some data ->
                length data = requestSize lengthSpan r /\
                (requestSize lengthSpan r <= 1000)%nat) /\
  (Pool.validRequest lengthSpan r ->
   (is_Some (Pool.encodePoolRequest lengthSpan r) <->
    (requestSize lengthSpan r <= 1000)%nat)).
Proof.
  unfold Pool.encodePoolRequest. split.
  - intros data.
    destruct (Borsh.encode (Pool.PoolRequest_layout lengthSpan) r) as [bytes|] eqn:E;
      [|discriminate].
    cbn [mbind option_bind].
    pose proof (PoolRequest_layout_encodes lengthSpan r bytes E) as Hlen.
    destruct (Nat.leb_spec (length bytes) 1000); [|discriminate].
    intros [= <-]. split; [exact Hlen | lia].
  - intros Hv.
    destruct (PoolRequest_layout_roundtrips lengthSpan r Hv) as (bytes & E & _).
    rewrite E. cbn [mbind option_bind].
    pose proof (PoolRequest_layout_encodes lengthSpan r bytes E) as Hlen.
    rewrite Hlen. destruct (Nat.leb_spec (requestSize lengthSpan r) 1000).
    + split; eauto.
    + split; [intros [x Hx]; discriminate | lia].
Qed.

(** A swap of 123 quantities fits the buffer, with 998 bytes; a swap of
    124 quantities, 1006 bytes, makes [encodePoolRequest] throw. *)
Lemma encodePoolRequest_returns_iff_witness :
  is_Some (Pool.encodePoolRequest 4
             (Pool.transact (Pool.swap {| Pool.quantities := repeat 1 123 |}))) /\
  Pool.encodePoolRequest 4
    (Pool.transact (Pool.swap {| Pool.quantities := repeat 1 124 |})) = None.
Proof.
  split.
  - destruct (encodePoolRequest_returns_iff 4
                (Pool.transact (Pool.swap {| Pool.quantities := repeat 1 123 |})))
      as [_ H].
    apply H.
    + split; [vm_compute; reflexivity | repeat constructor; lia].
    + vm_compute. lia.
  - destruct (Pool.encodePoolRequest 4
                (Pool.transact (Pool.swap {| Pool.quantities := repeat 1 124 |})))
      as [data|] eqn:E; [|reflexivity].
    destruct (encodePoolRequest_returns_iff 4
                (Pool.transact (Pool.swap {| Pool.quantities := repeat 1 124 |})))
      as [H _].
    destruct (H data E) as [_ Hle]. vm_compute in Hle. lia.
Defined.

(** X22.  For a request whose fields are in the range of their layouts,
    [decodePoolRequest] gives the request back from what
    [encodePoolRequest] returns, also with bytes after it; so no two such
    requests have the same encoding. *)
Theorem decodePoolRequest_inverts (lengthSpan : nat) (r : Pool.PoolRequest)
    (data : list byte) :
  Pool.validRequest lengthSpan r ->
  Pool.encodePoolRequest lengthSpan r = Some data ->
  (forall trailing, Pool.decodePoolRequest lengthSpan (data ++ trailing) = Some r) /\
  (forall r', Pool.validRequest lengthSpan r' ->
              Pool.encodePoolRequest lengthSpan r' = Some data -> r' = r).
Proof.
  assert (Hdec : forall r0 d, Pool.validRequest lengthSpan r0 ->
                   Pool.encodePoolRequest lengthSpan r0 = Some d ->
                   forall trailing,
                     Pool.decodePoolRequest lengthSpan (d ++ trailing) = Some r0).
  { intros r0 d Hv. unfold Pool.encodePoolRequest, Pool.decodePoolRequest.
    destruct (PoolRequest_layout_roundtrips lengthSpan r0 Hv) as (bytes & E & D).
    rewrite E. cbn [mbind option_bind]. destruct (_ <=? _)%nat; [|discriminate].
    intros [= <-] trailing. now rewrite D. }
  intros Hv E. split; [now apply Hdec|].
  intros r' Hv' E'. pose proof (Hdec r data Hv E []) as D.
  pose proof (Hdec r' data Hv' E' []) as D'. congruence.
Qed.

Lemma decodePoolRequest_inverts_witness :
  let r := Pool.getBasket (Pool.create 5) in
  let data := le_split 8 Pool.POOL_REQUEST_TAG ++ [Byte.x01; Byte.x00] ++ le_split 8 5 in
  (forall trailing, Pool.decodePoolRequest 4 (data ++ trailing) = Some r) /\
  (forall r', Pool.validRequest 4 r' ->
              Pool.encodePoolRequest 4 r' = Some data -> r' = r).
Proof.
  intros r data. apply (decodePoolRequest_inverts 4 r data).
  - cbn. lia.
  - vm_compute. reflexivity.
Defined.

(** X23.  [isPoolState] answers true on every buffer that
    [decodePoolRequest] decodes, so on every encoded request. *)
Theorem decodePoolRequest_isPoolState (lengthSpan : nat) (data : list byte)
    (r : Pool.PoolRequest) :
  Pool.decodePoolRequest lengthSpan data = Some r ->
  Pool.isPoolState data = true.
Proof.
  unfold Pool.decodePoolRequest, Pool.PoolRequest_layout.
  destruct (Borsh.decode _ data) as [[v rest]|] eqn:E; [|discriminate].
  intros _. apply tagged_decode_tag in E. destruct E as [Hlen Htag].
  apply isPoolState_iff. unfold Pool.toBuffer_le. rewrite <- Htag.
  assert (Hl : length (firstn 8 data) = 8%nat) by (rewrite length_firstn; lia).
  rewrite <- Hl at 2. symmetry. apply split_le_combine.
Qed.

Lemma decodePoolRequest_isPoolState_witness :
  Pool.isPoolState
    (le_split 8 Pool.POOL_REQUEST_TAG ++ [Byte.x01; Byte.x00] ++ le_split 8 5) = true.
Proof.
  apply (decodePoolRequest_isPoolState 4 _ (Pool.getBasket (Pool.create 5))).
  vm_compute. reflexivity.
Defined.

(** X24.  [decodePoolState] throws on every buffer on which [isPoolState]
    answers true, whatever the layout of the payload of [PoolState]. *)
Theorem isPoolState_decodePoolState_throws {A : Type} (payload : Borsh.Layout A)
    (data : list byte) :
  Pool.isPoolState data = true -> decodePoolState payload data = None.
Proof.
  intros H. unfold decodePoolState.
  now rewrite (isPoolState_not_PoolState payload data H).
Qed.

Lemma isPoolState_decodePoolState_throws_witness :
  decodePoolState Borsh.u8 (Pool.toBuffer_le Pool.POOL_REQUEST_TAG ++ [Byte.x07]) = None.
Proof.
  apply (isPoolState_decodePoolState_throws Borsh.u8).
  vm_compute. reflexivity.
Defined.

(** ** [getL2] and the quantities of the slab *)

Lemma getL2_loop_no_iadd (depth : Z) (hs : list nat) (nodes : list Slab.node) :
  distinctNeighbours (map (Slab.lots nodes) hs) ->
  forall levels nodes' levels',
    match last levels, hs with
    | Some (p, _), h :: _ => p <> fst (Slab.lots nodes h)
    | _, _ => True
    end ->
    Orderbook.getL2_loop depth (Slab.yields hs) nodes levels = Some (nodes', levels') ->
    nodes' = nodes.
Proof.
  induction hs as [|h hs IH]; intros Hd levels nodes' levels' Hlast.
  - now intros [= <- _].
  - cbn [Slab.yields Orderbook.getL2_loop]. cbn [map distinctNeighbours] in Hd.
    destruct Hd as [Hhead Hd].
    unfold Slab.lots in Hlast, Hhead.
    destruct (nodes !! h) as [[| | os k o q | | |]|] eqn:Eh; try discriminate.
    cbn [fst] in Hlast, Hhead.
    assert (Hnext : forall nodes'0 levels'0,
               Orderbook.getL2_loop depth (Slab.yields hs) nodes
                 (levels ++ [(getPriceFromKey k, h)]) = Some (nodes'0, levels'0) ->
               nodes'0 = nodes).
    { intros n' l'. apply (IH Hd). rewrite last_snoc.
      destruct hs as [|h' hs]; [exact I|]. exact Hhead. }
    destruct (last levels) as [[p r]|].
    + unfold BN.eq. destruct (Z.eqb_spec p (getPriceFromKey k)) as [E|_]; [tauto|].
      destruct (_ =? depth); [now intros [= <- _] | apply Hnext].
    + destruct (_ =? depth); [now intros [= <- _] | apply Hnext].
Qed.

(** X25.  [getL2] leaves the order book as it is when no two neighbouring
    leaves of the traversal have the same price. *)
Theorem getL2_distinct_prices_leaves_book (ob : Orderbook.t) (depth : Z)
    (hs : list nat) (result : list L2Level) (ob' : Orderbook.t) :
  Slab.items (Orderbook.slab ob) (Orderbook.isBids ob) = Slab.yields hs ->
  distinctNeighbours (map (Slab.lots (Slab.nodes (Orderbook.slab ob))) hs) ->
  Orderbook.getL2 ob depth = Some (result, ob') ->
  ob' = ob.
Proof.
  intros Hit Hd. unfold Orderbook.getL2. rewrite Hit.
  destruct (Orderbook.getL2_loop _ _ _ _) as [[nodes' levels]|] eqn:El; [|discriminate].
  apply (getL2_loop_no_iadd depth hs _ Hd) in El; [|exact I]. subst nodes'.
  cbn [mbind option_bind]. destruct (mapM _ _) as [rows|]; [|discriminate].
  cbn. intros [= _ <-]. destruct ob as [m b [hd nodes]]. reflexivity.
Qed.

Lemma getL2_distinct_prices_leaves_book_witness :
  exists result,
    Orderbook.getL2 (book false slab_3_5) 5 = Some (result, book false slab_3_5).
Proof.
  destruct (Orderbook.getL2 (book false slab_3_5) 5) as [[result ob']|] eqn:E;
    [|vm_compute in E; discriminate].
  exists result. f_equal. f_equal.
  apply (getL2_distinct_prices_leaves_book (book false slab_3_5) 5 [1; 2]%nat result ob').
  - reflexivity.
  - vm_compute. repeat split; discriminate.
  - exact E.
Defined.

Lemma quantityOf_iadd_le (nodes : list Slab.node) (r : nat) (q : Z) (h : nat) :
  0 <= q ->
  Orderbook.quantityOf nodes h <= Orderbook.quantityOf (Orderbook.iadd nodes r q) h.
Proof.
  intros Hq. unfold Orderbook.quantityOf.
  destruct (Nat.eq_dec h r) as [->|Hne]; [|rewrite lots_iadd_ne by exact Hne; lia].
  unfold Orderbook.iadd, Slab.lots.
  destruct (nodes !! r) as [[| | os k o q0 | | |]|] eqn:Er; rewrite ?Er; try lia.
  rewrite list_lookup_insert_eq by (eapply lookup_lt_Some; exact Er). cbn. lia.
Qed.

Lemma getL2_loop_quantities_grow (depth : Z) (it : Slab.items_t) :
  forall nodes levels nodes' levels',
    (forall h, 0 <= Orderbook.quantityOf nodes h) ->
    Orderbook.getL2_loop depth it nodes levels = Some (nodes', levels') ->
    forall h, Orderbook.quantityOf nodes h <= Orderbook.quantityOf nodes' h.
Proof.
  induction it as [|h rest IH|]; intros nodes levels nodes' levels' Hnn.
  - intros [= <- _] x. lia.
  - cbn [Orderbook.getL2_loop].
    pose proof (Hnn h) as Hq. unfold Orderbook.quantityOf, Slab.lots in Hq.
    destruct (nodes !! h) as [[| | os k o q | | |]|]; try discriminate.
    cbn [snd] in Hq.
    destruct (last levels) as [[p r]|].
    + destruct (BN.eq p (getPriceFromKey k)).
      * intros E x. apply IH with (h := x) in E.
        -- pose proof (quantityOf_iadd_le nodes r q x Hq). lia.
        -- intros y. pose proof (quantityOf_iadd_le nodes r q y Hq).
           specialize (Hnn y). lia.
      * destruct (_ =? depth); [intros [= <- _] x; lia | now apply IH].
    + destruct (_ =? depth); [intros [= <- _] x; lia | now apply IH].
  - discriminate.
Qed.

(** X26.  The quantity of a leaf is changed in place: when the first two
    leaves of the traversal have the same price and [depth] is not 0, the
    slab that [getL2] leaves behind has a larger quantity in the first
    leaf, by at least the quantity of the second. *)
Theorem getL2_adds_to_first_leaf (ob : Orderbook.t) (depth : Z)
    (h1 h2 : nat) (hs : list nat) (result : list L2Level) (ob' : Orderbook.t) :
  let nodes := Slab.nodes (Orderbook.slab ob) in
  Slab.items (Orderbook.slab ob) (Orderbook.isBids ob) = Slab.yields (h1 :: h2 :: hs) ->
  fst (Slab.lots nodes h1) = fst (Slab.lots nodes h2) ->
  (forall h, 0 <= Orderbook.quantityOf nodes h) ->
  depth <> 0 ->
  Orderbook.getL2 ob depth = Some (result, ob') ->
  Orderbook.quantityOf nodes h1 + Orderbook.quantityOf nodes h2
  <= Orderbook.quantityOf (Slab.nodes (Orderbook.slab ob')) h1.
Proof.
  intros nodes Hit Hp Hnn Hd.
  destruct (items_yields_distinct_leaves _ _ _ Hit) as [_ Hleaf].
  inversion Hleaf as [|? ? Hl1 Hleaf']; subst.
  inversion Hleaf' as [|? ? Hl2 _]; subst.
  destruct Hl1 as (os1 & k1 & o1 & q1 & E1). destruct Hl2 as (os2 & k2 & o2 & q2 & E2).
  fold nodes in E1, E2.
  unfold Orderbook.getL2. rewrite Hit. fold nodes.
  cbn [Slab.yields Orderbook.getL2_loop]. rewrite E1. cbn [last length].
  destruct (Z.eqb_spec (Z.of_nat 0) depth) as [E|_]; [lia|].
  cbn [app]. rewrite E2. cbn [last].
  unfold Slab.lots in Hp. rewrite E1, E2 in Hp. cbn [fst] in Hp.
  unfold BN.eq. rewrite Hp, Z.eqb_refl.
  destruct (Orderbook.getL2_loop _ _ _ _) as [[nodes' levels]|] eqn:El; [|discriminate].
  cbn [mbind option_bind]. destruct (mapM _ _) as [rows|]; [|discriminate].
  cbn. intros [= _ <-]. cbn [Orderbook.slab Slab.nodes].
  assert (Hq2 : 0 <= q2).
  { specialize (Hnn h2). unfold Orderbook.quantityOf, Slab.lots in Hnn.
    now rewrite E2 in Hnn. }
  eapply getL2_loop_quantities_grow with (h := h1) in El.
  - etransitivity; [|exact El].
    unfold Orderbook.quantityOf. rewrite lots_iadd_eq by (now exists os1, k1, o1, q1).
    unfold Slab.lots. rewrite E1, E2. cbn. lia.
  - intros y. pose proof (quantityOf_iadd_le nodes h1 q2 y Hq2).
    specialize (Hnn y). lia.
Qed.

Lemma getL2_adds_to_first_leaf_witness :
  exists result ob',
    Orderbook.getL2 (book false slab_100_100) 1 = Some (result, ob') /\
    Orderbook.quantityOf (Slab.nodes slab_100_100) 1
    + Orderbook.quantityOf (Slab.nodes slab_100_100) 2
    <= Orderbook.quantityOf (Slab.nodes (Orderbook.slab ob')) 1.
Proof.
  destruct (Orderbook.getL2 (book false slab_100_100) 1) as [[result ob']|] eqn:E;
    [|vm_compute in E; discriminate].
  exists result, ob'. split; [reflexivity|].
  apply (getL2_adds_to_first_leaf (book false slab_100_100) 1 1 2 [] result ob').
  - reflexivity.
  - reflexivity.
  - intros h. destruct h as [|[|[|h]]]; vm_compute; discriminate.
  - discriminate.
  - exact E.
Defined.

(** ** The fields of an inner node, and the price in a leaf *)

Section SlabNodeFields.

Import BufferLayout SlabLayout.

(** X27.  The fields of an inner node: the prefix length is the 4 bytes
    after the tag, the key the 16 bytes from offset 8, and the two
    children the 4 bytes from offset 24 and from offset 28 of the node; the
    node decodes from its first 32 bytes. *)
Theorem SLAB_NODE_LAYOUT_innerNode_fields (b : list byte) (o : Z) :
  readUIntLE b o 4 = Some 1 ->
  o + 32 <= Z.of_nat (length b) ->
  decode (snd SLAB_NODE_LAYOUT) b o
  = Some (VObject
            [("innerNode"%string,
              VObject
                [("prefixLen"%string, VNumber (le_combine (slice b (o + 4) (o + 8))));
                 ("key"%string, VBN (le_combine (slice b (o + 8) (o + 24))));
                 ("children"%string,
                  VArray [VNumber (le_combine (slice b (o + 24) (o + 28)));
                          VNumber (le_combine (slice b (o + 28) (o + 32)))])])]).
Proof.
  intros Et Hlen. rewrite SLAB_NODE_LAYOUT_decode_unfold, Et.
  apply readUIntLE_Some_range in Et. cbn [mbind option_bind].
  change (1 =? 0) with false. change (1 =? 1) with true. cbn iota.
  rewrite (readUIntLE_slice b (o + 4) 4) by (cbn; lia).
  rewrite (readUIntLE_slice b (o + 8) 16) by (cbn; lia).
  rewrite (readUIntLE_slice b (o + 24) 4) by (cbn; lia).
  rewrite (readUIntLE_slice b (o + 28) 4) by (cbn; lia).
  cbn [mbind option_bind].
  replace (o + 4 + Z.of_nat 4) with (o + 8) by (cbn; lia).
  replace (o + 8 + Z.of_nat 16) with (o + 24) by (cbn; lia).
  replace (o + 24 + Z.of_nat 4) with (o + 28) by (cbn; lia).
  replace (o + 28 + Z.of_nat 4) with (o + 32) by (cbn; lia).
  reflexivity.
Qed.

Lemma slice_in_range (b : list byte) (s e : Z) :
  0 <= s <= e -> e <= Z.of_nat (length b) ->
  slice b s e = firstn (Z.to_nat (e - s)) (skipn (Z.to_nat s) b).
Proof.
  intros H1 H2. unfold slice.
  destruct (Z.ltb_spec s 0); [lia|]. destruct (Z.ltb_spec e 0); [lia|].
  now rewrite !Z.min_l by lia.
Qed.

Lemma firstn_add {A : Type} (n m : nat) :
  forall l : list A, firstn (n + m) l = firstn n l ++ firstn m (skipn n l).
Proof.
  induction n as [|n IH]; intros [|x l]; cbn; rewrite ?firstn_nil; try reflexivity.
  f_equal. apply IH.
Qed.

(** X28.  The price of an order is the upper half of the key of its leaf:
    [getPriceFromKey] of the 16-byte key at offset 8 of a node is the
    unsigned 64-bit integer at offset 16 of the node. *)
Theorem getPriceFromKey_key_bytes (b : list byte) (o : Z) :
  0 <= o -> o + 24 <= Z.of_nat (length b) ->
  getPriceFromKey (le_combine (slice b (o + 8) (o + 24)))
  = le_combine (slice b (o + 16) (o + 24)).
Proof.
  intros Ho Hlen.
  rewrite !slice_in_range by lia.
  replace (Z.to_nat (o + 24 - (o + 8))) with (8 + 8)%nat by lia.
  replace (Z.to_nat (o + 24 - (o + 16))) with 8%nat by lia.
  rewrite firstn_add, drop_drop.
  replace (Z.to_nat (o + 8) + 8)%nat with (Z.to_nat (o + 16)) by lia.
  set (lo := firstn 8 (skipn (Z.to_nat (o + 8)) b)).
  set (hi := firstn 8 (skipn (Z.to_nat (o + 16)) b)).
  assert (Hlo : length lo = 8%nat).
  { unfold lo. rewrite length_firstn, length_skipn. lia. }
  rewrite le_combine_app, Hlo. unfold getPriceFromKey, BN.ushrn.
  change (Z.of_nat 8 * 8) with 64.
  rewrite Z.shiftr_lor, Z.shiftr_shiftl_l by lia.
  rewrite Z.sub_diag, Z.shiftl_0_r.
  pose proof (le_combine_bound lo) as Hb. rewrite Hlo in Hb.
  change (8 * Z.of_nat 8) with 64 in Hb.
  rewrite Z.shiftr_div_pow2 by lia. rewrite Z.div_small by lia.
  apply Z.lor_0_l.
Qed.

End SlabNodeFields.

Lemma SLAB_NODE_LAYOUT_innerNode_fields_witness :
  let b := le_split 4 1 ++ le_split 4 61 ++ le_split 16 (key_of 3 1)
           ++ le_split 4 1 ++ le_split 4 2 in
  BufferLayout.decode (snd SlabLayout.SLAB_NODE_LAYOUT) b 0
  = Some (BufferLayout.VObject
            [("innerNode"%string,
              BufferLayout.VObject
                [("prefixLen"%string,
                  BufferLayout.VNumber (le_combine (BufferLayout.slice b (0 + 4) (0 + 8))));
                 ("key"%string,
                  BufferLayout.VBN (le_combine (BufferLayout.slice b (0 + 8) (0 + 24))));
                 ("children"%string,
                  BufferLayout.VArray
                    [BufferLayout.VNumber (le_combine (BufferLayout.slice b (0 + 24) (0 + 28)));
                     BufferLayout.VNumber (le_combine (BufferLayout.slice b (0 + 28) (0 + 32)))])])]).
Proof.
  intros b. apply (SLAB_NODE_LAYOUT_innerNode_fields b 0).
  - vm_compute. reflexivity.
  - vm_compute. discriminate.
Defined.

Lemma getPriceFromKey_key_bytes_witness :
  let b := SlabLayout.leafBytes 1 (key_of 100 7) 2 in
  getPriceFromKey (le_combine (BufferLayout.slice b (0 + 8) (0 + 24)))
  = le_combine (BufferLayout.slice b (0 + 16) (0 + 24)).
Proof.
  intros b. apply (getPriceFromKey_key_bytes b 0).
  - discriminate.
  - vm_compute. discriminate.
Defined.
